(** * Legislative tracker: the bill synchronisation pipeline of [api/sync-bills.js]

    A shallow embedding of the serverless function that copies bills,
    sponsors, subjects and jurisdictions from the upstream legislative API
    into the record store, and the properties of its field normaliser, its
    find-or-create reconciler, its entity sync units and its HTTP handler;
    then the scheduled function of [api/scheduled-sync.js], which calls that
    handler for every state in batches.

    Conventions of the embedding.
    - JavaScript strings are [string]s of 8-bit characters; case conversion
      and the character classes of the regular expressions act on the ASCII
      range, every other character is left alone.  On ASCII text this is
      what the engine does; the engine's case mapping of other characters
      is not modelled, and a statement that depends on it is made for ASCII
      text only ([ascii_only]).
    - The record store is asked by a filter formula into which the key is
      pasted as it is.  For a key without apostrophe or backslash the
      formula is the comparison of the cell with the key; what the store
      reads in any other text is left to the environment.
    - An attribute of an upstream JSON object that may be missing is an
      [option]; a test [if (x)] on such an attribute is [truthy x], which
      also rejects the empty string.
    - [async] functions are computations [M A] over a [World] (the record
      store and the trace of outgoing requests); a rejected promise is
      [Throw]. *)

From Stdlib Require Import String Ascii List ZArith Lia Bool.
From Stdlib Require DecimalString.
From stdpp Require Import gmap strings list fin_maps.

Local Open Scope string_scope.
Local Open Scope list_scope.

(* ===================================================================== *)
(** ** Characters and strings as the JavaScript built-ins see them       *)
(* ===================================================================== *)

Module Js.

Definition is_upper (c : ascii) : bool :=
  let n := nat_of_ascii c in (65 <=? n)%nat && (n <=? 90)%nat.

Definition is_lower (c : ascii) : bool :=
  let n := nat_of_ascii c in (97 <=? n)%nat && (n <=? 122)%nat.

Definition is_digit (c : ascii) : bool :=
  let n := nat_of_ascii c in (48 <=? n)%nat && (n <=? 57)%nat.

(** [\s] on the ASCII range: tab, line feed, vertical tab, form feed,
    carriage return and space. *)
Definition is_space (c : ascii) : bool :=
  let n := nat_of_ascii c in ((9 <=? n)%nat && (n <=? 13)%nat) || (n =? 32)%nat.

Definition lower_char (c : ascii) : ascii :=
  if is_upper c then ascii_of_nat (nat_of_ascii c + 32) else c.

Definition upper_char (c : ascii) : ascii :=
  if is_lower c then ascii_of_nat (nat_of_ascii c - 32) else c.

Fixpoint map_string (f : ascii -> ascii) (s : string) : string :=
  match s with
  | EmptyString => EmptyString
  | String c s' => String (f c) (map_string f s')
  end.

(** [s.toLowerCase()], [s.toUpperCase()], as they act on ASCII text. *)
Definition toLowerCase : string -> string := map_string lower_char.
Definition toUpperCase : string -> string := map_string upper_char.

(** [s.startsWith(p)] *)
Fixpoint startsWith (s p : string) : bool :=
  match p, s with
  | EmptyString, _ => true
  | String a p', String b s' => Ascii.eqb a b && startsWith s' p'
  | String _ _, EmptyString => false
  end.

(** [s.includes(needle)] *)
Fixpoint includes (s needle : string) : bool :=
  startsWith s needle ||
  match s with
  | EmptyString => false
  | String _ s' => includes s' needle
  end.

(** [s.charAt(0)]: the empty string when [s] is empty. *)
Definition charAt0 (s : string) : string :=
  match s with
  | EmptyString => EmptyString
  | String c _ => String c EmptyString
  end.

(** [s.slice(1)] *)
Definition slice1 (s : string) : string :=
  match s with
  | EmptyString => EmptyString
  | String _ s' => s'
  end.

(** [s.split(sep)] for a one-character separator; never the empty list. *)
Fixpoint split (sep : ascii) (s : string) : list string :=
  match s with
  | EmptyString => [EmptyString]
  | String c s' =>
      if Ascii.eqb c sep then EmptyString :: split sep s'
      else match split sep s' with
           | w :: ws => String c w :: ws
           | [] => [String c EmptyString]
           end
  end.

(** [words.join(sep)] *)
Fixpoint join (sep : string) (words : list string) : string :=
  match words with
  | [] => EmptyString
  | [w] => w
  | w :: ws => w ++ sep ++ join sep ws
  end.

(** [s.replace(/\s+/g, '')] *)
Fixpoint strip_spaces (s : string) : string :=
  match s with
  | EmptyString => EmptyString
  | String c s' => if is_space c then strip_spaces s' else String c (strip_spaces s')
  end.

(** A sequence of one-character classes matched at the head of [s]; the
    matched text is returned. *)
Fixpoint match_classes (p : list (ascii -> bool)) (s : string) : option string :=
  match p with
  | [] => Some EmptyString
  | f :: p' =>
      match s with
      | EmptyString => None
      | String c s' =>
          if f c then option_map (String c) (match_classes p' s') else None
      end
  end.

(** The leftmost match of a sequence of classes anywhere in [s]. *)
Fixpoint search_classes (p : list (ascii -> bool)) (s : string) : option string :=
  match match_classes p s with
  | Some m => Some m
  | None =>
      match s with
      | EmptyString => None
      | String _ s' => search_classes p s'
      end
  end.

(** A template literal prints a missing value as [undefined]. *)
Definition template (v : option string) : string :=
  match v with
  | Some s => s
  | None => "undefined"
  end.

(** Truthiness of a string-valued attribute that may be missing. *)
Definition truthy (v : option string) : bool :=
  match v with
  | Some (String _ _) => true
  | _ => false
  end.

(** [v || ''] *)
Definition or_empty (v : option string) : string :=
  match v with
  | Some s => s
  | None => EmptyString
  end.

(** [String(n)] for a natural number. *)
Definition string_of_nat (n : nat) : string :=
  DecimalString.NilZero.string_of_uint (Nat.to_uint n).

(** [String(z)] for an integer. *)
Definition string_of_Z (z : Z) : string :=
  DecimalString.NilZero.string_of_int (Z.to_int z).

End Js.

(* ===================================================================== *)
(** ** Exceptions                                                        *)
(* ===================================================================== *)

(** A thrown [Error], with its message. *)
Inductive Err := Error (message : string).

Definition err_message (e : Err) : string :=
  match e with Error m => m end.

Inductive Result (A : Type) :=
| Ok (a : A)
| Throw (e : Err).
Arguments Ok {A} a.
Arguments Throw {A} e.

(* ===================================================================== *)
(** ** Field normaliser                                                  *)
(* ===================================================================== *)

(** *** Dates: [normalizeDate] *)

(** [/^(\d{4}-\d{2}-\d{2})/] *)
Definition is_dash (c : ascii) : bool := Ascii.eqb c "-".

Definition date_pattern : list (ascii -> bool) :=
  [Js.is_digit; Js.is_digit; Js.is_digit; Js.is_digit; is_dash;
   Js.is_digit; Js.is_digit; is_dash; Js.is_digit; Js.is_digit].

(** The body of the [try] block.  [parse s] stands for the engine's
    [new Date(s)] followed by [toISOString().split('T')[0]]: [Ok (Some d)]
    for a valid date printed as [d], [Ok None] for an invalid date, and
    [Throw] for anything the built-ins could raise. *)
Definition normalizeDate_try (parse : string -> Result (option string))
    (dateString : string) : Result string :=
  match Js.match_classes date_pattern dateString with
  | Some m => Ok m
  | None =>
      match parse dateString with
      | Ok (Some iso) => Ok iso
      | Ok None => Ok dateString
      | Throw e => Throw e
      end
  end.

(** [normalizeDate(dateString)]; [None] is [null]. *)
Definition normalizeDate (parse : string -> Result (option string))
    (dateString : option string) : option string :=
  if negb (Js.truthy dateString) then None
  else
    let s := Js.or_empty dateString in
    match normalizeDate_try parse s with
    | Ok r => Some r
    | Throw _ => Some s
    end.

(** The calendar-date form of the specification: four digits, a dash, two
    digits, a dash, two digits, and nothing else. *)
Fixpoint has_shape (p : list (ascii -> bool)) (s : string) : bool :=
  match p, s with
  | [], EmptyString => true
  | f :: p', String c s' => f c && has_shape p' s'
  | _, _ => false
  end.

Definition is_calendar_date (d : string) : bool :=
  has_shape
    [Js.is_digit; Js.is_digit; Js.is_digit; Js.is_digit; Ascii.eqb "-";
     Js.is_digit; Js.is_digit; Ascii.eqb "-"; Js.is_digit; Js.is_digit] d.

(** The input begins with a calendar date. *)
Definition has_date_prefix (s : string) : bool :=
  is_calendar_date (substring 0 10 s).

(** *** Status: [determineStatus] *)

(** [determineStatus(bill)], as a function of the bill's
    [latest_action_description]. *)
Definition determineStatus (latest_action_description : option string) : string :=
  if negb (Js.truthy latest_action_description) then "Introduced"
  else
    let action := Js.toLowerCase (Js.or_empty latest_action_description) in
    if Js.includes action "signed" || Js.includes action "enacted" then "Enacted"
    else if Js.includes action "vetoed" then "Vetoed"
    else if Js.includes action "failed" || Js.includes action "died" then "Failed"
    else if Js.includes action "passed" && Js.includes action "senate" then "Passed Senate"
    else if Js.includes action "passed" && Js.includes action "house" then "Passed House"
    else if Js.includes action "committee" then "In Committee"
    else "Introduced".

(** The status enumeration of the data model. *)
Definition status_enum : list string :=
  ["Introduced"; "In Committee"; "Passed House"; "Passed Senate";
   "Enacted"; "Vetoed"; "Failed"].

(** The ordered rule table as the specification words it: a rule is a
    disjunction of conjunctions of keywords, and the first rule that
    matches gives the status. *)
Definition status_rules : list (list (list string) * string) :=
  [ ([["signed"]; ["enacted"]], "Enacted");
    ([["vetoed"]], "Vetoed");
    ([["failed"]; ["died"]], "Failed");
    ([["passed"; "senate"]], "Passed Senate");
    ([["passed"; "house"]], "Passed House");
    ([["committee"]], "In Committee") ].

Definition rule_matches (action : string) (alternatives : list (list string)) : bool :=
  existsb (forallb (Js.includes action)) alternatives.

Fixpoint first_matching_rule (action : string)
    (rules : list (list (list string) * string)) : string :=
  match rules with
  | [] => "Introduced"
  | (alternatives, status) :: rules' =>
      if rule_matches action alternatives then status
      else first_matching_rule action rules'
  end.

Definition status_spec (description : option string) : string :=
  match description with
  | None => "Introduced"
  | Some d => first_matching_rule (Js.toLowerCase d) status_rules
  end.

(** *** Subjects: [formatSubjectName] and [categorizeSubject] *)

(** [.replace(/([a-z])([A-Z])/g, '$1 $2')]: the scan resumes after the two
    characters of a match. *)
Fixpoint replace_lower_upper (s : string) : string :=
  match s with
  | EmptyString => EmptyString
  | String a rest =>
      match rest with
      | EmptyString => String a EmptyString
      | String b rest' =>
          if Js.is_lower a && Js.is_upper b
          then String a (String " " (String b (replace_lower_upper rest')))
          else String a (replace_lower_upper rest)
      end
  end.

(** [.replace(/([A-Z])([A-Z][a-z])/g, '$1 $2')]: the scan resumes after the
    three characters of a match. *)
Fixpoint replace_upper_upper_lower (s : string) : string :=
  match s with
  | EmptyString => EmptyString
  | String a rest =>
      match rest with
      | String b (String c rest'') =>
          if Js.is_upper a && Js.is_upper b && Js.is_lower c
          then String a (String " " (String b (String c (replace_upper_upper_lower rest''))))
          else String a (replace_upper_upper_lower rest)
      | _ => String a (replace_upper_upper_lower rest)
      end
  end.

(** [word.charAt(0).toUpperCase() + word.slice(1).toLowerCase()] *)
Definition title_case (word : string) : string :=
  Js.toUpperCase (Js.charAt0 word) ++ Js.toLowerCase (Js.slice1 word).

(** [formatted.charAt(0).toUpperCase() + formatted.slice(1)] *)
Definition capitalize_first (s : string) : string :=
  Js.toUpperCase (Js.charAt0 s) ++ Js.slice1 s.

(** The value of a property read from an object literal. *)
Inductive fieldval :=
| FStr (s : string)            (* a string *)
| FLinks (ids : list nat)      (* an array of record identifiers *)
| FNull                        (* null *)
| FFun (name : string).        (* a built-in inherited from Object.prototype *)

(** The own properties of the [commonWords] literal, in source order. *)
Definition commonWords : list (string * string) :=
  [ ("lawenforcement", "Law Enforcement");
    ("publicsafety", "Public Safety");
    ("racialandidentityprofiling", "Racial And Identity Profiling");
    ("foodvendorsandfacilities", "Food Vendors And Facilities");
    ("enforcementactivities", "Enforcement Activities");
    ("preapprenticeshipprathway", "Pre-Apprenticeship Pathway");
    ("peaceofficers", "Peace Officers");
    ("confidentialityofrecords", "Confidentiality Of Records");
    ("sexualassaultforensicevid", "Sexual Assault Forensic Evidence");
    ("californiascienceandhealth", "California Science And Health");
    ("economicdevelopment", "Economic Development");
    ("industrystrategies", "Industry Strategies");
    ("equitablecleanenergysup", "Equitable Clean Energy Supply") ].

Fixpoint assoc (k : string) (table : list (string * string)) : option string :=
  match table with
  | [] => None
  | (k', v) :: table' => if String.eqb k k' then Some v else assoc k table'
  end.

(** The properties every object literal inherits from [Object.prototype];
    all of them are functions or objects, hence truthy. *)
Definition object_prototype_keys : list string :=
  [ "constructor"; "__defineGetter__"; "__defineSetter__"; "hasOwnProperty";
    "__lookupGetter__"; "__lookupSetter__"; "isPrototypeOf";
    "propertyIsEnumerable"; "toString"; "valueOf"; "__proto__";
    "toLocaleString" ].

(** [commonWords[key]] when it is truthy: an own property first, an
    inherited one otherwise. *)
Definition commonWords_get (key : string) : option fieldval :=
  match assoc key commonWords with
  | Some v => Some (FStr v)
  | None =>
      if existsb (String.eqb key) object_prototype_keys
      then Some (FFun key) else None
  end.

(** The formatting step of [formatSubjectName], before the table lookup. *)
Definition format_step (subject : string) : string :=
  if Js.includes subject "_"
  then Js.join " " (List.map title_case (Js.split "_" subject))
  else capitalize_first (replace_upper_upper_lower (replace_lower_upper subject)).

(** [formatSubjectName(subject)] *)
Definition formatSubjectName (subject : string) : fieldval :=
  let formatted := format_step subject in
  let lowerFormatted := Js.toLowerCase formatted in
  match commonWords_get lowerFormatted with
  | Some v => v
  | None => FStr formatted
  end.

(** The camel-case rule as the specification words it: a space goes between
    two neighbours at a lowercase-to-uppercase transition, and at a capital
    followed by a capital plus a lowercase letter. *)
Definition lower_to_upper (a : ascii) (rest : string) : bool :=
  match rest with
  | String b _ => Js.is_lower a && Js.is_upper b
  | EmptyString => false
  end.

Definition capital_before_word (a : ascii) (rest : string) : bool :=
  match rest with
  | String b (String c _) => Js.is_upper a && Js.is_upper b && Js.is_lower c
  | _ => false
  end.

Definition gap_after (a : ascii) (rest : string) : bool :=
  lower_to_upper a rest || capital_before_word a rest.

Fixpoint space_transitions (s : string) : string :=
  match s with
  | EmptyString => EmptyString
  | String a rest =>
      if gap_after a rest then String a (String " " (space_transitions rest))
      else String a (space_transitions rest)
  end.

Definition canonicalize_spec (label : string) : fieldval :=
  let shaped :=
    if Js.includes label "_"
    then Js.join " " (List.map title_case (Js.split "_" label))
    else capitalize_first (space_transitions label) in
  match commonWords_get (Js.toLowerCase shaped) with
  | Some v => v
  | None => FStr shaped
  end.

(** [categorizeSubject(subject)]: the categories in the literal's order. *)
Definition categories : list (string * list string) :=
  [ ("Health", ["health"; "healthcare"; "medical"; "hospital"; "medicare"; "medicaid"]);
    ("Education", ["education"; "school"; "university"; "teacher"; "student"]);
    ("Environment", ["environment"; "climate"; "energy"; "pollution"; "conservation"]);
    ("Economy", ["tax"; "budget"; "finance"; "economy"; "business"; "commerce"]);
    ("Justice", ["crime"; "criminal"; "justice"; "court"; "police"; "prison"]);
    ("Transportation", ["transportation"; "highway"; "road"; "transit"; "vehicle"]) ].

Fixpoint first_category (subjectLower : string)
    (cats : list (string * list string)) : string :=
  match cats with
  | [] => "Other"
  | (category, keywords) :: cats' =>
      if existsb (Js.includes subjectLower) keywords then category
      else first_category subjectLower cats'
  end.

Definition categorizeSubject (subject : string) : string :=
  first_category (Js.toLowerCase subject) categories.

(* ===================================================================== *)
(** ** Upstream documents                                                *)
(* ===================================================================== *)

(** [current_role.district] is a number or a text upstream. *)
Inductive District :=
| DistrictNum (n : Z)
| DistrictText (s : string).

Record Role := {
  role_district : option District;
  role_org_classification : option string;
  role_title : option string
}.

Record Office := {
  office_voice : option string;
  office_address : option string
}.

Record Link := { link_url : option string }.

Record PersonJurisdiction := { pj_name : option string }.

(** A person: the stub carried by a sponsorship, or the full document of
    the people endpoint. *)
Record Person := {
  person_id : option string;
  person_name : option string;
  person_given_name : option string;
  person_family_name : option string;
  person_image : option string;
  person_biography : option string;
  person_email : option string;
  person_party : option string;
  person_current_role : option Role;
  person_jurisdiction : option PersonJurisdiction;
  person_offices : option (list Office);
  person_links : option (list Link)
}.

(** A jurisdiction; each element of [jur_legislative_sessions] is the JSON
    text of one session object. *)
Record Jurisdiction := {
  jur_id : option string;
  jur_name : option string;
  jur_legislature_name : option string;
  jur_legislative_sessions : list string
}.

Record Abstract := { abstract_text : option string }.
Record Organization := { org_classification : option string }.
Record Sponsorship := { sponsorship_person : option Person }.

(** A bill; a missing array is the empty list. *)
Record Bill := {
  bill_id : option string;
  bill_identifier : option string;
  bill_title : option string;
  bill_abstracts : list Abstract;
  bill_openstates_url : option string;
  bill_latest_action_description : option string;
  bill_classification : list string;
  bill_latest_action_date : option string;
  bill_first_action_date : option string;
  bill_from_organization : option Organization;
  bill_sponsorships : list Sponsorship;
  bill_subject : list string
}.

(* ===================================================================== *)
(** ** The world: record store and outgoing requests                     *)
(* ===================================================================== *)

(** A record of the store: its identifier and its cells. *)
Record AirRecord := {
  rec_id : nat;
  rec_fields : gmap string fieldval
}.

(** The tables of the base, each in creation order, and the next free
    record identifier. *)
Record Store := {
  tables : gmap string (list AirRecord);
  next_id : nat
}.

(** Every request that leaves the function. *)
Inductive Event :=
| EvPeople (ids : list string)
| EvBills (jurisdiction : string) (per_page : nat)
| EvJurisdiction (state : string)
| EvSelect (table field value : string)
| EvUpdate (table : string) (id : nat)
| EvCreate (table : string).

(** The store and the requests made so far, newest first. *)
Record World := {
  store : Store;
  trace : list Event
}.

(** What the function cannot control: the answers of the upstream API
    ([Throw] for a network error or a non-2xx status), the failures of the
    store, how the store reads a filter formula that is not of the plain
    shape (see [formula_filter]), the engine's date parser and the
    configured secret.  The first argument of an oracle is the number of
    requests made before the call, so answers may change over time. *)
Record Env := {
  people_api : nat -> list string -> Result (option (list Person));
  bills_api : nat -> string -> nat -> Result (option (list Bill));
  jurisdiction_api : nat -> string -> Result Jurisdiction;
  store_fault : nat -> Event -> option Err;
  formula_language : string -> AirRecord -> bool;
  date_parse : string -> Result (option string);
  webhook_secret : option string
}.

Definition M (A : Type) : Type := World -> Result A * World.

Definition ret {A} (a : A) : M A := fun w => (Ok a, w).

Definition throw {A} (e : Err) : M A := fun w => (Throw e, w).

Definition bind {A B} (m : M A) (k : A -> M B) : M B :=
  fun w =>
    match m w with
    | (Ok a, w') => k a w'
    | (Throw e, w') => (Throw e, w')
    end.

(** [try { m } catch (e) { h e }]: what [m] did to the world stays done. *)
Definition try_catch {A} (m : M A) (h : Err -> M A) : M A :=
  fun w =>
    match m w with
    | (Ok a, w') => (Ok a, w')
    | (Throw e, w') => h e w'
    end.

Notation "x <- m ;; k" := (bind m (fun x => k))
  (at level 100, m at next level, right associativity).

Definition clock (w : World) : nat := List.length (trace w).

Definition log (ev : Event) (w : World) : World :=
  {| store := store w; trace := ev :: trace w |}.

(** *** The upstream API: [fetchFromPluralAPI] *)

Definition fetchPeople (env : Env) (ids : list string) : M (option (list Person)) :=
  fun w => (people_api env (clock w) ids, log (EvPeople ids) w).

Definition fetchBills (env : Env) (jurisdiction : string) (per_page : nat)
    : M (option (list Bill)) :=
  fun w => (bills_api env (clock w) jurisdiction per_page,
            log (EvBills jurisdiction per_page) w).

Definition fetchJurisdiction (env : Env) (state : string) : M Jurisdiction :=
  fun w => (jurisdiction_api env (clock w) state, log (EvJurisdiction state) w).

(** *** The record store as the function consumes it *)

Definition table (st : Store) (t : string) : list AirRecord :=
  default [] (tables st !! t).

(** The record's cell [field] equals [value]: an empty cell compares equal
    to the empty text. *)
Definition formula_holds (field value : string) (r : AirRecord) : bool :=
  match rec_fields r !! field with
  | Some (FStr s) => String.eqb s value
  | Some FNull => String.eqb EmptyString value
  | Some (FLinks _) => false
  | Some (FFun _) => false
  | None => String.eqb EmptyString value
  end.

(** [`{${searchField}} = '${searchValue}'`]: the filter formula the
    reconciler sends, the value pasted as it is between the quotes. *)
Definition formula_text (field value : string) : string :=
  "{" ++ field ++ "} = '" ++ value ++ "'".

(** The pasted value neither closes the quoted text nor escapes in it: it
    holds no apostrophe and no backslash. *)
Definition plain_value (value : string) : bool :=
  negb (Js.includes value "'") && negb (Js.includes value "\").

(** What the store filters by when it receives the formula.  With a plain
    value the text is the comparison of the cell with the value.  With any
    other value the text is another formula, or none: what the store makes
    of it is the environment's [formula_language] (and its refusal, if it
    refuses, a [store_fault] of the select). *)
Definition formula_filter (env : Env) (field value : string) : AirRecord -> bool :=
  if plain_value value then formula_holds field value
  else formula_language env (formula_text field value).

(** The client sends the cells as JSON, which drops function values. *)
Definition serialise (recordData : gmap string fieldval) : gmap string fieldval :=
  omap (fun v => match v with FFun _ => None | _ => Some v end) recordData.

Definition set_table (t : string) (rows : list AirRecord) (st : Store) : Store :=
  {| tables := <[t := rows]> (tables st); next_id := next_id st |}.

(** [base(t).select({filterByFormula, maxRecords: 1}).firstPage()] *)
Definition select (env : Env) (t field value : string) : M (list AirRecord) :=
  fun w =>
    let ev := EvSelect t field value in
    match store_fault env (clock w) ev with
    | Some e => (Throw e, log ev w)
    | None =>
        (Ok (firstn 1 (List.filter (formula_filter env field value) (table (store w) t))),
         log ev w)
    end.

Definition patch (id : nat) (recordData : gmap string fieldval) (r : AirRecord)
    : AirRecord :=
  if Nat.eqb (rec_id r) id
  then {| rec_id := rec_id r; rec_fields := serialise recordData ∪ rec_fields r |}
  else r.

(** [base(t).update(id, recordData)]: a partial update of one record. *)
Definition update (env : Env) (t : string) (id : nat)
    (recordData : gmap string fieldval) : M unit :=
  fun w =>
    let ev := EvUpdate t id in
    match store_fault env (clock w) ev with
    | Some e => (Throw e, log ev w)
    | None =>
        let rows := table (store w) t in
        if existsb (fun r => Nat.eqb (rec_id r) id) rows
        then (Ok tt, {| store := set_table t (List.map (patch id recordData) rows) (store w);
                        trace := ev :: trace w |})
        else (Throw (Error "NOT_FOUND"), log ev w)
    end.

(** [base(t).create(recordData)] *)
Definition create (env : Env) (t : string) (recordData : gmap string fieldval)
    : M AirRecord :=
  fun w =>
    let ev := EvCreate t in
    match store_fault env (clock w) ev with
    | Some e => (Throw e, log ev w)
    | None =>
        let st := store w in
        let r := {| rec_id := next_id st; rec_fields := serialise recordData |} in
        (Ok r, {| store := {| tables := <[t := table st t ++ [r]]> (tables st);
                              next_id := S (next_id st) |};
                  trace := ev :: trace w |})
    end.

(* ===================================================================== *)
(** ** Upsert reconciler: [findOrCreateRecord]                           *)
(* ===================================================================== *)

Definition findOrCreateRecord (env : Env) (tableName searchField searchValue : string)
    (recordData : gmap string fieldval) : M nat :=
  try_catch
    (records <- select env tableName searchField searchValue ;;
     match records with
     | r :: _ =>
         _ <- update env tableName (rec_id r) recordData ;;
         ret (rec_id r)
     | [] =>
         newRecord <- create env tableName recordData ;;
         ret (rec_id newRecord)
     end)
    (fun error => throw error).

(* ===================================================================== *)
(** ** Entity sync units                                                 *)
(* ===================================================================== *)

(** [if (v) recordData[key] = v] *)
Definition set_if_truthy (key : string) (v : option string)
    (recordData : gmap string fieldval) : gmap string fieldval :=
  if Js.truthy v then <[key := FStr (Js.or_empty v)]> recordData else recordData.

(** A loop [for (x of xs) { try { ids.push(await f(x)) } catch { log } }]. *)
Fixpoint forEach_collect {A} (f : A -> M nat) (xs : list A) (ids : list nat)
    : M (list nat) :=
  match xs with
  | [] => ret ids
  | x :: xs' =>
      ids' <- try_catch (id <- f x ;; ret (ids ++ [id])) (fun _ => ret ids) ;;
      forEach_collect f xs' ids'
  end.

(** *** Legislators: [extractOfficeInfo], [syncLegislators] *)

(** [x?.y] on an optional object. *)
Definition opt_attr {A B} (o : option A) (attr : A -> option B) : option B :=
  match o with
  | Some a => attr a
  | None => None
  end.

Record OfficeInfo := {
  info_phone : option string;
  info_address : option string;
  info_links : list string
}.

(** [person.offices[0]] when [offices] is a non-empty array. *)
Definition first_office (person : Person) : option Office :=
  match person_offices person with
  | Some (office :: _) => Some office
  | _ => None
  end.

Definition extractOfficeInfo (person : Person) : OfficeInfo :=
  let office := first_office person in
  {| info_phone :=
       match office with
       | Some o => if Js.truthy (office_voice o) then office_voice o else None
       | None => None
       end;
     info_address :=
       match office with
       | Some o => if Js.truthy (office_address o) then office_address o else None
       | None => None
       end;
     info_links :=
       match person_links person with
       | Some links =>
           List.map Js.or_empty
             (List.filter Js.truthy (List.map link_url links))
       | None => []
       end |}.

Definition district_truthy (d : District) : bool :=
  match d with
  | DistrictNum n => negb (Z.eqb n 0)
  | DistrictText s => Js.truthy (Some s)
  end.

Definition district_string (d : District) : string :=
  match d with
  | DistrictNum n => Js.string_of_Z n
  | DistrictText s => s
  end.

(** The [district] local: [''] unless [current_role?.district] is truthy. *)
Definition person_district (p : Person) : string :=
  match opt_attr (person_current_role p) role_district with
  | Some d => if district_truthy d then district_string d else EmptyString
  | None => EmptyString
  end.

(** The field set of one legislator, in the order the source fills it. *)
Definition legislatorRecordData (fullPersonData : Person) : gmap string fieldval :=
  let officeInfo := extractOfficeInfo fullPersonData in
  let recordData : gmap string fieldval :=
    <["OpenStates ID" := FStr (Js.or_empty (person_id fullPersonData))]>
      (<["Full Name" := FStr (Js.or_empty (person_name fullPersonData))]> ∅) in
  let recordData := set_if_truthy "First Name" (person_given_name fullPersonData) recordData in
  let recordData := set_if_truthy "Last Name" (person_family_name fullPersonData) recordData in
  let recordData := set_if_truthy "District" (Some (person_district fullPersonData)) recordData in
  let recordData := set_if_truthy "Photo URL" (person_image fullPersonData) recordData in
  let recordData := set_if_truthy "Biography" (person_biography fullPersonData) recordData in
  let recordData := set_if_truthy "Contact Email" (person_email fullPersonData) recordData in
  let recordData := set_if_truthy "Party" (person_party fullPersonData) recordData in
  let recordData :=
    set_if_truthy "Chamber"
      (opt_attr (person_current_role fullPersonData) role_org_classification) recordData in
  let recordData :=
    set_if_truthy "State" (opt_attr (person_jurisdiction fullPersonData) pj_name) recordData in
  let recordData :=
    set_if_truthy "Title" (opt_attr (person_current_role fullPersonData) role_title) recordData in
  let recordData := set_if_truthy "Phone" (info_phone officeInfo) recordData in
  let recordData := set_if_truthy "Office Address" (info_address officeInfo) recordData in
  match info_links officeInfo with
  | [] => recordData
  | links => <["Links" := FStr (Js.join (String "010" EmptyString) links)]> recordData
  end.

(** The field set of the fallback path, from the stub alone. *)
Definition stubRecordData (person : Person) : gmap string fieldval :=
  let recordData : gmap string fieldval :=
    <["OpenStates ID" := FStr (Js.or_empty (person_id person))]>
      (<["Full Name" := FStr (Js.or_empty (person_name person))]> ∅) in
  let recordData := set_if_truthy "First Name" (person_given_name person) recordData in
  set_if_truthy "Last Name" (person_family_name person) recordData.

(** [[...new Set(xs)]]: first occurrences, in order. *)
Fixpoint dedupe_from (seen : list string) (xs : list string) : list string :=
  match xs with
  | [] => []
  | x :: xs' =>
      if existsb (String.eqb x) seen then dedupe_from seen xs'
      else x :: dedupe_from (x :: seen) xs'
  end.

(** [[...new Set(people.map(p => p.id).filter(Boolean))]] *)
Definition personIds (people : list Person) : list string :=
  dedupe_from []
    (List.map Js.or_empty (List.filter Js.truthy (List.map person_id people))).

Definition chunkSize : nat := 10.

(** [peopleResponse.results.forEach(person => peopleMap.set(person.id, person))] *)
Definition add_people (results : list Person) (peopleMap : gmap (option string) Person)
    : gmap (option string) Person :=
  fold_left (fun m person => <[person_id person := person]> m) results peopleMap.

(** One pass of the chunk loop: the request and what it leaves in the map. *)
Definition fetchChunk (env : Env) (chunk : list string)
    (peopleMap : gmap (option string) Person) : M (gmap (option string) Person) :=
  try_catch
    (peopleResponse <- fetchPeople env chunk ;;
     ret (match peopleResponse with
          | Some results => add_people results peopleMap
          | None => peopleMap
          end))
    (fun _ => ret peopleMap).

(** [for (let i = 0; i < personIds.length; i += chunkSize)], with [fuel]
    bounding the number of passes. *)
Fixpoint fetchChunks (env : Env) (fuel : nat) (ids : list string) (i : nat)
    (peopleMap : gmap (option string) Person) : M (gmap (option string) Person) :=
  match fuel with
  | O => ret peopleMap
  | S fuel' =>
      if (i <? List.length ids)%nat then
        let chunk := firstn chunkSize (skipn i ids) in
        peopleMap' <- fetchChunk env chunk peopleMap ;;
        fetchChunks env fuel' ids (i + chunkSize) peopleMap'
      else ret peopleMap
  end.

(** [peopleMap.get(person.id) || person] *)
Definition fullPersonData (peopleMap : gmap (option string) Person) (person : Person)
    : Person :=
  default person (peopleMap !! person_id person).

Definition syncPerson (env : Env) (peopleMap : gmap (option string) Person)
    (person : Person) : M nat :=
  let full := fullPersonData peopleMap person in
  findOrCreateRecord env "Legislators" "OpenStates ID"
    (Js.template (person_id full)) (legislatorRecordData full).

Definition syncStub (env : Env) (person : Person) : M nat :=
  findOrCreateRecord env "Legislators" "OpenStates ID"
    (Js.template (person_id person)) (stubRecordData person).

(** [syncLegislators(people)].  Every request of the main path sits in a
    [try] of its own, so the outer handler is never entered with
    identifiers already collected. *)
Definition syncLegislators (env : Env) (people : list Person) : M (list nat) :=
  match people with
  | [] => ret []
  | _ =>
      try_catch
        (let ids := personIds people in
         match ids with
         | [] => ret []
         | _ =>
             peopleMap <- fetchChunks env (List.length ids) ids 0 ∅ ;;
             forEach_collect (syncPerson env peopleMap) people []
         end)
        (fun _ => forEach_collect (syncStub env) people [])
  end.

(** *** Jurisdictions: [syncState] *)

Definition is_char_ci (x : ascii) (c : ascii) : bool :=
  Ascii.eqb (Js.lower_char c) x.

Definition is_char (x : ascii) (c : ascii) : bool := Ascii.eqb c x.

Definition is_letter (c : ascii) : bool := Js.is_lower c || Js.is_upper c.

(** [/\/state:([a-z]{2})\//i] *)
Definition state_pattern : list (ascii -> bool) :=
  [is_char "/"; is_char_ci "s"; is_char_ci "t"; is_char_ci "a"; is_char_ci "t";
   is_char_ci "e"; is_char ":"; is_letter; is_letter; is_char "/"].

(** The [abbr] local: the capture group in upper case, or [null]. *)
Definition state_abbr (jurisdiction : Jurisdiction) : option string :=
  if Js.truthy (jur_id jurisdiction) then
    match Js.search_classes state_pattern (Js.or_empty (jur_id jurisdiction)) with
    | Some m => Some (Js.toUpperCase (substring 7 2 m))
    | None => None
    end
  else None.

Definition stateRecordData (jurisdiction : Jurisdiction) : gmap string fieldval :=
  let recordData : gmap string fieldval :=
    <["State Name" := FStr (Js.or_empty (jur_name jurisdiction))]> ∅ in
  let recordData := set_if_truthy "Abbreviation" (state_abbr jurisdiction) recordData in
  let recordData :=
    set_if_truthy "Legislature Type" (jur_legislature_name jurisdiction) recordData in
  match jur_legislative_sessions jurisdiction with
  | session :: _ => <["Session Info" := FStr session]> recordData
  | [] => recordData
  end.

(** [abbr || jurisdiction.name], as the formula prints it. *)
Definition state_key (jurisdiction : Jurisdiction) : string :=
  if Js.truthy (state_abbr jurisdiction)
  then Js.or_empty (state_abbr jurisdiction)
  else Js.template (jur_name jurisdiction).

(** [syncState(jurisdiction)]; [None] is [null]. *)
Definition syncState (env : Env) (jurisdiction : Jurisdiction) : M (option nat) :=
  try_catch
    (recordId <- findOrCreateRecord env "States" "Abbreviation"
                   (state_key jurisdiction) (stateRecordData jurisdiction) ;;
     ret (Some recordId))
    (fun _ => ret None).

(** *** Subjects: [syncSubjects] *)

(** A value printed inside a template literal. *)
Definition fieldval_template (v : fieldval) : string :=
  match v with
  | FStr s => s
  | FLinks ids => Js.join "," (List.map Js.string_of_nat ids)
  | FNull => "null"
  | FFun name =>
      if String.eqb name "__proto__" then "[object Object]"
      else "function " ++ (if String.eqb name "constructor" then "Object" else name)
           ++ "() { [native code] }"
  end.

Definition syncSubject (env : Env) (subject : string) : M nat :=
  let formattedName := formatSubjectName subject in
  findOrCreateRecord env "Subjects" "Subject Name" (fieldval_template formattedName)
    (<["Category" := FStr (categorizeSubject subject)]>
       (<["Subject Name" := formattedName]> ∅)).

Definition syncSubjects (env : Env) (subjects : list string) : M (list nat) :=
  forEach_collect (syncSubject env) subjects [].

(** *** Bills: [syncBills] *)

(** [recordData[key] = normalizeDate(date)] *)
Definition date_cell (v : option string) : fieldval :=
  match v with
  | Some d => FStr d
  | None => FNull
  end.

(** [if (ids.length > 0) { valid = ids.filter(id => id != null);
    if (valid.length > 0) recordData[key] = valid.slice(0, 10) }].
    A record identifier is never [null], so the filter keeps everything. *)
Definition set_links (key : string) (ids : list nat)
    (recordData : gmap string fieldval) : gmap string fieldval :=
  if (0 <? List.length ids)%nat then
    let valid := List.filter (fun _ => true) ids in
    if (0 <? List.length valid)%nat
    then <[key := FLinks (firstn 10 valid)]> recordData
    else recordData
  else recordData.

(** The field set of one bill, in the order the source fills it. *)
Definition billRecordData (env : Env) (state : string) (bill : Bill)
    (sponsorIds subjectIds : list nat) : gmap string fieldval :=
  let recordData : gmap string fieldval :=
    <["Latest Action" := FStr (Js.or_empty (bill_latest_action_description bill))]>
    (<["Source URL" := FStr (Js.or_empty (bill_openstates_url bill))]>
    (<["OpenStates ID" := FStr (Js.or_empty (bill_id bill))]>
    (<["Summary" := FStr (Js.or_empty (opt_attr (head (bill_abstracts bill)) abstract_text))]>
    (<["Title" := FStr (Js.or_empty (bill_title bill))]>
    (<["Bill ID" := FStr (Js.or_empty (bill_identifier bill))]> ∅))))) in
  let recordData :=
    if Js.truthy (bill_identifier bill)
    then <["Slug" := FStr (Js.strip_spaces (Js.or_empty (bill_identifier bill)))]> recordData
    else recordData in
  let recordData := set_if_truthy "Classification" (head (bill_classification bill)) recordData in
  let recordData := <["State" := FStr (Js.toUpperCase state)]> recordData in
  let recordData :=
    set_if_truthy "Current Status"
      (Some (determineStatus (bill_latest_action_description bill))) recordData in
  let recordData :=
    if Js.truthy (bill_latest_action_date bill)
    then <["Latest Action Date" :=
             date_cell (normalizeDate (date_parse env) (bill_latest_action_date bill))]> recordData
    else recordData in
  let recordData :=
    if Js.truthy (bill_first_action_date bill)
    then <["Introduction Date" :=
             date_cell (normalizeDate (date_parse env) (bill_first_action_date bill))]> recordData
    else recordData in
  let recordData :=
    set_if_truthy "Chamber"
      (opt_attr (bill_from_organization bill) org_classification) recordData in
  let recordData := set_links "Sponsors" sponsorIds recordData in
  set_links "Subject Areas" subjectIds recordData.

(** [bill.sponsorships.map(s => s.person).filter(Boolean)] *)
Definition sponsors (bill : Bill) : list Person :=
  omap sponsorship_person (bill_sponsorships bill).

(** The body of the per-bill [try]. *)
Definition syncBill (env : Env) (state : string) (bill : Bill) : M unit :=
  sponsorIds <- (match bill_sponsorships bill with
                 | [] => ret []
                 | _ => syncLegislators env (sponsors bill)
                 end) ;;
  subjectIds <- (match bill_subject bill with
                 | [] => ret []
                 | _ => syncSubjects env (bill_subject bill)
                 end) ;;
  _ <- findOrCreateRecord env "Bills" "OpenStates ID" (Js.template (bill_id bill))
         (billRecordData env state bill sponsorIds subjectIds) ;;
  ret tt.

(** [for (const bill of bills) { try { ...; syncedCount++ } catch { log } }] *)
Fixpoint syncBills_loop (env : Env) (state : string) (bills : list Bill)
    (syncedCount : nat) : M nat :=
  match bills with
  | [] => ret syncedCount
  | bill :: bills' =>
      syncedCount' <- try_catch (_ <- syncBill env state bill ;; ret (S syncedCount))
                                (fun _ => ret syncedCount) ;;
      syncBills_loop env state bills' syncedCount'
  end.

Record SyncResult := {
  sr_success : bool;
  sr_synced : nat;
  sr_total : nat
}.

(** [syncBills(state, limit)] *)
Definition syncBills (env : Env) (state : string) (limit : nat) : M SyncResult :=
  try_catch
    (billsResponse <- fetchBills env (Js.toLowerCase state) limit ;;
     let bills := default [] billsResponse in
     syncedCount <- syncBills_loop env state bills 0 ;;
     ret {| sr_success := true; sr_synced := syncedCount; sr_total := List.length bills |})
    (fun error => throw error).

(* ===================================================================== *)
(** ** Batch orchestrator: the HTTP [handler]                            *)
(* ===================================================================== *)

Record Body := {
  body_state : option string;
  body_states : option (list string);     (* [Some] when an array was sent *)
  body_limit : option nat
}.

Record HttpRequest := {
  req_method : string;
  req_authorization : option string;
  req_body : option Body
}.

Inductive StateResult :=
| StateSynced (state : string) (synced total : nat)   (* success: true *)
| StateFailed (state : string) (error : string).      (* success: false *)

Inductive Json :=
| JError (error : string)
| JSummary (success : bool) (message : string)
           (totalStates totalSynced totalBills : nat) (results : list StateResult)
| JFailure (success : bool) (error : string).

Record HttpResponse := {
  resp_status : nat;
  resp_json : Json
}.

(** [limit || 50] *)
Definition limit_or_50 (limit : option nat) : nat :=
  match limit with
  | Some (S n) => S n
  | _ => 50
  end.

(** The body of the per-state [try]. *)
Definition syncOneState (env : Env) (currentState : string) (limit : option nat)
    : M SyncResult :=
  jurisdictionData <- fetchJurisdiction env currentState ;;
  _ <- syncState env jurisdictionData ;;
  syncBills env currentState (limit_or_50 limit).

Record Totals := {
  t_results : list StateResult;
  t_totalSynced : nat;
  t_totalBills : nat
}.

(** [for (const currentState of statesToSync) { try { ... } catch { ... } }] *)
Fixpoint handler_loop (env : Env) (statesToSync : list string) (limit : option nat)
    (acc : Totals) : M Totals :=
  match statesToSync with
  | [] => ret acc
  | currentState :: rest =>
      acc' <- try_catch
                (result <- syncOneState env currentState limit ;;
                 ret {| t_results := t_results acc ++
                          [StateSynced currentState (sr_synced result) (sr_total result)];
                        t_totalSynced := t_totalSynced acc + sr_synced result;
                        t_totalBills := t_totalBills acc + sr_total result |})
                (fun stateError =>
                 ret {| t_results := t_results acc ++
                          [StateFailed currentState (err_message stateError)];
                        t_totalSynced := t_totalSynced acc;
                        t_totalBills := t_totalBills acc |}) ;;
      handler_loop env rest limit acc'
  end.

Definition summary_message (totalSynced totalBills states : nat) : string :=
  "Synced " ++ Js.string_of_nat totalSynced ++ " of " ++ Js.string_of_nat totalBills
  ++ " bills across " ++ Js.string_of_nat states ++ " state(s)".

(** [states && Array.isArray(states)] gives [states], else a truthy
    [state] gives [[state]]; otherwise the parameter is missing. *)
Definition states_to_sync (body : Body) : option (list string) :=
  match body_states body with
  | Some states => Some states
  | None => if Js.truthy (body_state body)
            then Some [Js.or_empty (body_state body)] else None
  end.

(** The outer [try] of the handler; destructuring a missing body throws. *)
Definition handler_try (env : Env) (req : HttpRequest) : M HttpResponse :=
  match req_body req with
  | None => throw (Error "Cannot destructure property 'state' of 'req.body' as it is undefined.")
  | Some body =>
      match states_to_sync body with
      | None => ret {| resp_status := 400;
                       resp_json := JError "State or states parameter is required" |}
      | Some statesToSync =>
          totals <- handler_loop env statesToSync (body_limit body)
                      {| t_results := []; t_totalSynced := 0; t_totalBills := 0 |} ;;
          ret {| resp_status := 200;
                 resp_json :=
                   JSummary true
                     (summary_message (t_totalSynced totals) (t_totalBills totals)
                        (List.length statesToSync))
                     (List.length statesToSync) (t_totalSynced totals)
                     (t_totalBills totals) (t_results totals) |}
      end
  end.

(** [authHeader === `Bearer ${process.env.WEBHOOK_SECRET}`] *)
Definition authorized (env : Env) (req : HttpRequest) : bool :=
  match req_authorization req with
  | Some authHeader =>
      String.eqb authHeader ("Bearer " ++ Js.template (webhook_secret env))
  | None => false
  end.

(** [handler(req, res)]: the response sent and the world left behind. *)
Definition handler (env : Env) (req : HttpRequest) (w : World) : HttpResponse * World :=
  if negb (String.eqb (req_method req) "POST")
  then ({| resp_status := 405; resp_json := JError "Method not allowed" |}, w)
  else if negb (authorized env req)
  then ({| resp_status := 401; resp_json := JError "Unauthorized" |}, w)
  else
    match handler_try env req w with
    | (Ok response, w') => (response, w')
    | (Throw error, w') =>
        ({| resp_status := 500; resp_json := JFailure false (err_message error) |}, w')
    end.

(* ===================================================================== *)
(** ** Vocabulary of the statements                                      *)
(* ===================================================================== *)

(** The store never fails. *)
Definition no_store_fault (env : Env) : Prop :=
  forall n ev, store_fault env n ev = None.

(** Some record of [rows] has its cell [field] equal to [key]. *)
Definition holds_key (field key : string) (rows : list AirRecord) : bool :=
  existsb (formula_holds field key) rows.

(** The bill carries an external identifier, and a plain one. *)
Definition keyed_bill (bill : Bill) : bool :=
  Js.truthy (bill_id bill) && plain_value (Js.or_empty (bill_id bill)).

(** Identifiers of a table are distinct and below the next free one. *)
Definition table_wf (st : Store) (t : string) : Prop :=
  NoDup (List.map rec_id (table st t)) /\
  Forall (fun r => rec_id r < next_id st) (table st t).

(** The record a [create] adds. *)
Definition created (st : Store) (recordData : gmap string fieldval) : AirRecord :=
  {| rec_id := next_id st; rec_fields := serialise recordData |}.

(** The three ways a reconciliation can end: it throws and leaves the store
    alone, it updates the first matching record, or it finds no match and
    appends one record. *)
Inductive focr_outcome (env : Env) (t field value : string)
    (recordData : gmap string fieldval) (w : World) : Result nat -> World -> Prop :=
| focr_throws e w' :
    store w' = store w ->
    focr_outcome env t field value recordData w (Throw e) w'
| focr_updates r rest w' :
    List.filter (formula_filter env field value) (table (store w) t) = r :: rest ->
    store w' = set_table t (List.map (patch (rec_id r) recordData) (table (store w) t))
                 (store w) ->
    focr_outcome env t field value recordData w (Ok (rec_id r)) w'
| focr_creates w' :
    List.filter (formula_filter env field value) (table (store w) t) = [] ->
    store w' = {| tables := <[t := table (store w) t ++ [created (store w) recordData]]>
                              (tables (store w));
                  next_id := S (next_id (store w)) |} ->
    focr_outcome env t field value recordData w (Ok (next_id (store w))) w'.

(** The people requests made so far, oldest first. *)
Definition people_calls (w : World) : list (list string) :=
  omap (fun ev => match ev with EvPeople ids => Some ids | _ => None end)
       (rev (trace w)).

(** What the answer to one people request leaves in the map. *)
Definition absorb (answer : Result (option (list Person)))
    (peopleMap : gmap (option string) Person) : gmap (option string) Person :=
  match answer with
  | Ok (Some results) => add_people results peopleMap
  | _ => peopleMap
  end.

(** The result map of a batch fetch, in the spec's words: the details the
    requests that succeeded returned, by identifier (the last one returned
    for an identifier, should it come more than once); a request that
    failed, or answered without results, adds nothing. *)
Definition answer_results (answer : Result (option (list Person))) : list Person :=
  match answer with
  | Ok (Some results) => results
  | _ => []
  end.

Definition fetched (answers : list (Result (option (list Person)))) : list Person :=
  flat_map answer_results answers.

Definition fetched_details (answers : list (Result (option (list Person))))
    (id : option string) : option Person :=
  List.find (fun person => bool_decide (person_id person = id)) (rev (fetched answers)).

(** The data a stub is processed from: its fetched details, or, when its
    identifier is absent from the result map, the stub itself. *)
Definition details_or_stub (answers : list (Result (option (list Person))))
    (stub : Person) : Person :=
  default stub (fetched_details answers (person_id stub)).

Definition result_state (r : StateResult) : string :=
  match r with
  | StateSynced state _ _ => state
  | StateFailed state _ => state
  end.

(** The table [t] is left as it was and no identifier is given back. *)
Definition frames (t : string) (w w' : World) : Prop :=
  table (store w') t = table (store w) t /\
  next_id (store w) <= next_id (store w').

(** A computation that relates every world to the one it leaves. *)
Definition preserves {A} (R : World -> World -> Prop) (m : M A) : Prop :=
  forall w, R w (snd (m w)).

(** A computation that never throws. *)
Definition total {A} (m : M A) : Prop :=
  forall w, exists a, fst (m w) = Ok a.

Ltac run :=
  unfold bind, try_catch, ret, throw in *; cbn beta iota in *.

(* ===================================================================== *)
(** ** Sample documents and environments                                 *)
(* ===================================================================== *)

Definition empty_world : World :=
  {| store := {| tables := ∅; next_id := 0 |}; trace := [] |}.

(** A sponsorship stub: an identifier and a name, nothing else. *)
Definition stub (id : option string) (name : option string) : Person :=
  {| person_id := id; person_name := name;
     person_given_name := None; person_family_name := None;
     person_image := None; person_biography := None; person_email := None;
     person_party := None; person_current_role := None;
     person_jurisdiction := None; person_offices := None; person_links := None |}.

Definition numbered_stub (n : nat) : Person :=
  stub (Some ("ocd-person/" ++ Js.string_of_nat n)%string)
       (Some ("Member " ++ Js.string_of_nat n)%string).

Definition sample_bill (id identifier : string) (people : list Person)
    (subjects : list string) : Bill :=
  {| bill_id := Some id; bill_identifier := Some identifier;
     bill_title := Some "An act"; bill_abstracts := [];
     bill_openstates_url := None;
     bill_latest_action_description := Some "Referred to Committee";
     bill_classification := ["bill"];
     bill_latest_action_date := Some "2025-02-19T05:00:00+00:00";
     bill_first_action_date := Some "2025-01-06";
     bill_from_organization := None;
     bill_sponsorships := List.map (fun p => {| sponsorship_person := Some p |}) people;
     bill_subject := subjects |}.

Definition sample_bills : list Bill :=
  [ sample_bill "ocd-bill/1" "AB 1" [numbered_stub 1] ["PUBLIC_SAFETY"; "Lawenforcement"];
    sample_bill "ocd-bill/2" "AB 2" [numbered_stub 1; numbered_stub 2] ["Education"] ].

(** A bill document without its external identifier. *)
Definition unkeyed_bill : Bill :=
  {| bill_id := None; bill_identifier := Some "AB 3";
     bill_title := Some "An act"; bill_abstracts := [];
     bill_openstates_url := None;
     bill_latest_action_description := Some "Referred to Committee";
     bill_classification := ["bill"];
     bill_latest_action_date := None;
     bill_first_action_date := None;
     bill_from_organization := None;
     bill_sponsorships := [];
     bill_subject := [] |}.

Definition state_jurisdiction (state : string) : Jurisdiction :=
  {| jur_id := Some ("ocd-jurisdiction/country:us/state:" ++ state ++ "/government")%string;
     jur_name := Some ("State of " ++ state)%string;
     jur_legislature_name := Some "Legislature";
     jur_legislative_sessions := [] |}.

(** The District of Columbia, one of the jurisdictions the scheduled sync
    walks through; its identifier has no [state:] segment. *)
Definition district_of_columbia : Jurisdiction :=
  {| jur_id := Some "ocd-jurisdiction/country:us/district:dc/government";
     jur_name := Some "District of Columbia";
     jur_legislature_name := Some "Council of the District of Columbia";
     jur_legislative_sessions := [] |}.

(** Nothing fails; the people endpoint knows nobody; the bills endpoint
    answers [bills] for every jurisdiction. *)
Definition calm_env (bills : list Bill) : Env :=
  {| people_api := fun _ _ => Ok (Some []);
     bills_api := fun _ _ _ => Ok (Some bills);
     jurisdiction_api := fun _ state => Ok (state_jurisdiction state);
     store_fault := fun _ _ => None;
     formula_language := fun _ _ => false;
     date_parse := fun _ => Ok None;
     webhook_secret := Some "s3cret" |}.

(** Twenty-five sponsors with distinct identifiers. *)
Definition people25 : list Person := List.map numbered_stub (seq 0 25).

(** The full document the people endpoint holds for an identifier. *)
Definition full_person (id : string) : Person :=
  {| person_id := Some id; person_name := Some "Full Name";
     person_given_name := Some "Full"; person_family_name := Some "Name";
     person_image := None; person_biography := None; person_email := None;
     person_party := Some "Independent";
     person_current_role :=
       Some {| role_district := Some (DistrictNum 7);
               role_org_classification := Some "upper";
               role_title := Some "Senator" |};
     person_jurisdiction := Some {| pj_name := Some "California" |};
     person_offices := None; person_links := None |}.

(** As [calm_env], but the people endpoint answers with full documents and
    fails on every request that asks for the eleventh sponsor. *)
Definition flaky_env : Env :=
  {| people_api := fun _ ids =>
       if existsb (String.eqb "ocd-person/10") ids
       then Throw (Error "Plural API error: 500 Internal Server Error - ")
       else Ok (Some (List.map full_person ids));
     bills_api := fun _ _ _ => Ok (Some []);
     jurisdiction_api := fun _ state => Ok (state_jurisdiction state);
     store_fault := fun _ _ => None;
     formula_language := fun _ _ => false;
     date_parse := fun _ => Ok None;
     webhook_secret := Some "s3cret" |}.

(** A bill with fifteen sponsors. *)
Definition bill15 : Bill :=
  sample_bill "ocd-bill/15" "SB 15" (List.map numbered_stub (seq 0 15)) [].

(** As [calm_env], but every operation on the States table is refused. *)
Definition states_down_env (bills : list Bill) : Env :=
  {| people_api := fun _ _ => Ok (Some []);
     bills_api := fun _ _ _ => Ok (Some bills);
     jurisdiction_api := fun _ state => Ok (state_jurisdiction state);
     store_fault := fun _ ev =>
       match ev with
       | EvSelect t _ _ | EvUpdate t _ | EvCreate t =>
           if String.eqb t "States" then Some (Error "NOT_AUTHORIZED") else None
       | _ => None
       end;
     formula_language := fun _ _ => false;
     date_parse := fun _ => Ok None;
     webhook_secret := Some "s3cret" |}.

Definition post (body : option Body) : HttpRequest :=
  {| req_method := "POST"; req_authorization := Some "Bearer s3cret"; req_body := body |}.

Definition state_body (state : string) : Body :=
  {| body_state := Some state; body_states := None; body_limit := None |}.

(* ===================================================================== *)
(** ** The query string of an upstream request: [fetchFromPluralAPI]     *)
(* ===================================================================== *)

(** [s.trim()] on the ASCII range. *)
Fixpoint trim_start (s : string) : string :=
  match s with
  | EmptyString => EmptyString
  | String c s' => if Js.is_space c then trim_start s' else s
  end.

Fixpoint trim_end (s : string) : string :=
  match s with
  | EmptyString => EmptyString
  | String c s' =>
      match trim_end s' with
      | EmptyString => if Js.is_space c then EmptyString else String c EmptyString
      | t => String c t
      end
  end.

Definition trim (s : string) : string := trim_end (trim_start s).

(** The value of one entry of the [params] object. *)
Inductive ParamValue :=
| PArr (items : list string)
| PStr (s : string)
| PNum (n : nat).

(** What one key of [params] appends to [url.searchParams]. *)
Definition param_pairs (key : string) (value : ParamValue) : list (string * string) :=
  match value with
  | PArr items => List.map (fun item => (key, item)) items
  | PStr s =>
      if String.eqb key "include"
      then List.map (fun item => (key, trim item)) (Js.split "," s)
      else [(key, s)]
  | PNum n => [(key, Js.string_of_nat n)]
  end.

(** [Object.keys(params).forEach(...)]: the pairs of the query string, in
    order. *)
Definition query_pairs (params : list (string * ParamValue)) : list (string * string) :=
  flat_map (fun kv => param_pairs (fst kv) (snd kv)) params.

(** The parameter objects of the two requests that carry one. *)
Definition people_params (chunk : list string) : list (string * ParamValue) :=
  [("id", PArr chunk)].

Definition bills_params (jurisdiction : string) (limit : nat)
    : list (string * ParamValue) :=
  [("jurisdiction", PStr jurisdiction); ("per_page", PNum limit);
   ("include", PStr "sponsorships,abstracts")].

(* ===================================================================== *)
(** ** The scheduled sync: [api/scheduled-sync.js]                       *)
(* ===================================================================== *)

Definition cron_states : list string :=
  [ "al"; "ak"; "az"; "ar"; "ca"; "co"; "ct"; "de"; "fl"; "ga";
    "hi"; "id"; "il"; "in"; "ia"; "ks"; "ky"; "la"; "me"; "md";
    "ma"; "mi"; "mn"; "ms"; "mo"; "mt"; "ne"; "nv"; "nh"; "nj";
    "nm"; "ny"; "nc"; "nd"; "oh"; "ok"; "or"; "pa"; "ri"; "sc";
    "sd"; "tn"; "tx"; "ut"; "vt"; "va"; "wa"; "wv"; "wi"; "wy";
    "dc"; "pr" ].

Definition batchSize : nat := 5.

(** How the request to the manual endpoint ends. *)
Inductive EndpointAnswer :=
| AnswerOk                             (* [response.ok] *)
| AnswerNotOk (text : Result string)   (* another status; what [response.text()] gives *)
| AnswerThrows (e : Err).              (* [fetch] rejects *)

(** What one state's callback pushes. *)
Inductive Settled :=
| SettledOk (state : string)
| SettledFailed (state error : string).

Inductive CronEvent :=
| CronFetch (state : string) (limit : nat)
| CronSleep (ms : nat).

(** The endpoint's answers, the order in which the callbacks of one batch
    get to push their result, and the configured secret.  The first
    argument of an oracle is the number of events before the batch or
    request. *)
Record CronEnv := {
  sync_endpoint : nat -> string -> EndpointAnswer;
  settle_order : nat -> list Settled -> list Settled;
  cron_secret : option string
}.

Record CronResults := {
  cr_success : list string;
  cr_failed : list (string * string);
  cr_total : nat
}.

Definition settle (state : string) (answer : EndpointAnswer) : Settled :=
  match answer with
  | AnswerOk => SettledOk state
  | AnswerNotOk (Ok text) => SettledFailed state text
  | AnswerNotOk (Throw e) => SettledFailed state (err_message e)
  | AnswerThrows e => SettledFailed state (err_message e)
  end.

(** [batch.map(async (state) => ...)]: the requests leave in the order of
    the batch, each callback running up to its [await fetch(...)]. *)
Fixpoint issue_batch (env : CronEnv) (batch : list string) (tr : list CronEvent)
    : list Settled * list CronEvent :=
  match batch with
  | [] => ([], tr)
  | state :: rest =>
      let answer := sync_endpoint env (List.length tr) state in
      let '(settled, tr') := issue_batch env rest (CronFetch state 100 :: tr) in
      (settle state answer :: settled, tr')
  end.

Definition record_settled (results : CronResults) (s : Settled) : CronResults :=
  match s with
  | SettledOk state =>
      {| cr_success := cr_success results ++ [state];
         cr_failed := cr_failed results; cr_total := cr_total results |}
  | SettledFailed state error =>
      {| cr_success := cr_success results;
         cr_failed := cr_failed results ++ [(state, error)];
         cr_total := cr_total results |}
  end.

(** [for (let i = 0; i < states.length; i += batchSize)], with [fuel]
    bounding the number of batches; events newest first. *)
Fixpoint run_batches (env : CronEnv) (fuel : nat) (states : list string) (i : nat)
    (results : CronResults) (tr : list CronEvent) : CronResults * list CronEvent :=
  match fuel with
  | O => (results, tr)
  | S fuel' =>
      if (i <? List.length states)%nat then
        let batch := firstn batchSize (skipn i states) in
        let '(settled, tr1) := issue_batch env batch tr in
        let results' :=
          fold_left record_settled (settle_order env (List.length tr) settled) results in
        let tr2 := if (i + batchSize <? List.length states)%nat
                   then CronSleep 2000 :: tr1 else tr1 in
        run_batches env fuel' states (i + batchSize) results' tr2
      else (results, tr)
  end.

Inductive CronJson :=
| CronError (error : string)
| CronSummary (message : string) (successCount failedCount : nat) (results : CronResults).

(** The scheduled handler over a list of states; the file runs it on
    [cron_states]. *)
Definition scheduled_sync (env : CronEnv) (states : list string)
    (authorization : option string) : (nat * CronJson) * list CronEvent :=
  if negb (match authorization with
           | Some authHeader =>
               String.eqb authHeader ("Bearer " ++ Js.template (cron_secret env))
           | None => false
           end)
  then ((401, CronError "Unauthorized"), [])
  else
    let '(results, tr) :=
      run_batches env (List.length states) states 0
        {| cr_success := []; cr_failed := []; cr_total := List.length states |} [] in
    ((200, CronSummary "Scheduled sync completed"
             (List.length (cr_success results)) (List.length (cr_failed results)) results),
     tr).

Definition scheduled_handler (env : CronEnv) (authorization : option string)
    : (nat * CronJson) * list CronEvent :=
  scheduled_sync env cron_states authorization.

(** The request a callback sends to the manual endpoint. *)
Definition cron_request (webhookSecret : option string) (state : string) : HttpRequest :=
  {| req_method := "POST";
     req_authorization := Some ("Bearer " ++ Js.template webhookSecret)%string;
     req_body := Some {| body_state := Some state; body_states := None;
                         body_limit := Some 100 |} |}.

(* ===================================================================== *)
(** ** Further vocabulary of the statements                              *)
(* ===================================================================== *)

(** The character [c] occurs in [s]. *)
Fixpoint has_char (c : ascii) (s : string) : bool :=
  match s with
  | EmptyString => false
  | String a s' => Ascii.eqb a c || has_char c s'
  end.

Fixpoint count_char (c : ascii) (s : string) : nat :=
  match s with
  | EmptyString => 0
  | String a s' => (if Ascii.eqb a c then 1 else 0) + count_char c s'
  end.

Fixpoint string_forall (f : ascii -> bool) (s : string) : bool :=
  match s with
  | EmptyString => true
  | String a s' => f a && string_forall f s'
  end.

(** Every character of [s] is in the ASCII range, where the case mapping
    and the character classes of the embedding are the engine's. *)
Definition ascii_char (c : ascii) : bool := (nat_of_ascii c <? 128)%nat.

Definition ascii_only (s : string) : bool := string_forall ascii_char s.

(** No neighbours of [s] ask for a space. *)
Fixpoint no_gap (s : string) : bool :=
  match s with
  | EmptyString => true
  | String a rest => negb (gap_after a rest) && no_gap rest
  end.

(** No capital of [s] follows a letter ([prev] tells whether a letter
    comes just before [s]). *)
Fixpoint calm_after (prev : bool) (s : string) : bool :=
  match s with
  | EmptyString => true
  | String a rest => negb (prev && Js.is_upper a) && calm_after (is_letter a) rest
  end.

(** The cells a legislator's field set may hold. *)
Definition legislator_cells : list string :=
  ["Full Name"; "OpenStates ID"; "First Name"; "Last Name"; "District";
   "Photo URL"; "Biography"; "Contact Email"; "Party"; "Chamber"; "State";
   "Title"; "Phone"; "Office Address"; "Links"].

Definition not_space (c : ascii) : bool := negb (Js.is_space c).

Definition all_keywords : list string := flat_map snd categories.

Definition category_names : list string := List.map fst categories ++ ["Other"].

Definition result_synced (r : StateResult) : nat :=
  match r with
  | StateSynced _ synced _ => synced
  | StateFailed _ _ => 0
  end.

Definition result_total (r : StateResult) : nat :=
  match r with
  | StateSynced _ _ total => total
  | StateFailed _ _ => 0
  end.

Definition sum_list (l : list nat) : nat := fold_right Nat.add 0 l.

(** The number of bills of [bills] that go through, their bodies run one
    after the other from [w]: a bill goes through when its body returns,
    that is, does not throw. *)
Fixpoint bills_through (env : Env) (state : string) (bills : list Bill) (w : World)
    : nat :=
  match bills with
  | [] => 0
  | bill :: rest =>
      let out := syncBill env state bill w in
      (match fst out with Ok _ => 1 | Throw _ => 0 end) +
      bills_through env state rest (snd out)
  end.

Definition is_cron_fetch (ev : CronEvent) : bool :=
  match ev with CronFetch _ _ => true | CronSleep _ => false end.

Definition cron_fetched (tr : list CronEvent) : list string :=
  omap (fun ev => match ev with CronFetch state _ => Some state | _ => None end)
       (rev tr).

Definition cron_sleeps (tr : list CronEvent) : nat :=
  List.length (List.filter (fun ev => negb (is_cron_fetch ev)) tr).

Definition settled_state (s : Settled) : string :=
  match s with
  | SettledOk state => state
  | SettledFailed state _ => state
  end.

(** The settle order only reorders the results of a batch. *)
Definition fair_order (env : CronEnv) : Prop :=
  forall n l, Permutation (settle_order env n l) l.

(** Sample scheduler environments. *)
Definition steady_cron : CronEnv :=
  {| sync_endpoint := fun _ state =>
       if String.eqb state "tx" then AnswerNotOk (Ok "FUNCTION_INVOCATION_TIMEOUT")
       else if String.eqb state "pr" then AnswerThrows (Error "fetch failed")
       else AnswerOk;
     settle_order := fun _ l => rev l;
     cron_secret := Some "cr0n" |}.

(** A person with two offices and three links, one of them without URL. *)
Definition officed_person : Person :=
  {| person_id := Some "ocd-person/77"; person_name := Some "Pat Doe";
     person_given_name := Some "Pat"; person_family_name := Some "Doe";
     person_image := None; person_biography := None; person_email := None;
     person_party := None; person_current_role := None;
     person_jurisdiction := None;
     person_offices :=
       Some [ {| office_voice := Some "555-0100"; office_address := None |};
              {| office_voice := Some "555-0199"; office_address := Some "District office" |} ];
     person_links :=
       Some [ {| link_url := Some "https://example.org/a" |};
              {| link_url := None |};
              {| link_url := Some "https://example.org/b" |} ] |}.

(** As [calm_env], but the store refuses to look up the second sample
    bill. *)
Definition second_bill_refused_env : Env :=
  {| people_api := fun _ _ => Ok (Some []);
     bills_api := fun _ _ _ => Ok (Some sample_bills);
     jurisdiction_api := fun _ state => Ok (state_jurisdiction state);
     store_fault := fun _ ev =>
       match ev with
       | EvSelect _ _ value =>
           if String.eqb value "ocd-bill/2" then Some (Error "RATE_LIMIT_REACHED") else None
       | _ => None
       end;
     formula_language := fun _ _ => false;
     date_parse := fun _ => Ok None;
     webhook_secret := Some "s3cret" |}.

(** The upstream API is down: every request fails. *)
Definition api_down_env : Env :=
  {| people_api := fun _ _ => Throw (Error "Plural API error: 503");
     bills_api := fun _ _ _ => Throw (Error "Plural API error: 503");
     jurisdiction_api := fun _ _ => Throw (Error "Plural API error: 503");
     store_fault := fun _ _ => None;
     formula_language := fun _ _ => false;
     date_parse := fun _ => Ok None;
     webhook_secret := Some "s3cret" |}.
(* ===================================================================== *)
(** ** Facts about characters and strings                                *)
(* ===================================================================== *)

Section CharFacts.

Lemma lower_not_upper c : Js.is_lower c = true -> Js.is_upper c = false.
Proof.
  unfold Js.is_lower, Js.is_upper.
  destruct (Nat.leb_spec 97 (nat_of_ascii c)); simpl; [|discriminate].
  intros _. destruct (Nat.leb_spec (nat_of_ascii c) 90); [lia|].
  apply andb_false_r.
Qed.

Lemma upper_not_lower c : Js.is_upper c = true -> Js.is_lower c = false.
Proof.
  intros Hu. destruct (Js.is_lower c) eqn:Hl; [|reflexivity].
  apply lower_not_upper in Hl. congruence.
Qed.

Lemma lower_char_idem c : Js.lower_char (Js.lower_char c) = Js.lower_char c.
Proof.
  destruct c as [[] [] [] [] [] [] [] []]; reflexivity.
Qed.

Lemma startsWith_map f s p :
  Js.startsWith s p = true ->
  Js.startsWith (Js.map_string f s) (Js.map_string f p) = true.
Proof.
  revert s. induction p as [|a p IH]; intros s; [destruct s; reflexivity|].
  destruct s as [|b s]; simpl; [discriminate|].
  intros H. apply andb_prop in H as [Hab Hp].
  apply Ascii.eqb_eq in Hab. subst b.
  rewrite Ascii.eqb_refl. simpl. auto.
Qed.

Lemma includes_map f s p :
  Js.includes s p = true ->
  Js.includes (Js.map_string f s) (Js.map_string f p) = true.
Proof.
  induction s as [|b s IH]; simpl; intros H.
  - rewrite orb_false_r in H. apply (startsWith_map f "" p) in H.
    simpl in H. rewrite H. reflexivity.
  - apply orb_prop in H as [H|H].
    + apply (startsWith_map f (String b s) p) in H. simpl in H.
      rewrite H. reflexivity.
    + rewrite (IH H). apply orb_true_r.
Qed.

(** A keyword written in lower case survives lower-casing the text around it. *)
Lemma includes_toLowerCase s k :
  Js.toLowerCase k = k ->
  Js.includes s k = true -> Js.includes (Js.toLowerCase s) k = true.
Proof.
  intros Hk H. rewrite <- Hk. apply includes_map, H.
Qed.

End CharFacts.

(* ===================================================================== *)
(** ** Status inference                                                  *)
(* ===================================================================== *)

Lemma determineStatus_in_enum d : In (determineStatus d) status_enum.
Proof.
  unfold determineStatus, status_enum.
  repeat match goal with
         | |- context [if ?b then _ else _] => destruct b
         end; simpl; tauto.
Qed.

Lemma determineStatus_refines d : determineStatus d = status_spec d.
Proof.
  destruct d as [[|c s]|]; try reflexivity.
  unfold determineStatus, status_spec, status_rules, first_matching_rule, rule_matches.
  cbn [Js.truthy negb Js.or_empty existsb forallb].
  rewrite !andb_true_r, !orb_false_r. reflexivity.
Qed.

Lemma signed_is_enacted d :
  Js.includes (Js.toLowerCase d) "signed" = true ->
  determineStatus (Some d) = "Enacted".
Proof.
  intros H. rewrite determineStatus_refines. unfold status_spec, status_rules.
  cbn [first_matching_rule rule_matches existsb forallb].
  rewrite H. reflexivity.
Qed.

(** C2.  The inferred status is one of the seven of the enumeration; it is
    the status of the first rule, in the fixed order signed/enacted, vetoed,
    failed/died, passed and senate, passed and house, committee, that the
    lower-cased description matches, and Introduced when none does; a
    description that contains both signed and committee is Enacted; a
    missing or empty description is Introduced. *)
Theorem determineStatus_first_matching_rule :
  (forall d, In (determineStatus d) status_enum) /\
  (forall d, determineStatus d = status_spec d) /\
  (forall d, Js.includes d "signed" = true -> Js.includes d "committee" = true ->
             determineStatus (Some d) = "Enacted") /\
  determineStatus None = "Introduced" /\
  determineStatus (Some "") = "Introduced".
Proof.
  split; [exact determineStatus_in_enum|].
  split; [exact determineStatus_refines|].
  split; [|split; reflexivity].
  intros d Hs _. apply signed_is_enacted.
  apply includes_toLowerCase; [reflexivity|exact Hs].
Qed.

Lemma determineStatus_first_matching_rule_witness :
  determineStatus (Some "signed by the governor after committee review") = "Enacted".
Proof.
  apply (proj1 (proj2 (proj2 determineStatus_first_matching_rule)));
    vm_compute; reflexivity.
Defined.

(* ===================================================================== *)
(** ** Subject canonicalisation                                          *)
(* ===================================================================== *)


(* ===================================================================== *)
(** ** Subject canonicalisation                                          *)
(* ===================================================================== *)

Section RegexReplace.

(** Each replacement is local: it leaves every character in place and only
    decides, from the characters that follow, whether a space comes next. *)
Lemma replace_lower_upper_cons a rest :
  replace_lower_upper (String a rest) =
  String a (if lower_to_upper a rest
            then String " " (replace_lower_upper rest)
            else replace_lower_upper rest).
Proof.
  destruct rest as [|b rest']; [reflexivity|].
  cbn [replace_lower_upper lower_to_upper].
  destruct (Js.is_lower a && Js.is_upper b) eqn:E; [|reflexivity].
  apply andb_prop in E as [_ Hb].
  do 2 f_equal.
  destruct rest' as [|c rest'']; [reflexivity|].
  cbn [replace_lower_upper].
  rewrite (upper_not_lower b Hb). reflexivity.
Qed.

Lemma replace_upper_upper_lower_cons a rest :
  replace_upper_upper_lower (String a rest) =
  String a (if capital_before_word a rest
            then String " " (replace_upper_upper_lower rest)
            else replace_upper_upper_lower rest).
Proof.
  destruct rest as [|b [|c rest'']]; try reflexivity.
  cbn [replace_upper_upper_lower capital_before_word].
  destruct (Js.is_upper a && Js.is_upper b && Js.is_lower c) eqn:E; [|reflexivity].
  apply andb_prop in E as [E Hc]. apply andb_prop in E as [_ Hb].
  do 2 f_equal.
  assert (Hcu : Js.is_upper c = false) by (apply lower_not_upper, Hc).
  destruct rest'' as [|d [|e rest3]];
    cbn [replace_upper_upper_lower];
    rewrite ?Hcu, ?andb_false_r, ?andb_false_l; reflexivity.
Qed.

(** The first replacement never hides a capital-capital-lowercase triple
    from the second one. *)
Lemma capital_before_word_after_first a rest :
  capital_before_word a (replace_lower_upper rest) = capital_before_word a rest.
Proof.
  destruct rest as [|b rest']; [reflexivity|].
  rewrite replace_lower_upper_cons.
  destruct (lower_to_upper b rest') eqn:E.
  - destruct rest' as [|c rest'']; [discriminate|].
    cbn [lower_to_upper] in E. apply andb_prop in E as [Hb _].
    cbn [capital_before_word].
    rewrite (lower_not_upper b Hb), !andb_false_r. reflexivity.
  - destruct rest' as [|c rest'']; [reflexivity|].
    rewrite replace_lower_upper_cons. reflexivity.
Qed.

Lemma lower_to_upper_excludes a rest :
  lower_to_upper a rest = true -> capital_before_word a rest = false.
Proof.
  destruct rest as [|b [|c rest'']]; try reflexivity.
  cbn [lower_to_upper capital_before_word]. intros E.
  apply andb_prop in E as [Ha _].
  rewrite (lower_not_upper a Ha). reflexivity.
Qed.

(** The two replacements in sequence put a space exactly at the transitions
    the specification names. *)
Lemma regex_pair_is_space_transitions s :
  replace_upper_upper_lower (replace_lower_upper s) = space_transitions s.
Proof.
  induction s as [|a rest IH]; [reflexivity|].
  rewrite replace_lower_upper_cons. cbn [space_transitions]. unfold gap_after.
  destruct (lower_to_upper a rest) eqn:E1.
  - rewrite replace_upper_upper_lower_cons.
    assert (Ha : Js.is_upper a = false).
    { destruct rest; [discriminate|]. cbn [lower_to_upper] in E1.
      apply andb_prop in E1 as [Ha _]. apply lower_not_upper, Ha. }
    assert (E2 : capital_before_word a (String " " (replace_lower_upper rest)) = false).
    { cbn [capital_before_word]. destruct (replace_lower_upper rest); [reflexivity|].
      rewrite Ha. reflexivity. }
    rewrite E2, replace_upper_upper_lower_cons.
    assert (E3 : capital_before_word " " (replace_lower_upper rest) = false).
    { unfold capital_before_word.
      destruct (replace_lower_upper rest) as [|b [|c r]]; reflexivity. }
    rewrite E3, IH. reflexivity.
  - rewrite replace_upper_upper_lower_cons, capital_before_word_after_first.
    rewrite IH. cbn [orb]. destruct (capital_before_word a rest); reflexivity.
Qed.

End RegexReplace.

Lemma formatSubjectName_refines s : formatSubjectName s = canonicalize_spec s.
Proof.
  unfold formatSubjectName, canonicalize_spec, format_step.
  rewrite regex_pair_is_space_transitions. reflexivity.
Qed.

(** What the function computes, for every label.  A label with an
    underscore is split on underscores, each segment title-cased, and the
    segments joined with spaces; any other label gets a space at each
    lowercase-to-uppercase transition and at each capital followed by a
    capital plus a lowercase letter, then its first character in upper case.
    When the lower-cased result is one of the thirteen keys of the override
    table its display name is returned instead, and a result that is no
    property of the table object at all is returned as formatted. *)
Theorem formatSubjectName_canonicalizes :
  (forall s, formatSubjectName s = canonicalize_spec s) /\
  (forall s v, assoc (Js.toLowerCase (format_step s)) commonWords = Some v ->
               formatSubjectName s = FStr v) /\
  (forall s, commonWords_get (Js.toLowerCase (format_step s)) = None ->
             formatSubjectName s = FStr (format_step s)) /\
  formatSubjectName "PUBLIC_SAFETY" = FStr "Public Safety" /\
  formatSubjectName "Lawenforcement" = FStr "Law Enforcement".
Proof.
  split; [exact formatSubjectName_refines|].
  split; [|split; [|split; vm_compute; reflexivity]].
  - intros s v H. unfold formatSubjectName, commonWords_get. rewrite H. reflexivity.
  - intros s H. unfold formatSubjectName. rewrite H. reflexivity.
Qed.

Lemma formatSubjectName_canonicalizes_examples :
  formatSubjectName "Peaceofficers" = FStr "Peace Officers" /\
  formatSubjectName "waterRights" = FStr "Water Rights".
Proof.
  split.
  - apply (proj1 (proj2 formatSubjectName_canonicalizes)). vm_compute. reflexivity.
  - apply (proj1 (proj2 (proj2 formatSubjectName_canonicalizes)) "waterRights").
    vm_compute. reflexivity.
Defined.

(** C3, at the label Constructor.  The override table is an object literal
    and is read with a plain property access, so a formatted label whose
    lower-case form names a property every object inherits is taken for an
    entry of the table: Constructor is no key of the table, its formatted
    form is Constructor, and yet what comes back is the inherited
    constructor function, not that text. *)
Theorem formatSubjectName_inherited_property :
  format_step "Constructor" = "Constructor" /\
  assoc (Js.toLowerCase (format_step "Constructor")) commonWords = None /\
  formatSubjectName "Constructor" = FFun "constructor" /\
  formatSubjectName "Constructor" <> FStr "Constructor".
Proof.
  split; [reflexivity|]. split; [reflexivity|]. split; [reflexivity|].
  vm_compute. discriminate.
Qed.

(* ===================================================================== *)
(** ** Date normalisation                                                *)
(* ===================================================================== *)

Section DatePrefix.

Lemma match_classes_shape p s :
  Js.match_classes p s =
  if has_shape p (substring 0 (List.length p) s)
  then Some (substring 0 (List.length p) s) else None.
Proof.
  revert s. induction p as [|f p IH]; intros s.
  - destruct s; reflexivity.
  - destruct s as [|c s]; [reflexivity|].
    cbn [Js.match_classes List.length substring has_shape].
    destruct (f c); [|reflexivity].
    rewrite IH. cbn [andb].
    destruct (has_shape p (substring 0 (List.length p) s)); reflexivity.
Qed.

Lemma match_classes_prefix p (d rest : string) :
  has_shape p d = true -> Js.match_classes p (d ++ rest)%string = Some d.
Proof.
  revert d. induction p as [|f p IH]; intros d H.
  - destruct d; [|discriminate]. destruct rest; reflexivity.
  - destruct d as [|c d]; [discriminate|].
    cbn [has_shape] in H. apply andb_prop in H as [Hc Hd].
    simpl. rewrite Hc, (IH d Hd). reflexivity.
Qed.

Lemma has_shape_length p d : has_shape p d = true -> String.length d = List.length p.
Proof.
  revert d. induction p as [|f p IH]; intros [|c d] H; try discriminate; [reflexivity|].
  cbn [has_shape] in H. apply andb_prop in H as [_ Hd].
  cbn [String.length List.length]. f_equal. auto.
Qed.

Lemma date_pattern_shape d : has_shape date_pattern d = is_calendar_date d.
Proof.
  unfold is_calendar_date, date_pattern, is_dash.
  do 10 (destruct d as [|? d]; [reflexivity|]).
  cbn [has_shape]. rewrite !(Ascii.eqb_sym "-"). reflexivity.
Qed.

Lemma no_date_prefix s :
  has_date_prefix s = false -> Js.match_classes date_pattern s = None.
Proof.
  unfold has_date_prefix. rewrite <- date_pattern_shape, match_classes_shape.
  change (List.length date_pattern) with 10%nat.
  intros ->. reflexivity.
Qed.

End DatePrefix.

Lemma normalizeDate_prefix parse (d rest : string) :
  is_calendar_date d = true -> normalizeDate parse (Some (d ++ rest)%string) = Some d.
Proof.
  intros H. rewrite <- date_pattern_shape in H.
  pose proof (has_shape_length _ _ H) as Hlen.
  destruct d as [|c d]; [discriminate|].
  unfold normalizeDate, normalizeDate_try.
  change (Js.truthy (Some (String c d ++ rest)%string)) with true.
  cbn [negb Js.or_empty].
  rewrite (match_classes_prefix _ _ rest H). reflexivity.
Qed.

Lemma normalizeDate_passthrough parse s :
  s <> "" -> has_date_prefix s = false ->
  (parse s = Ok None \/ exists e, parse s = Throw e) ->
  normalizeDate parse (Some s) = Some s.
Proof.
  intros Hs Hp Hparse. destruct s as [|c s]; [congruence|].
  unfold normalizeDate, normalizeDate_try. cbn [Js.truthy negb Js.or_empty].
  rewrite (no_date_prefix _ Hp).
  destruct Hparse as [-> | [e ->]]; reflexivity.
Qed.

(** C4, amended.  Date normalisation is total: whatever the engine's date
    parser does, even raising, a result comes back.  An input that begins
    with a calendar date YYYY-MM-DD gives exactly that ten-character prefix;
    null gives null, and so does the empty string; a non-empty input with no
    calendar-date prefix that the parser rejects, or on which it raises, is
    returned unchanged. *)
Theorem normalizeDate_best_effort (parse : string -> Result (option string)) :
  (forall d rest : string, is_calendar_date d = true ->
     normalizeDate parse (Some (d ++ rest)%string) = Some d /\
     String.length d = 10%nat) /\
  normalizeDate parse (Some "2025-02-19T05:00:00+00:00") = Some "2025-02-19" /\
  normalizeDate parse (Some "2020-01-15") = Some "2020-01-15" /\
  normalizeDate parse None = None /\
  normalizeDate parse (Some "") = None /\
  (forall s, s <> "" -> has_date_prefix s = false -> parse s = Ok None ->
     normalizeDate parse (Some s) = Some s) /\
  (forall s e, s <> "" -> has_date_prefix s = false -> parse s = Throw e ->
     normalizeDate parse (Some s) = Some s).
Proof.
  repeat split; try reflexivity.
  - apply normalizeDate_prefix; assumption.
  - rewrite <- date_pattern_shape in H. apply (has_shape_length _ _ H).
  - intros s Hs Hp Hr. apply normalizeDate_passthrough; auto.
  - intros s e Hs Hp Hr. apply normalizeDate_passthrough; eauto.
Qed.

Lemma normalizeDate_best_effort_witness :
  normalizeDate (fun _ => Ok None) (Some "1999-12-31 23:59") = Some "1999-12-31" /\
  normalizeDate (fun _ => Ok None) (Some "next session") = Some "next session" /\
  normalizeDate (fun _ => Throw (Error "RangeError")) (Some "soon") = Some "soon".
Proof.
  destruct (normalizeDate_best_effort (fun _ => Ok None))
    as (Hprefix & _ & _ & _ & _ & Hinvalid & _).
  destruct (normalizeDate_best_effort (fun _ => Throw (Error "RangeError")))
    as (_ & _ & _ & _ & _ & _ & Hraise).
  split; [|split].
  - apply (Hprefix "1999-12-31" " 23:59"). reflexivity.
  - apply Hinvalid; [discriminate|reflexivity|reflexivity].
  - apply (Hraise "soon" (Error "RangeError")); [discriminate|reflexivity|reflexivity].
Defined.

(** C4 as first stated fails on the empty string: it has no calendar-date
    prefix and no parser accepts it, yet it is turned into null instead of
    being returned unchanged. *)
Lemma normalizeDate_empty_string_is_null :
  ~ (forall (parse : string -> Result (option string)) (s : string),
       has_date_prefix s = false -> parse s = Ok None ->
       normalizeDate parse (Some s) = Some s).
Proof.
  intros H. specialize (H (fun _ => Ok None) "" eq_refl eq_refl). discriminate H.
Qed.

(* ===================================================================== *)
(** ** The reconciler                                                    *)
(* ===================================================================== *)

Section Reconciler.

Context (env : Env).

Lemma table_set_table_eq t rows st : table (set_table t rows st) t = rows.
Proof. unfold table, set_table. cbn. rewrite lookup_insert_eq. reflexivity. Qed.

Lemma table_set_table_ne t t' rows st :
  t <> t' -> table (set_table t rows st) t' = table st t'.
Proof. intros H. unfold table, set_table. cbn. rewrite lookup_insert_ne; auto. Qed.

Lemma filter_head_In {A} (f : A -> bool) (l : list A) r rest :
  List.filter f l = r :: rest -> In r l /\ f r = true.
Proof.
  intros H. apply filter_In. rewrite H. left. reflexivity.
Qed.

(** Whatever the store and the oracle do, a reconciliation ends in one of
    the three ways of [focr_outcome]. *)
Lemma findOrCreateRecord_outcome t field value recordData w :
  focr_outcome env t field value recordData w
    (fst (findOrCreateRecord env t field value recordData w))
    (snd (findOrCreateRecord env t field value recordData w)).
Proof.
  unfold findOrCreateRecord, select, update, create. run.
  destruct (store_fault env (clock w) (EvSelect t field value)) as [e|];
    [apply focr_throws; reflexivity|].
  destruct (List.filter (formula_filter env field value) (table (store w) t))
    as [|r rest] eqn:Hsel; cbn [firstn].
  - cbn [store log].
    destruct (store_fault env _ (EvCreate t)) as [e|];
      [apply focr_throws; reflexivity|].
    cbn [fst snd rec_id]. apply focr_creates; [exact Hsel|reflexivity].
  - cbn [store log].
    destruct (store_fault env _ (EvUpdate t (rec_id r))) as [e|];
      [apply focr_throws; reflexivity|].
    destruct (existsb _ _); cbn [fst snd].
    + eapply focr_updates; [exact Hsel|reflexivity].
    + apply focr_throws; reflexivity.
Qed.

(** Without store failures a reconciliation always returns an identifier. *)
Lemma findOrCreateRecord_no_fault t field value recordData w :
  no_store_fault env ->
  exists id, fst (findOrCreateRecord env t field value recordData w) = Ok id.
Proof.
  intros Hnf. unfold findOrCreateRecord, select, update, create. run.
  rewrite !Hnf.
  destruct (List.filter (formula_filter env field value) (table (store w) t))
    as [|r rest] eqn:Hsel; cbn [firstn store log].
  - rewrite Hnf. eauto.
  - rewrite Hnf.
    destruct (filter_head_In _ _ _ _ Hsel) as [Hin _].
    assert (Hex : existsb (fun r0 => Nat.eqb (rec_id r0) (rec_id r))
                    (table (store w) t) = true).
    { apply existsb_exists. exists r. split; [exact Hin|apply Nat.eqb_refl]. }
    rewrite Hex. eauto.
Qed.

Lemma findOrCreateRecord_cases t field value recordData w res w' :
  findOrCreateRecord env t field value recordData w = (res, w') ->
  focr_outcome env t field value recordData w res w'.
Proof.
  intros E. pose proof (findOrCreateRecord_outcome t field value recordData w) as H.
  rewrite E in H. exact H.
Qed.

End Reconciler.

(* ===================================================================== *)
(** ** Computations: frames and totality                                 *)
(* ===================================================================== *)

Section Combinators.

Context (R : World -> World -> Prop).
Hypothesis R_refl : forall w, R w w.
Hypothesis R_trans : forall w1 w2 w3, R w1 w2 -> R w2 w3 -> R w1 w3.

Lemma preserves_ret {A} (a : A) : preserves R (ret a).
Proof. intros w. apply R_refl. Qed.

Lemma preserves_throw {A} e : preserves R (@throw A e).
Proof. intros w. apply R_refl. Qed.

Lemma preserves_bind {A B} (m : M A) (k : A -> M B) :
  preserves R m -> (forall a, preserves R (k a)) -> preserves R (bind m k).
Proof.
  intros Hm Hk w. unfold bind. specialize (Hm w).
  destruct (m w) as [[a|e] w1]; cbn [snd] in *; [|exact Hm].
  eapply R_trans; [exact Hm|apply Hk].
Qed.

Lemma preserves_try_catch {A} (m : M A) (h : Err -> M A) :
  preserves R m -> (forall e, preserves R (h e)) -> preserves R (try_catch m h).
Proof.
  intros Hm Hh w. unfold try_catch. specialize (Hm w).
  destruct (m w) as [[a|e] w1]; cbn [snd] in *; [exact Hm|].
  eapply R_trans; [exact Hm|apply Hh].
Qed.

Lemma preserves_forEach_collect {A} (f : A -> M nat) xs ids :
  (forall x, preserves R (f x)) -> preserves R (forEach_collect f xs ids).
Proof.
  intros Hf. revert ids. induction xs as [|x xs IH]; intros ids; cbn [forEach_collect].
  - apply preserves_ret.
  - apply preserves_bind; [|intros a; apply IH].
    apply preserves_try_catch; [|intros e; apply preserves_ret].
    apply preserves_bind; [apply Hf|intros a; apply preserves_ret].
Qed.

End Combinators.

Section Totality.

Lemma total_ret {A} (a : A) : total (ret a).
Proof. intros w. exists a. reflexivity. Qed.

Lemma total_bind {A B} (m : M A) (k : A -> M B) :
  total m -> (forall a, total (k a)) -> total (bind m k).
Proof.
  intros Hm Hk w. unfold bind. destruct (Hm w) as [a Ha].
  destruct (m w) as [[a'|e] w1]; cbn [fst] in Ha; [|discriminate].
  apply Hk.
Qed.

Lemma total_try_catch {A} (m : M A) (h : Err -> M A) :
  (forall e, total (h e)) -> total (try_catch m h).
Proof.
  intros Hh w. unfold try_catch.
  destruct (m w) as [[a|e] w1]; [exists a; reflexivity|apply Hh].
Qed.

(** A collecting loop never throws: each pass catches its own error. *)
Lemma total_forEach_collect {A} (f : A -> M nat) xs ids :
  total (forEach_collect f xs ids).
Proof.
  revert ids. induction xs as [|x xs IH]; intros ids; cbn [forEach_collect].
  - apply total_ret.
  - apply total_bind; [|intros a; apply IH].
    apply total_try_catch. intros e. apply total_ret.
Qed.

Lemma total_fetchChunk env chunk peopleMap : total (fetchChunk env chunk peopleMap).
Proof. apply total_try_catch. intros e. apply total_ret. Qed.

Lemma total_fetchChunks env fuel ids i peopleMap :
  total (fetchChunks env fuel ids i peopleMap).
Proof.
  revert i peopleMap. induction fuel as [|fuel IH]; intros i peopleMap;
    cbn [fetchChunks]; [apply total_ret|].
  destruct (i <? List.length ids)%nat; [|apply total_ret].
  apply total_bind; [apply total_fetchChunk|intros m; apply IH].
Qed.

(** The legislator sync never throws. *)
Lemma total_syncLegislators env people : total (syncLegislators env people).
Proof.
  unfold syncLegislators. destruct people as [|p people]; [apply total_ret|].
  apply total_try_catch. intros e. apply total_forEach_collect.
Qed.

Lemma total_syncSubjects env subjects : total (syncSubjects env subjects).
Proof. apply total_forEach_collect. Qed.

(** The state sync never throws. *)
Lemma total_syncState env jurisdiction : total (syncState env jurisdiction).
Proof. apply total_try_catch. intros e. apply total_ret. Qed.

End Totality.

Section Frames.

Context (env : Env).

Lemma frames_refl t w : frames t w w.
Proof. split; [reflexivity|lia]. Qed.

Lemma frames_trans t w1 w2 w3 : frames t w1 w2 -> frames t w2 w3 -> frames t w1 w3.
Proof. intros [H1 H2] [H3 H4]. split; [congruence|lia]. Qed.

Lemma frames_same_store t w w' : store w' = store w -> frames t w w'.
Proof. intros H. unfold frames. rewrite H. split; [reflexivity|lia]. Qed.

(** A reconciliation in one table leaves every other table alone. *)
Lemma findOrCreateRecord_frames t t' field value recordData :
  t <> t' -> preserves (frames t') (findOrCreateRecord env t field value recordData).
Proof.
  intros Hne w.
  destruct (findOrCreateRecord env t field value recordData w) as [res w'] eqn:E.
  apply findOrCreateRecord_cases in E. cbn [snd].
  destruct E as [e w' Hs|r rest w' Hsel Hs|w' Hsel Hs].
  - apply frames_same_store, Hs.
  - unfold frames. rewrite Hs. split; [apply table_set_table_ne, Hne|cbn; lia].
  - unfold frames. rewrite Hs. split; [|cbn; lia].
    unfold table at 1. cbn. rewrite lookup_insert_ne by exact Hne. reflexivity.
Qed.

Lemma fetchPeople_frames t ids : preserves (frames t) (fetchPeople env ids).
Proof. intros w. apply frames_same_store. reflexivity. Qed.

Lemma fetchChunks_frames t fuel ids i peopleMap :
  preserves (frames t) (fetchChunks env fuel ids i peopleMap).
Proof.
  revert i peopleMap. induction fuel as [|fuel IH]; intros i peopleMap;
    cbn [fetchChunks]; [apply preserves_ret, frames_refl|].
  destruct (i <? List.length ids)%nat; [|apply preserves_ret, frames_refl].
  apply preserves_bind; [apply frames_trans| |intros m; apply IH].
  apply preserves_try_catch; [apply frames_trans| |intros e; apply preserves_ret, frames_refl].
  apply preserves_bind; [apply frames_trans|apply fetchPeople_frames|].
  intros a. apply preserves_ret, frames_refl.
Qed.

(** The legislator sync writes to the Legislators table only. *)
Lemma syncLegislators_frames t people :
  t <> "Legislators" -> preserves (frames t) (syncLegislators env people).
Proof.
  intros Hne. unfold syncLegislators.
  destruct people as [|p people]; [apply preserves_ret, frames_refl|].
  apply preserves_try_catch; [apply frames_trans| |].
  - destruct (personIds (p :: people)); [apply preserves_ret, frames_refl|].
    apply preserves_bind; [apply frames_trans|apply fetchChunks_frames|].
    intros m. apply preserves_forEach_collect;
      [apply frames_refl|apply frames_trans|].
    intros x. apply findOrCreateRecord_frames. congruence.
  - intros e. apply preserves_forEach_collect;
      [apply frames_refl|apply frames_trans|].
    intros x. apply findOrCreateRecord_frames. congruence.
Qed.

(** The subject sync writes to the Subjects table only. *)
Lemma syncSubjects_frames t subjects :
  t <> "Subjects" -> preserves (frames t) (syncSubjects env subjects).
Proof.
  intros Hne. apply preserves_forEach_collect;
    [apply frames_refl|apply frames_trans|].
  intros x. apply findOrCreateRecord_frames. congruence.
Qed.

End Frames.

(* ===================================================================== *)
(** ** Keys of a table under reconciliation                              *)
(* ===================================================================== *)

Section Keys.

Context (env : Env).

Lemma patch_rec_id id recordData r : rec_id (patch id recordData r) = rec_id r.
Proof. unfold patch. destruct (Nat.eqb (rec_id r) id); reflexivity. Qed.

Lemma map_rec_id_patch id recordData rows :
  List.map rec_id (List.map (patch id recordData) rows) = List.map rec_id rows.
Proof.
  rewrite List.map_map. apply List.map_ext. intros r. apply patch_rec_id.
Qed.

Lemma formula_holds_functional field k k' r :
  formula_holds field k r = true -> formula_holds field k' r = true -> k = k'.
Proof.
  unfold formula_holds.
  destruct (rec_fields r !! field) as [[s| | |]|]; try discriminate;
    intros H1 H2; apply String.eqb_eq in H1, H2; congruence.
Qed.

Lemma rec_id_inj (rows : list AirRecord) r1 r2 :
  NoDup (List.map rec_id rows) -> In r1 rows -> In r2 rows ->
  rec_id r1 = rec_id r2 -> r1 = r2.
Proof.
  induction rows as [|r rows IH]; cbn [List.map In]; [tauto|].
  intros Hnd H1 H2 Hid. apply NoDup_cons in Hnd as [Hnotin Hnd].
  destruct H1 as [<-|H1], H2 as [<-|H2]; auto.
  - exfalso. apply Hnotin. rewrite Hid. apply list_elem_of_In, in_map, H2.
  - exfalso. apply Hnotin. rewrite <- Hid. apply list_elem_of_In, in_map, H1.
Qed.

Lemma serialise_lookup_FStr (recordData : gmap string fieldval) field k :
  recordData !! field = Some (FStr k) -> serialise recordData !! field = Some (FStr k).
Proof.
  intros H. unfold serialise. rewrite lookup_omap, H. reflexivity.
Qed.

(** A partial update writes the cell it carries. *)
Lemma formula_holds_patch (recordData : gmap string fieldval) field k r :
  recordData !! field = Some (FStr k) ->
  formula_holds field k (patch (rec_id r) recordData r) = true.
Proof.
  intros H. unfold patch. rewrite Nat.eqb_refl. unfold formula_holds. cbn [rec_fields].
  rewrite (lookup_union_Some_l _ _ _ _ (serialise_lookup_FStr _ _ _ H)).
  apply String.eqb_refl.
Qed.

Lemma formula_holds_created (recordData : gmap string fieldval) field k st :
  recordData !! field = Some (FStr k) ->
  formula_holds field k (created st recordData) = true.
Proof.
  intros H. unfold formula_holds, created. cbn [rec_fields].
  rewrite (serialise_lookup_FStr _ _ _ H). apply String.eqb_refl.
Qed.

(** With a plain value the store filters by the comparison. *)
Lemma formula_filter_plain field k :
  plain_value k = true -> formula_filter env field k = formula_holds field k.
Proof. intros H. unfold formula_filter. rewrite H. reflexivity. Qed.

Lemma holds_key_filter field k rows :
  holds_key field k rows = true <->
  List.filter (formula_holds field k) rows <> [].
Proof.
  unfold holds_key. induction rows as [|r rows IH]; cbn [existsb List.filter].
  - split; [discriminate|congruence].
  - destruct (formula_holds field k r); cbn [orb]; [split; [discriminate|reflexivity]|].
    exact IH.
Qed.

(** One reconciliation by a plain key whose field set carries that key,
    seen from the table it works on: identifiers stay distinct, no key is
    lost, the key reconciled is present afterwards when an identifier came
    back, and the table does not grow when the key was already there. *)
Lemma findOrCreateRecord_keyed t field k recordData w res w' :
  plain_value k = true ->
  recordData !! field = Some (FStr k) ->
  table_wf (store w) t ->
  findOrCreateRecord env t field k recordData w = (res, w') ->
  table_wf (store w') t /\
  (forall k', holds_key field k' (table (store w) t) = true ->
              holds_key field k' (table (store w') t) = true) /\
  (holds_key field k (table (store w) t) = true ->
   List.length (table (store w') t) = List.length (table (store w) t)) /\
  (forall id, res = Ok id -> holds_key field k (table (store w') t) = true).
Proof.
  intros Hplain Hdata [Hnd Hlt] E. apply findOrCreateRecord_cases in E.
  destruct E as [e w' Hs|r rest w' Hsel Hs|w' Hsel Hs]; unfold table_wf; rewrite Hs;
    try rewrite (formula_filter_plain field k Hplain) in Hsel.
  - repeat split; auto. intros id Hid. discriminate Hid.
  - rewrite table_set_table_eq. cbn [next_id set_table].
    destruct (filter_head_In _ _ _ _ Hsel) as [Hin Hr].
    repeat split.
    + rewrite map_rec_id_patch. exact Hnd.
    + rewrite List.Forall_forall in *. intros x Hx.
      apply in_map_iff in Hx as (y & <- & Hy). rewrite patch_rec_id. auto.
    + intros k' Hk'. unfold holds_key in *.
      apply existsb_exists in Hk' as (r1 & Hin1 & Hr1).
      apply existsb_exists. exists (patch (rec_id r) recordData r1).
      split; [apply in_map, Hin1|].
      unfold patch at 1. destruct (Nat.eqb (rec_id r1) (rec_id r)) eqn:Eid; [|exact Hr1].
      apply Nat.eqb_eq in Eid.
      assert (r1 = r) as -> by (eapply rec_id_inj; eauto).
      rewrite <- (formula_holds_functional _ _ _ _ Hr Hr1).
      pose proof (formula_holds_patch recordData field k r Hdata) as Hp.
      unfold patch in Hp. rewrite Nat.eqb_refl in Hp. exact Hp.
    + intros _. apply List.length_map.
    + intros id _. unfold holds_key. apply existsb_exists.
      exists (patch (rec_id r) recordData r).
      split; [apply in_map, Hin|apply formula_holds_patch, Hdata].
  - match goal with
    | |- context [table ?st t] =>
        lazymatch st with
        | store w => fail
        | _ => assert (Ht : table st t = table (store w) t ++ [created (store w) recordData])
                 by (unfold table at 1; cbn [tables]; rewrite lookup_insert_eq; reflexivity)
        end
    end.
    rewrite !Ht. cbn [next_id].
    repeat split.
    + rewrite List.map_app. cbn [List.map created rec_id].
      apply NoDup_app. split; [exact Hnd|]. split; [|apply NoDup_singleton].
      intros x Hx Hx'. apply list_elem_of_In in Hx, Hx'.
      destruct Hx' as [<-|[]]. apply in_map_iff in Hx as (y & Hy & Hin).
      rewrite List.Forall_forall in Hlt. specialize (Hlt y Hin). lia.
    + apply List.Forall_app. split.
      * eapply List.Forall_impl; [|exact Hlt]. cbn. intros; lia.
      * constructor; [cbn; lia|constructor].
    + intros k' Hk'. unfold holds_key in *. rewrite existsb_app, Hk'. reflexivity.
    + intros Hk. apply holds_key_filter in Hk. contradiction.
    + intros id _. unfold holds_key. rewrite existsb_app.
      cbn [existsb]. rewrite (formula_holds_created _ _ _ _ Hdata).
      rewrite orb_true_l, orb_true_r. reflexivity.
Qed.

(** What leaves a table alone keeps all of this. *)
Lemma frames_table_wf t w w' : frames t w w' -> table_wf (store w) t -> table_wf (store w') t.
Proof.
  intros [Ht Hn] [Hnd Hlt]. unfold table_wf. rewrite Ht. split; [exact Hnd|].
  eapply List.Forall_impl; [|exact Hlt]. cbn. intros; lia.
Qed.

End Keys.

(* ===================================================================== *)
(** ** Bill sync and the Bills table                                     *)
(* ===================================================================== *)

Section FieldSets.

Lemma lookup_set_if_truthy key v (m : gmap string fieldval) k :
  set_if_truthy key v m !! k =
  if Js.truthy v && String.eqb key k then Some (FStr (Js.or_empty v)) else m !! k.
Proof.
  unfold set_if_truthy. destruct (Js.truthy v); cbn [andb]; [|reflexivity].
  destruct (String.eqb_spec key k) as [->|Hne].
  - apply lookup_insert_eq.
  - apply lookup_insert_ne, Hne.
Qed.

Lemma lookup_set_links key ids (m : gmap string fieldval) k :
  set_links key ids m !! k =
  if (0 <? List.length ids)%nat && String.eqb key k
  then Some (FLinks (firstn 10 ids)) else m !! k.
Proof.
  unfold set_links.
  assert (Hf : List.filter (fun _ : nat => true) ids = ids).
  { induction ids as [|x ids IH]; cbn; congruence. }
  rewrite Hf. destruct (0 <? List.length ids)%nat; cbn [andb]; [|reflexivity].
  destruct (String.eqb_spec key k) as [->|Hne].
  - apply lookup_insert_eq.
  - apply lookup_insert_ne, Hne.
Qed.

Lemma lookup_insert_eqb (m : gmap string fieldval) key v k :
  <[key := v]> m !! k = if String.eqb key k then Some v else m !! k.
Proof.
  destruct (String.eqb_spec key k) as [->|Hne].
  - apply lookup_insert_eq.
  - apply lookup_insert_ne, Hne.
Qed.

End FieldSets.

(** Reads one cell of a field set built by the sync units. *)
Ltac read_cell :=
  repeat first
    [ rewrite lookup_set_links
    | rewrite lookup_set_if_truthy
    | rewrite lookup_insert_eqb
    | rewrite lookup_empty
    | match goal with
      | |- context [(if ?b then <[ _ := _ ]> ?m else ?m) !! _] => destruct b
      | |- context [match ?l with [] => ?m | _ :: _ => <[ _ := _ ]> ?m end !! _] =>
          destruct l
      | |- context [match ?l with [] => ?m | _ :: _ => <[ _ := _ ]> _ end !! _] =>
          destruct l
      end ];
  cbn [String.eqb Ascii.eqb Bool.eqb andb];
  rewrite ?andb_false_r, ?andb_true_r; cbn beta iota.

Section BillsTable.

Context (env : Env) (state : string).

(** The field set of a bill always carries the bill's external key. *)
Lemma billRecordData_key bill sponsorIds subjectIds :
  billRecordData env state bill sponsorIds subjectIds !! "OpenStates ID" =
  Some (FStr (Js.or_empty (bill_id bill))).
Proof.
  unfold billRecordData. read_cell; reflexivity.
Qed.

Lemma truthy_template v : Js.truthy v = true -> Js.template v = Js.or_empty v.
Proof. destruct v as [[|c s]|]; try discriminate; reflexivity. Qed.

Lemma frames_bills_of {A} (m : M A) w :
  preserves (frames "Bills") m ->
  table_wf (store w) "Bills" ->
  table_wf (store (snd (m w))) "Bills" /\
  table (store (snd (m w))) "Bills" = table (store w) "Bills".
Proof.
  intros Hm Hwf. specialize (Hm w). split; [eapply frames_table_wf; eauto|apply Hm].
Qed.

(** One bill, seen from the Bills table. *)
Lemma syncBill_bills bill w res w' :
  keyed_bill bill = true ->
  table_wf (store w) "Bills" ->
  syncBill env state bill w = (res, w') ->
  table_wf (store w') "Bills" /\
  (forall k, holds_key "OpenStates ID" k (table (store w) "Bills") = true ->
             holds_key "OpenStates ID" k (table (store w') "Bills") = true) /\
  (holds_key "OpenStates ID" (Js.or_empty (bill_id bill)) (table (store w) "Bills") = true ->
   List.length (table (store w') "Bills") = List.length (table (store w) "Bills")) /\
  (res = Ok tt ->
   holds_key "OpenStates ID" (Js.or_empty (bill_id bill)) (table (store w') "Bills") = true) /\
  (no_store_fault env -> res = Ok tt).
Proof.
  intros Hkeyed Hwf E. apply andb_prop in Hkeyed as [Hid Hplain]. unfold syncBill in E.
  set (legis := match bill_sponsorships bill with
                | [] => ret []
                | _ :: _ => syncLegislators env (sponsors bill)
                end) in E.
  set (subj := match bill_subject bill with
               | [] => ret []
               | _ :: _ => syncSubjects env (bill_subject bill)
               end) in E.
  assert (Hl : preserves (frames "Bills") legis /\ total legis).
  { subst legis. destruct (bill_sponsorships bill).
    - split; [apply preserves_ret, frames_refl|apply total_ret].
    - split; [apply syncLegislators_frames; discriminate|apply total_syncLegislators]. }
  assert (Hs : preserves (frames "Bills") subj /\ total subj).
  { subst subj. destruct (bill_subject bill).
    - split; [apply preserves_ret, frames_refl|apply total_ret].
    - split; [apply syncSubjects_frames; discriminate|apply total_syncSubjects]. }
  destruct Hl as [Hlf Hlt], Hs as [Hsf Hst].
  unfold bind at 1 in E.
  destruct (Hlt w) as [sponsorIds Hsp].
  destruct (frames_bills_of legis w Hlf Hwf) as [Hwf1 Ht1].
  destruct (legis w) as [r1 w1]. cbn [fst snd] in *. subst r1.
  unfold bind at 1 in E.
  destruct (Hst w1) as [subjectIds Hsu].
  destruct (frames_bills_of subj w1 Hsf Hwf1) as [Hwf2 Ht2].
  destruct (subj w1) as [r2 w2]. cbn [fst snd] in *. subst r2.
  unfold bind at 1 in E. rewrite (truthy_template _ Hid) in E.
  destruct (findOrCreateRecord env "Bills" "OpenStates ID" (Js.or_empty (bill_id bill))
              (billRecordData env state bill sponsorIds subjectIds) w2)
    as [r3 w3] eqn:E3.
  pose proof (findOrCreateRecord_keyed env _ _ _ _ _ _ _ Hplain
                (billRecordData_key bill sponsorIds subjectIds) Hwf2 E3)
    as (Hwf3 & Hkeep & Hlen & Hnew).
  pose proof (findOrCreateRecord_no_fault env "Bills" "OpenStates ID"
                (Js.or_empty (bill_id bill))
                (billRecordData env state bill sponsorIds subjectIds) w2) as Hok.
  rewrite E3 in Hok. cbn [fst] in Hok.
  rewrite Ht2, Ht1 in Hkeep, Hlen.
  destruct r3 as [id|e]; run; injection E as <- <-.
  - split; [exact Hwf3|]. repeat split; eauto.
  - split; [exact Hwf3|]. repeat split; auto; try discriminate.
    intros Hnf. destruct (Hok Hnf) as [id Hid']. discriminate.
Qed.

(** The loop over the bills of one jurisdiction, seen from the Bills table. *)
Lemma syncBills_loop_bills bills : forall syncedCount w res w',
  Forall (fun b => keyed_bill b = true) bills ->
  table_wf (store w) "Bills" ->
  syncBills_loop env state bills syncedCount w = (res, w') ->
  table_wf (store w') "Bills" /\
  (forall k, holds_key "OpenStates ID" k (table (store w) "Bills") = true ->
             holds_key "OpenStates ID" k (table (store w') "Bills") = true) /\
  (Forall (fun b => holds_key "OpenStates ID" (Js.or_empty (bill_id b))
                      (table (store w) "Bills") = true) bills ->
   List.length (table (store w') "Bills") = List.length (table (store w) "Bills")) /\
  (no_store_fault env ->
   Forall (fun b => holds_key "OpenStates ID" (Js.or_empty (bill_id b))
                      (table (store w') "Bills") = true) bills /\
   res = Ok (syncedCount + List.length bills)).
Proof.
  induction bills as [|bill bills IH]; intros syncedCount w res w' Hids Hwf E.
  - cbn in E. injection E as <- <-. split; [exact Hwf|]. repeat split; auto.
  - cbn [syncBills_loop] in E. apply Forall_cons in Hids as [Hid Hids].
    unfold bind at 1, try_catch at 1, bind at 1 in E.
    destruct (syncBill env state bill w) as [r1 w1] eqn:E1.
    destruct (syncBill_bills bill w r1 w1 Hid Hwf E1)
      as (Hwf1 & Hkeep1 & Hlen1 & Hnew1 & Hok1).
    assert (E' : exists n, syncBills_loop env state bills n w1 = (res, w') /\
                           (r1 = Ok tt -> n = S syncedCount)).
    { destruct r1 as [[]|e]; run; eauto. exists syncedCount. split; [exact E|discriminate]. }
    destruct E' as (n & E' & Hn).
    destruct (IH n w1 res w' Hids Hwf1 E') as (Hwf' & Hkeep' & Hlen' & Hnew').
    split; [exact Hwf'|]. repeat split; auto.
    + intros Hall. apply Forall_cons in Hall as [Hb Hall].
      rewrite Hlen', Hlen1; auto.
      eapply List.Forall_impl; [|exact Hall]. cbn. intros b. apply Hkeep1.
    + apply Forall_cons. destruct (Hnew' H) as [Hall _]. split; [|exact Hall].
      apply Hkeep', Hnew1, Hok1, H.
    + destruct (Hnew' H) as [_ ->]. rewrite (Hn (Hok1 H)).
      cbn [List.length]. f_equal. lia.
Qed.

End BillsTable.

(* ===================================================================== *)
(** ** Reconciliation and idempotence of the bill sync                   *)
(* ===================================================================== *)

Lemma findOrCreateRecord_found_or_created env t field value recordData w :
  no_store_fault env ->
  plain_value value = true ->
  match List.filter (formula_holds field value) (table (store w) t) with
  | r :: _ =>
      fst (findOrCreateRecord env t field value recordData w) = Ok (rec_id r) /\
      table (store (snd (findOrCreateRecord env t field value recordData w))) t =
        List.map (patch (rec_id r) recordData) (table (store w) t)
  | [] =>
      fst (findOrCreateRecord env t field value recordData w) = Ok (next_id (store w)) /\
      table (store (snd (findOrCreateRecord env t field value recordData w))) t =
        table (store w) t ++ [created (store w) recordData]
  end.
Proof.
  intros Hnf Hplain.
  destruct (findOrCreateRecord_no_fault env t field value recordData w Hnf) as [id Hid].
  destruct (findOrCreateRecord env t field value recordData w) as [res w'] eqn:E.
  apply findOrCreateRecord_cases in E. cbn [fst snd] in *. subst res.
  inversion E as [|r rest w0 Hsel Hs|w0 Hsel Hs]; subst;
    rewrite (formula_filter_plain env field value Hplain) in Hsel; rewrite Hsel, Hs.
  - split; [reflexivity|apply table_set_table_eq].
  - split; [reflexivity|]. unfold table at 1. cbn [tables].
    rewrite lookup_insert_eq. reflexivity.
Qed.

Lemma syncBills_second_run env state limit bills w :
  no_store_fault env ->
  (forall n, bills_api env n (Js.toLowerCase state) limit = Ok (Some bills)) ->
  Forall (fun b => keyed_bill b = true) bills ->
  table_wf (store w) "Bills" ->
  List.length (table (store (snd (syncBills env state limit
                                    (snd (syncBills env state limit w))))) "Bills") =
  List.length (table (store (snd (syncBills env state limit w))) "Bills").
Proof.
  intros Hnf Hapi Hids Hwf.
  assert (Hrun : forall w0, table_wf (store w0) "Bills" ->
            exists n w1,
              syncBills_loop env state bills 0
                (log (EvBills (Js.toLowerCase state) limit) w0) = (Ok n, w1) /\
              snd (syncBills env state limit w0) = w1).
  { intros w0 Hwf0. unfold syncBills, fetchBills. run. rewrite Hapi.
    change (default [] (Some bills)) with bills.
    destruct (syncBills_loop env state bills 0
                (log (EvBills (Js.toLowerCase state) limit) w0)) as [r w1] eqn:E.
    destruct (syncBills_loop_bills env state bills 0
                (log (EvBills (Js.toLowerCase state) limit) w0) r w1 Hids Hwf0 E)
      as (_ & _ & _ & Hnew).
    destruct (Hnew Hnf) as [_ ->]. eexists _, w1. split; reflexivity. }
  destruct (Hrun w Hwf) as (n1 & w1 & E1 & ->).
  destruct (syncBills_loop_bills env state bills 0
              (log (EvBills (Js.toLowerCase state) limit) w) _ w1 Hids Hwf E1)
    as (Hwf1 & _ & _ & Hnew1).
  destruct (Hnew1 Hnf) as [Hall _].
  destruct (Hrun w1 Hwf1) as (n2 & w2 & E2 & ->).
  destruct (syncBills_loop_bills env state bills 0
              (log (EvBills (Js.toLowerCase state) limit) w1) _ w2 Hids Hwf1 E2)
    as (_ & _ & Hlen2 & _).
  apply Hlen2, Hall.
Qed.

(** C1, amended.  The key value is pasted between the quotes of the filter
    formula, so the claim is about plain key values, without apostrophe or
    backslash.  With a store that answers, reconciling such a key that some
    record of the collection holds applies the partial update to the first
    such record and returns its identifier, and the collection keeps its
    records; when no record holds the key, exactly one record with the
    field set is appended and its fresh identifier returned.  Hence, for
    bills that each carry a non-empty plain external identifier and a store
    whose record identifiers are distinct, a second bill sync over the same
    upstream answer leaves the number of Bill records as the first one left
    it. *)
Theorem findOrCreateRecord_upserts :
  (forall env t field value recordData w,
     no_store_fault env ->
     plain_value value = true ->
     let rows := table (store w) t in
     let out := findOrCreateRecord env t field value recordData w in
     match List.filter (formula_holds field value) rows with
     | r :: _ =>
         fst out = Ok (rec_id r) /\
         table (store (snd out)) t = List.map (patch (rec_id r) recordData) rows /\
         List.length (table (store (snd out)) t) = List.length rows
     | [] =>
         fst out = Ok (next_id (store w)) /\
         table (store (snd out)) t = rows ++ [created (store w) recordData]
     end) /\
  (forall env state limit bills w,
     no_store_fault env ->
     (forall n, bills_api env n (Js.toLowerCase state) limit = Ok (Some bills)) ->
     Forall (fun b => keyed_bill b = true) bills ->
     table_wf (store w) "Bills" ->
     let w1 := snd (syncBills env state limit w) in
     let w2 := snd (syncBills env state limit w1) in
     List.length (table (store w2) "Bills") = List.length (table (store w1) "Bills")).
Proof.
  split.
  - intros env t field value recordData w Hnf Hplain rows out.
    pose proof (findOrCreateRecord_found_or_created env t field value recordData w Hnf Hplain)
      as H.
    fold rows out in H. destruct (List.filter (formula_holds field value) rows).
    + exact H.
    + destruct H as [H1 H2]. repeat split; auto. rewrite H2. apply List.length_map.
  - intros env state limit bills w Hnf Hapi Hids Hwf. cbn zeta.
    apply syncBills_second_run with (bills := bills); assumption.
Qed.

Lemma findOrCreateRecord_upserts_witness :
  (let out := findOrCreateRecord (calm_env []) "Subjects" "Subject Name" "Water"
                (<["Subject Name" := FStr "Water"]> ∅) empty_world in
   fst out = Ok 0 /\
   table (store (snd out)) "Subjects" =
     [created (store empty_world) (<["Subject Name" := FStr "Water"]> ∅)]) /\
  (let w1 := snd (syncBills (calm_env sample_bills) "ca" 50 empty_world) in
   let w2 := snd (syncBills (calm_env sample_bills) "ca" 50 w1) in
   List.length (table (store w2) "Bills") = List.length (table (store w1) "Bills")).
Proof.
  destruct findOrCreateRecord_upserts as [Hupsert Hidem]. split.
  - apply (Hupsert (calm_env []) "Subjects" "Subject Name" "Water"
             (<["Subject Name" := FStr "Water"]> ∅) empty_world).
    + intros n ev. reflexivity.
    + reflexivity.
  - apply (Hidem (calm_env sample_bills) "ca" 50 sample_bills empty_world).
    + intros n ev. reflexivity.
    + intros n. reflexivity.
    + repeat constructor.
    + split; constructor.
Defined.

(** C1 as first stated fails on a bill without external identifier: the
    reconciler searches the text [undefined], the record it writes holds the
    empty text, so the search never finds it and every sync appends one more
    Bill record, with a store that answers every request. *)
Lemma syncBills_unkeyed_bill_duplicates :
  let env := calm_env [unkeyed_bill] in
  let w1 := snd (syncBills env "ca" 50 empty_world) in
  let w2 := snd (syncBills env "ca" 50 w1) in
  no_store_fault env /\
  table_wf (store empty_world) "Bills" /\
  In (EvSelect "Bills" "OpenStates ID" "undefined") (trace w2) /\
  List.length (table (store w1) "Bills") = 1 /\
  List.length (table (store w2) "Bills") = 2.
Proof.
  cbv zeta. split; [intros n ev; reflexivity|]. split; [split; constructor|].
  split; [vm_compute; tauto|]. split; vm_compute; reflexivity.
Qed.

(** What a key with an apostrophe or a backslash comes to depends on the
    store: the reconciler filters by whatever the store reads in the pasted
    text, not by the comparison with the key. *)
Lemma findOrCreateRecord_pasted_key env t field value recordData w :
  plain_value value = false ->
  focr_outcome env t field value recordData w
    (fst (findOrCreateRecord env t field value recordData w))
    (snd (findOrCreateRecord env t field value recordData w)) /\
  formula_filter env field value = formula_language env (formula_text field value).
Proof.
  intros H. split; [apply findOrCreateRecord_outcome|].
  unfold formula_filter. rewrite H. reflexivity.
Qed.

(* ===================================================================== *)
(** ** Chunked people lookup                                             *)
(* ===================================================================== *)

Section PeopleCalls.

Context (env : Env).

Lemma people_calls_log ev w :
  people_calls (log ev w) =
  people_calls w ++ match ev with EvPeople ids => [ids] | _ => [] end.
Proof.
  unfold people_calls, log. cbn [trace rev].
  rewrite omap_app. cbn [omap list_omap]. destruct ev; reflexivity.
Qed.

(** The store operations make no people request. *)
Lemma select_quiet t field value :
  preserves (fun w w' => people_calls w' = people_calls w) (select env t field value).
Proof.
  intros w. unfold select. destruct (store_fault _ _ _); cbn [snd];
    rewrite people_calls_log; apply app_nil_r.
Qed.

Lemma update_quiet t id recordData :
  preserves (fun w w' => people_calls w' = people_calls w) (update env t id recordData).
Proof.
  intros w. unfold update. destruct (store_fault _ _ _); cbn [snd].
  - rewrite people_calls_log. apply app_nil_r.
  - destruct (existsb _ _); cbn [snd].
    + change (people_calls (log (EvUpdate t id) w) = people_calls w).
      rewrite people_calls_log. apply app_nil_r.
    + rewrite people_calls_log. apply app_nil_r.
Qed.

Lemma create_quiet t recordData :
  preserves (fun w w' => people_calls w' = people_calls w) (create env t recordData).
Proof.
  intros w. unfold create. destruct (store_fault _ _ _); cbn [snd].
  - rewrite people_calls_log. apply app_nil_r.
  - change (people_calls (log (EvCreate t) w) = people_calls w).
    rewrite people_calls_log. apply app_nil_r.
Qed.

Lemma findOrCreateRecord_quiet t field value recordData :
  preserves (fun w w' => people_calls w' = people_calls w)
            (findOrCreateRecord env t field value recordData).
Proof.
  assert (Hr : forall w : World, people_calls w = people_calls w) by reflexivity.
  assert (Ht : forall w1 w2 w3 : World,
             people_calls w2 = people_calls w1 -> people_calls w3 = people_calls w2 ->
             people_calls w3 = people_calls w1) by (intros; congruence).
  unfold findOrCreateRecord.
  apply preserves_try_catch; [exact Ht| |intros e; apply preserves_throw, Hr].
  apply preserves_bind; [exact Ht|apply select_quiet|].
  intros [|r rows].
  - apply preserves_bind; [exact Ht|apply create_quiet|].
    intros a. apply preserves_ret, Hr.
  - apply preserves_bind; [exact Ht|apply update_quiet|].
    intros a. apply preserves_ret, Hr.
Qed.

Lemma forEach_collect_quiet {A} (f : A -> M nat) xs ids :
  (forall x, preserves (fun w w' => people_calls w' = people_calls w) (f x)) ->
  preserves (fun w w' => people_calls w' = people_calls w) (forEach_collect f xs ids).
Proof.
  intros Hf. apply preserves_forEach_collect; [reflexivity|intros; congruence|exact Hf].
Qed.

(** One pass of the chunk loop: one request, and the answer absorbed; a
    failed request leaves the map as it was. *)
Lemma fetchChunk_run chunk peopleMap w :
  fetchChunk env chunk peopleMap w =
  (Ok (absorb (people_api env (clock w) chunk) peopleMap), log (EvPeople chunk) w).
Proof.
  unfold fetchChunk, fetchPeople, absorb. run.
  destruct (people_api env (clock w) chunk) as [[results|]|e]; reflexivity.
Qed.

Lemma fetchChunks_step fuel ids i peopleMap w :
  i < List.length ids ->
  fetchChunks env (S fuel) ids i peopleMap w =
  fetchChunks env fuel ids (i + chunkSize)
    (absorb (people_api env (clock w) (firstn chunkSize (skipn i ids))) peopleMap)
    (log (EvPeople (firstn chunkSize (skipn i ids))) w).
Proof.
  intros Hi. cbn [fetchChunks].
  destruct (Nat.ltb_spec i (List.length ids)); [|lia].
  unfold bind. rewrite fetchChunk_run. reflexivity.
Qed.

Lemma fetchChunks_done fuel ids i peopleMap w :
  List.length ids <= i -> fetchChunks env fuel ids i peopleMap w = (Ok peopleMap, w).
Proof.
  intros Hi. destruct fuel; cbn [fetchChunks]; [reflexivity|].
  destruct (Nat.ltb_spec i (List.length ids)); [lia|reflexivity].
Qed.

(** The loop makes one request per started chunk of ten identifiers, and
    the fuel it is given, the number of identifiers, is never exhausted. *)
Lemma fetchChunks_calls fuel ids : forall i peopleMap w,
  List.length ids - i <= fuel ->
  List.length (people_calls (snd (fetchChunks env fuel ids i peopleMap w))) =
  List.length (people_calls w) + (List.length ids - i + 9) / 10.
Proof.
  induction fuel as [|fuel IH]; intros i peopleMap w Hfuel.
  - rewrite fetchChunks_done by lia. cbn [snd].
    replace (List.length ids - i + 9) with 9 by lia. cbn. lia.
  - destruct (Nat.ltb_spec i (List.length ids)) as [Hi|Hi].
    + rewrite fetchChunks_step by exact Hi. rewrite IH by (unfold chunkSize; lia).
      rewrite people_calls_log, List.length_app. cbn [List.length]. unfold chunkSize.
      destruct (Nat.le_gt_cases 10 (List.length ids - i)) as [Hfull|Hlast].
      * replace (List.length ids - i + 9)
          with (List.length ids - (i + 10) + 9 + 1 * 10) by lia.
        rewrite Nat.div_add by lia. lia.
      * replace (List.length ids - (i + 10) + 9) with 9 by lia.
        replace ((List.length ids - i + 9) / 10) with 1; [cbn; lia|].
        apply Nat.div_unique with (r := List.length ids - i - 1); lia.
    + rewrite fetchChunks_done by lia. cbn [snd].
      replace (List.length ids - i + 9) with 9 by lia. cbn. lia.
Qed.

End PeopleCalls.

Lemma personIds_nonempty people : personIds people <> [] -> people <> [].
Proof. intros H ->. apply H. reflexivity. Qed.

Lemma try_catch_total {A} (m : M A) h w : total m -> try_catch m h w = m w.
Proof.
  intros Hm. unfold try_catch. destruct (Hm w) as [a Ha].
  destruct (m w) as [[a'|e] w']; [reflexivity|discriminate].
Qed.

Lemma syncLegislators_run25 env people w :
  List.length (personIds people) = 25 ->
  syncLegislators env people w =
  forEach_collect
    (syncPerson env
       (absorb (people_api env (S (S (clock w))) (firstn 10 (skipn 20 (personIds people))))
          (absorb (people_api env (S (clock w)) (firstn 10 (skipn 10 (personIds people))))
             (absorb (people_api env (clock w) (firstn 10 (personIds people))) ∅))))
    people []
    (log (EvPeople (firstn 10 (skipn 20 (personIds people))))
       (log (EvPeople (firstn 10 (skipn 10 (personIds people))))
          (log (EvPeople (firstn 10 (personIds people))) w))).
Proof.
  intros Hlen. unfold syncLegislators.
  destruct people as [|p people']; [cbn in Hlen; discriminate Hlen|].
  set (ppl := p :: people') in *.
  rewrite try_catch_total.
  2:{ destruct (personIds ppl); [apply total_ret|].
      apply total_bind; [apply total_fetchChunks|intros m; apply total_forEach_collect]. }
  destruct (personIds ppl) as [|i0 ids0] eqn:Hids; [discriminate Hlen|].
  unfold bind. rewrite Hlen.
  unfold chunkSize.
  rewrite fetchChunks_step by lia. rewrite fetchChunks_step by (unfold chunkSize; lia).
  rewrite fetchChunks_step by (unfold chunkSize; lia).
  rewrite fetchChunks_done by (unfold chunkSize; lia).
  reflexivity.
Qed.

(** The map the chunk loop builds is the result map of its answers. *)
Lemma find_app {A} (f : A -> bool) (l1 l2 : list A) :
  List.find f (l1 ++ l2) =
  match List.find f l1 with
  | Some x => Some x
  | None => List.find f l2
  end.
Proof.
  induction l1 as [|x l1 IH]; [reflexivity|].
  cbn [List.app List.find]. destruct (f x); [reflexivity|exact IH].
Qed.

Lemma add_people_lookup results :
  forall (peopleMap : gmap (option string) Person) (id : option string),
  add_people results peopleMap !! id =
  match List.find (fun person => bool_decide (person_id person = id)) (rev results) with
  | Some person => Some person
  | None => peopleMap !! id
  end.
Proof.
  unfold add_people.
  induction results as [|p results IH]; intros peopleMap id; [reflexivity|].
  cbn [fold_left rev]. rewrite IH, find_app. cbn [List.find].
  destruct (List.find _ (rev results)); [reflexivity|].
  destruct (bool_decide_reflect (person_id p = id)) as [->|Hne].
  - apply lookup_insert_eq.
  - apply lookup_insert_ne. exact Hne.
Qed.

Lemma absorb_lookup (answer : Result (option (list Person)))
    (peopleMap : gmap (option string) Person) (id : option string) :
  absorb answer peopleMap !! id =
  match List.find (fun person => bool_decide (person_id person = id))
          (rev (answer_results answer)) with
  | Some person => Some person
  | None => peopleMap !! id
  end.
Proof.
  destruct answer as [[results|]|e]; cbn [absorb answer_results rev List.find];
    [apply add_people_lookup|reflexivity|reflexivity].
Qed.

Lemma absorbed_details (a1 a2 a3 : Result (option (list Person))) (id : option string) :
  absorb a3 (absorb a2 (absorb a1 (∅ : gmap (option string) Person))) !! id =
  fetched_details [a1; a2; a3] id.
Proof.
  rewrite !absorb_lookup. unfold fetched_details, fetched. cbn [flat_map].
  rewrite List.app_nil_r, !rev_app_distr, !find_app.
  destruct (List.find _ (rev (answer_results a3))); [reflexivity|].
  destruct (List.find _ (rev (answer_results a2))); [reflexivity|].
  destruct (List.find _ (rev (answer_results a1))); [reflexivity|].
  apply lookup_empty.
Qed.

Lemma forEach_collect_ext {A} (f g : A -> M nat) xs :
  (forall x w, f x w = g x w) ->
  forall ids w, forEach_collect f xs ids w = forEach_collect g xs ids w.
Proof.
  intros Hfg. induction xs as [|x xs IH]; intros ids w; [reflexivity|].
  cbn [forEach_collect]. unfold bind at 1 3, try_catch, bind. rewrite Hfg.
  destruct (g x w) as [[id|e] w1]; cbn [ret]; apply IH.
Qed.

(** C5.  When the stubs carry twenty-five distinct person identifiers the
    legislator sync makes exactly three people requests, for the first ten,
    the next ten and the last five identifiers, whatever the answers.  It
    then reconciles every stub from the details the requests that succeeded
    returned for its identifier, and from the stub itself when the
    identifier is absent from those results: a request that fails takes
    away its own results only.  The sync returns its list of record
    identifiers whatever the requests did, so the bill sync that called it
    goes on. *)
Theorem syncLegislators_chunked_lookup env people w :
  List.length (personIds people) = 25 ->
  let ids := personIds people in
  let c1 := firstn 10 ids in
  let c2 := firstn 10 (skipn 10 ids) in
  let c3 := firstn 10 (skipn 20 ids) in
  let a1 := people_api env (clock w) c1 in
  let a2 := people_api env (S (clock w)) c2 in
  let a3 := people_api env (S (S (clock w))) c3 in
  let out := syncLegislators env people w in
  people_calls (snd out) = people_calls w ++ [c1; c2; c3] /\
  (List.length c1 = 10 /\ List.length c2 = 10 /\ List.length c3 = 5) /\
  out = forEach_collect
          (fun stub =>
             findOrCreateRecord env "Legislators" "OpenStates ID"
               (Js.template (person_id (details_or_stub [a1; a2; a3] stub)))
               (legislatorRecordData (details_or_stub [a1; a2; a3] stub)))
          people []
          (log (EvPeople c3) (log (EvPeople c2) (log (EvPeople c1) w))) /\
  (forall stub details,
     fetched_details [a1; a2; a3] (person_id stub) = Some details ->
     details_or_stub [a1; a2; a3] stub = details /\
     In details (answer_results a1 ++ answer_results a2 ++ answer_results a3)) /\
  (forall stub,
     (forall details,
        In details (answer_results a1 ++ answer_results a2 ++ answer_results a3) ->
        person_id details <> person_id stub) ->
     details_or_stub [a1; a2; a3] stub = stub) /\
  (exists legislatorIds, fst out = Ok legislatorIds).
Proof.
  intros Hlen ids c1 c2 c3 a1 a2 a3 out.
  pose proof (syncLegislators_run25 env people w Hlen) as Hrun.
  fold ids c1 c2 c3 a1 a2 a3 out in Hrun. change (firstn 10 ids) with c1 in Hrun.
  assert (Hdata : forall stub w0,
            syncPerson env (absorb a3 (absorb a2 (absorb a1 ∅))) stub w0 =
            findOrCreateRecord env "Legislators" "OpenStates ID"
              (Js.template (person_id (details_or_stub [a1; a2; a3] stub)))
              (legislatorRecordData (details_or_stub [a1; a2; a3] stub)) w0).
  { intros stub w0. unfold syncPerson, fullPersonData, details_or_stub.
    rewrite absorbed_details. reflexivity. }
  assert (Hfetched : fetched [a1; a2; a3] =
                     answer_results a1 ++ answer_results a2 ++ answer_results a3).
  { unfold fetched. cbn [flat_map]. rewrite List.app_nil_r. reflexivity. }
  split; [|split; [|split; [|split; [|split]]]].
  - rewrite Hrun.
    pose proof (forEach_collect_quiet
                  (syncPerson env (absorb a3 (absorb a2 (absorb a1 ∅)))) people []
                  (fun x => findOrCreateRecord_quiet env _ _ _ _)
                  (log (EvPeople c3) (log (EvPeople c2) (log (EvPeople c1) w)))) as Hq.
    cbn beta in Hq. rewrite Hq, !people_calls_log, <- !app_assoc. reflexivity.
  - subst c1 c2 c3. rewrite !length_take, !length_drop. fold ids in Hlen. lia.
  - rewrite Hrun. apply forEach_collect_ext, Hdata.
  - intros stub details Hd. split.
    + unfold details_or_stub. rewrite Hd. reflexivity.
    + unfold fetched_details in Hd. apply List.find_some in Hd as [Hin _].
      apply in_rev in Hin. rewrite <- Hfetched. exact Hin.
  - intros stub Hnone. unfold details_or_stub, fetched_details.
    destruct (List.find _ (rev (fetched [a1; a2; a3]))) as [details|] eqn:Hd;
      [|reflexivity].
    apply List.find_some in Hd as [Hin Hid]. apply in_rev in Hin.
    rewrite Hfetched in Hin. apply bool_decide_eq_true in Hid.
    destruct (Hnone details Hin Hid).
  - apply total_syncLegislators.
Qed.

Lemma syncLegislators_chunked_lookup_witness :
  let out := syncLegislators flaky_env people25 empty_world in
  List.map (@List.length string) (people_calls (snd out)) = [10; 10; 5] /\
  fst out = Ok (seq 0 25) /\
  List.map (fun r => rec_fields r !! "Party")
    (List.filter (formula_holds "OpenStates ID" "ocd-person/3")
       (table (store (snd out)) "Legislators")) = [Some (FStr "Independent")] /\
  List.map (fun r => (rec_fields r !! "Full Name", rec_fields r !! "Party"))
    (List.filter (formula_holds "OpenStates ID" "ocd-person/12")
       (table (store (snd out)) "Legislators")) = [(Some (FStr "Member 12"), None)].
Proof.
  destruct (syncLegislators_chunked_lookup flaky_env people25 empty_world)
    as (Hcalls & _ & Hrun & _).
  - vm_compute. reflexivity.
  - cbv zeta. split; [|split; [|split]].
    + rewrite Hcalls. vm_compute. reflexivity.
    + rewrite Hrun. vm_compute. reflexivity.
    + rewrite Hrun. vm_compute. reflexivity.
    + rewrite Hrun. vm_compute. reflexivity.
Defined.

(* ===================================================================== *)
(** ** Field sets of legislators and bills                               *)
(* ===================================================================== *)

Section LegislatorFields.

Lemma info_phone_absent p :
  opt_attr (first_office p) office_voice = None -> info_phone (extractOfficeInfo p) = None.
Proof.
  unfold extractOfficeInfo. cbn [info_phone].
  destruct (first_office p) as [o|]; cbn [opt_attr]; [|reflexivity].
  intros ->. reflexivity.
Qed.

Lemma info_address_absent p :
  opt_attr (first_office p) office_address = None ->
  info_address (extractOfficeInfo p) = None.
Proof.
  unfold extractOfficeInfo. cbn [info_address].
  destruct (first_office p) as [o|]; cbn [opt_attr]; [|reflexivity].
  intros ->. reflexivity.
Qed.

Lemma info_links_absent p : person_links p = None -> info_links (extractOfficeInfo p) = [].
Proof. unfold extractOfficeInfo. cbn [info_links]. intros ->. reflexivity. Qed.

Lemma person_district_absent p :
  opt_attr (person_current_role p) role_district = None -> person_district p = "".
Proof. unfold person_district. intros ->. reflexivity. Qed.

End LegislatorFields.

(** Reads a cell whose source attribute is known to be missing. *)
Ltac absent_cell H :=
  unfold legislatorRecordData;
  rewrite ?(info_phone_absent _ H), ?(info_address_absent _ H),
          ?(info_links_absent _ H), ?(person_district_absent _ H), ?H;
  read_cell; reflexivity.

(** C7, amended.  The field set of a legislator is sparse in its thirteen
    optional cells: when the upstream attribute is missing the cell is not
    part of the field set.  The two base cells, Full Name and OpenStates ID,
    are always part of it, with the empty text when the attribute is
    missing.  This is the field set the legislator sync hands to the
    reconciler. *)
Theorem legislatorRecordData_sparse (p : Person) :
  (person_given_name p = None -> legislatorRecordData p !! "First Name" = None) /\
  (person_family_name p = None -> legislatorRecordData p !! "Last Name" = None) /\
  (opt_attr (person_current_role p) role_district = None ->
     legislatorRecordData p !! "District" = None) /\
  (person_image p = None -> legislatorRecordData p !! "Photo URL" = None) /\
  (person_biography p = None -> legislatorRecordData p !! "Biography" = None) /\
  (person_email p = None -> legislatorRecordData p !! "Contact Email" = None) /\
  (person_party p = None -> legislatorRecordData p !! "Party" = None) /\
  (opt_attr (person_current_role p) role_org_classification = None ->
     legislatorRecordData p !! "Chamber" = None) /\
  (opt_attr (person_jurisdiction p) pj_name = None ->
     legislatorRecordData p !! "State" = None) /\
  (opt_attr (person_current_role p) role_title = None ->
     legislatorRecordData p !! "Title" = None) /\
  (opt_attr (first_office p) office_voice = None ->
     legislatorRecordData p !! "Phone" = None) /\
  (opt_attr (first_office p) office_address = None ->
     legislatorRecordData p !! "Office Address" = None) /\
  (person_links p = None -> legislatorRecordData p !! "Links" = None) /\
  legislatorRecordData p !! "Full Name" = Some (FStr (Js.or_empty (person_name p))) /\
  legislatorRecordData p !! "OpenStates ID" = Some (FStr (Js.or_empty (person_id p))) /\
  (forall env peopleMap person,
     fullPersonData peopleMap person = p ->
     syncPerson env peopleMap person =
     findOrCreateRecord env "Legislators" "OpenStates ID"
       (Js.template (person_id p)) (legislatorRecordData p)).
Proof.
  repeat match goal with |- _ /\ _ => split end;
    try (intros H; absent_cell H).
  - unfold legislatorRecordData. read_cell; reflexivity.
  - unfold legislatorRecordData. read_cell; reflexivity.
  - intros env peopleMap person <-. reflexivity.
Qed.

Lemma legislatorRecordData_sparse_witness :
  legislatorRecordData (numbered_stub 3) !! "First Name" = None /\
  legislatorRecordData (numbered_stub 3) !! "Phone" = None /\
  legislatorRecordData (numbered_stub 3) !! "Links" = None.
Proof.
  destruct (legislatorRecordData_sparse (numbered_stub 3))
    as (Hfirst & _ & _ & _ & _ & _ & _ & _ & _ & _ & Hphone & _ & Hlinks & _).
  split; [apply Hfirst; reflexivity|].
  split; [apply Hphone; reflexivity|apply Hlinks; reflexivity].
Defined.

(** C7 as first stated fails for the name: a person without one gets the
    Full Name cell written, as the empty text. *)
Lemma legislatorRecordData_writes_empty_name :
  ~ (forall p, person_name p = None -> legislatorRecordData p !! "Full Name" = None).
Proof.
  intros H. specialize (H (stub (Some "ocd-person/9") None) eq_refl).
  vm_compute in H. discriminate H.
Qed.

Section LinkCaps.

Context (env : Env) (state : string).

Lemma billRecordData_sponsors bill sponsorIds subjectIds :
  billRecordData env state bill sponsorIds subjectIds !! "Sponsors" =
  if (0 <? List.length sponsorIds)%nat then Some (FLinks (firstn 10 sponsorIds)) else None.
Proof.
  unfold billRecordData. read_cell; reflexivity.
Qed.

Lemma billRecordData_subjects bill sponsorIds subjectIds :
  billRecordData env state bill sponsorIds subjectIds !! "Subject Areas" =
  if (0 <? List.length subjectIds)%nat then Some (FLinks (firstn 10 subjectIds)) else None.
Proof.
  unfold billRecordData. read_cell; reflexivity.
Qed.

(** A reconciliation that returns an identifier leaves a record with that
    identifier holding every cell of the field set the client sent. *)
Lemma findOrCreateRecord_writes t field value recordData w id w' :
  findOrCreateRecord env t field value recordData w = (Ok id, w') ->
  exists r, In r (table (store w') t) /\ rec_id r = id /\
            forall k v, serialise recordData !! k = Some v -> rec_fields r !! k = Some v.
Proof.
  intros E. apply findOrCreateRecord_cases in E.
  inversion E as [|r rest w0 Hsel Hs|w0 Hsel Hs]; subst; rewrite Hs.
  - destruct (filter_head_In _ _ _ _ Hsel) as [Hin _].
    exists (patch (rec_id r) recordData r). rewrite table_set_table_eq.
    split; [apply in_map, Hin|]. split; [apply patch_rec_id|].
    intros k v Hk. unfold patch. rewrite Nat.eqb_refl. cbn [rec_fields].
    apply lookup_union_Some_l, Hk.
  - exists (created (store w) recordData). split; [|split; [reflexivity|auto]].
    unfold table at 1. cbn [tables]. rewrite lookup_insert_eq. cbn [default].
    apply in_or_app. right. left. reflexivity.
Qed.

End LinkCaps.

(** C9.  When the legislator sync of a bill returns fifteen record
    identifiers and the bill is reconciled, the Bill record holds in its
    Sponsors cell exactly the first ten of them, in the order they came
    back; and whatever the lists are, a Sponsors or Subject Areas cell of a
    bill's field set never has more than ten entries. *)
Theorem billRecordData_caps_links :
  (forall env state bill w sponsorIds w1 w',
     bill_sponsorships bill <> [] ->
     syncLegislators env (sponsors bill) w = (Ok sponsorIds, w1) ->
     List.length sponsorIds = 15 ->
     syncBill env state bill w = (Ok tt, w') ->
     exists r, In r (table (store w') "Bills") /\
               rec_fields r !! "Sponsors" = Some (FLinks (firstn 10 sponsorIds)) /\
               List.length (firstn 10 sponsorIds) = 10) /\
  (forall env state bill sponsorIds subjectIds ids,
     billRecordData env state bill sponsorIds subjectIds !! "Sponsors" = Some (FLinks ids) ->
     ids = firstn 10 sponsorIds /\ List.length ids <= 10) /\
  (forall env state bill sponsorIds subjectIds ids,
     billRecordData env state bill sponsorIds subjectIds !! "Subject Areas"
       = Some (FLinks ids) ->
     ids = firstn 10 subjectIds /\ List.length ids <= 10).
Proof.
  split; [|split].
  - intros env state bill w sponsorIds w1 w' Hsp Hleg Hlen E.
    unfold syncBill in E. destruct (bill_sponsorships bill) as [|s0 sps]; [congruence|].
    unfold bind at 1 in E. rewrite Hleg in E. unfold bind at 1 in E.
    destruct (match bill_subject bill with
              | [] => ret []
              | _ :: _ => syncSubjects env (bill_subject bill)
              end w1) as [[subjectIds|e] w2]; [|discriminate E].
    unfold bind at 1 in E.
    destruct (findOrCreateRecord env "Bills" "OpenStates ID" (Js.template (bill_id bill))
                (billRecordData env state bill sponsorIds subjectIds) w2)
      as [[id|e] w3] eqn:E3; [|discriminate E].
    run. injection E as <-.
    destruct (findOrCreateRecord_writes env _ _ _ _ _ _ _ E3) as (r & Hin & _ & Hcells).
    exists r. split; [exact Hin|]. split.
    + apply Hcells. unfold serialise. rewrite lookup_omap, billRecordData_sponsors.
      rewrite Hlen. reflexivity.
    + rewrite length_take. lia.
  - intros env state bill sponsorIds subjectIds ids H.
    rewrite billRecordData_sponsors in H.
    destruct (0 <? List.length sponsorIds)%nat; [|discriminate H].
    injection H as <-. split; [reflexivity|]. rewrite length_take. lia.
  - intros env state bill sponsorIds subjectIds ids H.
    rewrite billRecordData_subjects in H.
    destruct (0 <? List.length subjectIds)%nat; [|discriminate H].
    injection H as <-. split; [reflexivity|]. rewrite length_take. lia.
Qed.

Lemma billRecordData_caps_links_witness :
  exists r,
    In r (table (store (snd (syncBill (calm_env []) "ca" bill15 empty_world))) "Bills") /\
    rec_fields r !! "Sponsors" = Some (FLinks (seq 0 10)).
Proof.
  destruct billRecordData_caps_links as [Hcap _].
  destruct (Hcap (calm_env []) "ca" bill15 empty_world (seq 0 15)
              (snd (syncLegislators (calm_env []) (sponsors bill15) empty_world))
              (snd (syncBill (calm_env []) "ca" bill15 empty_world)))
    as (r & Hin & Hcell & _).
  - discriminate.
  - vm_compute. reflexivity.
  - reflexivity.
  - vm_compute. reflexivity.
  - exists r. split; [exact Hin|exact Hcell].
Defined.

(* ===================================================================== *)
(** ** More on characters and strings                                    *)
(* ===================================================================== *)

Section MoreCharFacts.

Lemma upper_char_idem c : Js.upper_char (Js.upper_char c) = Js.upper_char c.
Proof. destruct c as [[] [] [] [] [] [] [] []]; reflexivity. Qed.

Lemma lower_upper_char c : Js.lower_char (Js.upper_char c) = Js.lower_char c.
Proof. destruct c as [[] [] [] [] [] [] [] []]; reflexivity. Qed.

Lemma is_upper_lower_char c : Js.is_upper (Js.lower_char c) = false.
Proof. destruct c as [[] [] [] [] [] [] [] []]; reflexivity. Qed.

Lemma is_lower_upper_char c : Js.is_lower (Js.upper_char c) = false.
Proof. destruct c as [[] [] [] [] [] [] [] []]; reflexivity. Qed.

Lemma upper_char_underscore c :
  Ascii.eqb (Js.upper_char c) "_" = Ascii.eqb c "_".
Proof. destruct c as [[] [] [] [] [] [] [] []]; reflexivity. Qed.

Lemma lower_char_underscore c :
  Ascii.eqb (Js.lower_char c) "_" = Ascii.eqb c "_".
Proof. destruct c as [[] [] [] [] [] [] [] []]; reflexivity. Qed.

Lemma toLowerCase_toUpperCase s :
  Js.toLowerCase (Js.toUpperCase s) = Js.toLowerCase s.
Proof.
  induction s as [|c s IH]; [reflexivity|].
  cbn. rewrite lower_upper_char. f_equal. exact IH.
Qed.


Lemma has_char_app c (s t : string) :
  has_char c (s ++ t)%string = has_char c s || has_char c t.
Proof.
  induction s as [|a s IH]; [reflexivity|].
  simpl. rewrite IH. apply orb_assoc.
Qed.

Lemma has_char_map f c s :
  (forall a, Ascii.eqb (f a) c = Ascii.eqb a c) ->
  has_char c (Js.map_string f s) = has_char c s.
Proof.
  intros Hf. induction s as [|a s IH]; [reflexivity|].
  cbn. rewrite Hf, IH. reflexivity.
Qed.

(** The pieces of a split do not contain the separator. *)
Lemma split_no_sep sep s : Forall (fun w => has_char sep w = false) (Js.split sep s).
Proof.
  induction s as [|c s IH]; cbn [Js.split].
  - constructor; [reflexivity|constructor].
  - destruct (Ascii.eqb c sep) eqn:E.
    + constructor; [reflexivity|exact IH].
    + destruct (Js.split sep s) as [|w ws].
      * constructor; [cbn; rewrite E; reflexivity|constructor].
      * apply Forall_cons in IH as [Hw Hws].
        constructor; [cbn; rewrite E, Hw; reflexivity|exact Hws].
Qed.

Lemma split_nonempty sep s : Js.split sep s <> [].
Proof.
  destruct s as [|c s]; cbn [Js.split]; [discriminate|].
  destruct (Ascii.eqb c sep); [discriminate|].
  destruct (Js.split sep s); discriminate.
Qed.

End MoreCharFacts.

Lemma includes_char s c : Js.includes s (String c EmptyString) = has_char c s.
Proof.
  induction s as [|a s IH]; [reflexivity|].
  cbn [Js.includes has_char Js.startsWith]. rewrite IH, (Ascii.eqb_sym c a).
  destruct s; cbn; rewrite andb_true_r; reflexivity.
Qed.

Lemma append_cons c (s t : string) : (String c s ++ t = String c (s ++ t))%string.
Proof. reflexivity. Qed.

Lemma append_empty (s : string) : (s ++ "")%string = s.
Proof. induction s as [|c s IH]; [reflexivity|]. rewrite append_cons, IH. reflexivity. Qed.

Lemma substring_prefix n : forall t, exists post, t = (substring 0 n t ++ post)%string.
Proof.
  induction n as [|n IH]; intros t.
  - exists t. destruct t; reflexivity.
  - destruct t as [|a t]; [exists ""; reflexivity|].
    destruct (IH t) as [post Hpost]. exists post.
    cbn [substring]. rewrite append_cons, <- Hpost. reflexivity.
Qed.

Lemma search_classes_found p s m :
  Js.search_classes p s = Some m ->
  exists pre post, s = (pre ++ m ++ post)%string /\ has_shape p m = true.
Proof.
  induction s as [|c s IH]; cbn [Js.search_classes]; rewrite match_classes_shape.
  - destruct (has_shape p (substring 0 (List.length p) "")) eqn:E; [|discriminate].
    intros H. injection H as <-.
    destruct (substring_prefix (List.length p) "") as [post Hpost].
    exists "", post. split; [exact Hpost|exact E].
  - destruct (has_shape p (substring 0 (List.length p) (String c s))) eqn:E.
    + intros H. injection H as <-.
      destruct (substring_prefix (List.length p) (String c s)) as [post Hpost].
      exists "", post. split; [exact Hpost|exact E].
    + intros H. destruct (IH H) as (pre & post & -> & Hs).
      exists (String c pre), post. split; [reflexivity|exact Hs].
Qed.

Lemma letter_upper c : is_letter c = true -> Js.is_upper (Js.upper_char c) = true.
Proof.
  destruct c as [[] [] [] [] [] [] [] []]; intros H; vm_compute in *; congruence.
Qed.

(** A value is plain when neither of the two characters occurs in it. *)
Lemma plain_value_chars v :
  plain_value v = negb (has_char "'" v) && negb (has_char "\" v).
Proof. unfold plain_value. rewrite !includes_char. reflexivity. Qed.

Lemma capital_plain c :
  Js.is_upper c = true -> Ascii.eqb c "'" = false /\ Ascii.eqb c "\" = false.
Proof.
  destruct c as [[] [] [] [] [] [] [] []]; intros H; vm_compute in *;
    split; congruence.
Qed.

Lemma capitals_plain v : string_forall Js.is_upper v = true -> plain_value v = true.
Proof.
  rewrite plain_value_chars. induction v as [|c v IH]; [reflexivity|].
  cbn [string_forall has_char]. intros H. apply andb_prop in H as [Hc Hv].
  destruct (capital_plain c Hc) as [-> ->]. cbn [orb]. exact (IH Hv).
Qed.

(** The shape of an extracted abbreviation. *)
Lemma state_abbr_capitals j a :
  state_abbr j = Some a ->
  String.length a = 2 /\
  string_forall Js.is_upper a = true /\
  exists pre m post,
    jur_id j = Some (pre ++ m ++ post)%string /\
    Js.toLowerCase m = ("/state:" ++ Js.toLowerCase a ++ "/")%string.
Proof.
  unfold state_abbr. destruct (jur_id j) as [[|c0 s0]|]; try discriminate.
  cbn [Js.truthy Js.or_empty].
  destruct (Js.search_classes state_pattern (String c0 s0)) as [m|] eqn:E; [|discriminate].
  intros H. injection H as <-.
  destruct (search_classes_found _ _ _ E) as (pre & post & Hs & Hshape).
  pose proof (has_shape_length _ _ Hshape) as Hlen.
  do 10 (destruct m as [|? m]; [cbn in Hlen; discriminate Hlen|]).
  destruct m; [|cbn in Hlen; discriminate Hlen]. clear Hlen.
  cbn [has_shape state_pattern] in Hshape.
  repeat match goal with
         | H : _ && _ = true |- _ => apply andb_prop in H as [? ?]
         end.
  unfold is_char, is_char_ci in *.
  repeat match goal with
         | H : Ascii.eqb _ _ = true |- _ => apply Ascii.eqb_eq in H
         end.
  subst. split; [reflexivity|]. split.
  - cbn. rewrite !letter_upper by assumption. reflexivity.
  - eexists pre, _, post. split; [rewrite Hs; reflexivity|].
    cbn. rewrite !lower_upper_char.
    repeat match goal with H : Js.lower_char _ = _ |- _ => rewrite H; clear H end.
    reflexivity.
Qed.

(** An extracted abbreviation is a plain key. *)
Lemma state_key_plain j :
  Js.truthy (state_abbr j) = true -> plain_value (state_key j) = true.
Proof.
  intros H. unfold state_key. rewrite H.
  destruct (state_abbr j) as [a|] eqn:E; [|discriminate H].
  destruct (state_abbr_capitals j a E) as (_ & Hup & _).
  apply capitals_plain, Hup.
Qed.

(* ===================================================================== *)
(** ** Jurisdictions                                                     *)
(* ===================================================================== *)

Example state_abbr_lower :
  state_abbr {| jur_id := Some "ocd-jurisdiction/country:us/state:nc/government";
                jur_name := Some "North Carolina"; jur_legislature_name := None;
                jur_legislative_sessions := [] |} = Some "NC".
Proof. reflexivity. Qed.

Example state_abbr_any_case :
  state_abbr {| jur_id := Some "OCD-JURISDICTION/COUNTRY:US/STATE:Nc/GOVERNMENT";
                jur_name := None; jur_legislature_name := None;
                jur_legislative_sessions := [] |} = Some "NC".
Proof. reflexivity. Qed.

Example state_abbr_three_letters :
  state_abbr {| jur_id := Some "ocd-jurisdiction/country:us/state:ncx/government";
                jur_name := None; jur_legislature_name := None;
                jur_legislative_sessions := [] |} = None.
Proof. reflexivity. Qed.

Section StateKey.

Context (env : Env).

(** With an abbreviation, the key searched is the key written. *)
Lemma stateRecordData_abbr j :
  Js.truthy (state_abbr j) = true ->
  stateRecordData j !! "Abbreviation" = Some (FStr (state_key j)).
Proof.
  intros H. unfold stateRecordData, state_key. rewrite H.
  destruct (jur_legislative_sessions j); read_cell; rewrite ?H; reflexivity.
Qed.

(** Without one, the Abbreviation cell is not written at all. *)
Lemma stateRecordData_no_abbr j :
  state_abbr j = None -> stateRecordData j !! "Abbreviation" = None.
Proof.
  intros H. unfold stateRecordData. rewrite H.
  destruct (jur_legislative_sessions j); read_cell; reflexivity.
Qed.

(** A jurisdiction with an abbreviation reconciles: once a sync has
    returned, the next ones do not add States records. *)
Lemma syncState_abbr_reconciles j w id w1 :
  Js.truthy (state_abbr j) = true ->
  table_wf (store w) "States" ->
  syncState env j w = (Ok (Some id), w1) ->
  List.length (table (store (snd (syncState env j w1))) "States") =
  List.length (table (store w1) "States").
Proof.
  intros Habbr Hwf E. unfold syncState in *. run.
  destruct (findOrCreateRecord env "States" "Abbreviation" (state_key j)
              (stateRecordData j) w) as [[id1|e1] w1'] eqn:E1; [|discriminate E].
  injection E as <- <-.
  destruct (findOrCreateRecord_keyed env _ _ _ _ _ _ _ (state_key_plain j Habbr)
              (stateRecordData_abbr j Habbr) Hwf E1) as (Hwf1 & _ & _ & Hnew).
  destruct (findOrCreateRecord env "States" "Abbreviation" (state_key j)
              (stateRecordData j) w1') as [r2 w2] eqn:E2.
  destruct (findOrCreateRecord_keyed env _ _ _ _ _ _ _ (state_key_plain j Habbr)
              (stateRecordData_abbr j Habbr) Hwf1 E2) as (_ & _ & Hlen & _).
  destruct r2; cbn [snd]; apply Hlen; eauto.
Qed.

(** A jurisdiction without one never does: the search by (plain) display
    name in the Abbreviation cell finds nothing, a record is appended, and
    the record appended is not found by the next search either. *)
Lemma syncState_fallback_appends j name w :
  no_store_fault env ->
  state_abbr j = None ->
  jur_name j = Some name -> name <> "" -> plain_value name = true ->
  holds_key "Abbreviation" name (table (store w) "States") = false ->
  fst (syncState env j w) = Ok (Some (next_id (store w))) /\
  table (store (snd (syncState env j w))) "States" =
    table (store w) "States" ++ [created (store w) (stateRecordData j)] /\
  holds_key "Abbreviation" name (table (store (snd (syncState env j w))) "States") = false.
Proof.
  intros Hnf Habbr Hname Hne Hplain Hkey.
  assert (Hk : state_key j = name).
  { unfold state_key. rewrite Habbr, Hname. reflexivity. }
  assert (Hsel : List.filter (formula_holds "Abbreviation" name)
                   (table (store w) "States") = []).
  { destruct (List.filter _ _) eqn:Hf; [reflexivity|].
    assert (holds_key "Abbreviation" name (table (store w) "States") = true)
      by (apply holds_key_filter; congruence).
    congruence. }
  pose proof (findOrCreateRecord_found_or_created env "States" "Abbreviation" name
                (stateRecordData j) w Hnf Hplain) as H.
  rewrite Hsel in H. destruct H as [Hres Htab].
  unfold syncState. run. rewrite Hk.
  destruct (findOrCreateRecord env "States" "Abbreviation" name (stateRecordData j) w)
    as [res w'] eqn:E. cbn [fst snd] in *. subst res. cbn [fst snd].
  split; [reflexivity|]. split; [exact Htab|].
  rewrite Htab. unfold holds_key in *. rewrite existsb_app, Hkey. cbn [existsb orb].
  unfold formula_holds, created. cbn [rec_fields].
  unfold serialise. rewrite lookup_omap, (stateRecordData_no_abbr j Habbr). cbn.
  rewrite orb_false_r. destruct name; [congruence|reflexivity].
Qed.

End StateKey.

(** C6, at the District of Columbia.  Its identifier has no state segment, so
    the key falls back to the display name; the name is searched in the
    Abbreviation cell, which the record written does not have, and two syncs
    in a row on an empty store give two States records with two different
    identifiers. *)
Theorem syncState_fallback_duplicates :
  state_abbr district_of_columbia = None /\
  state_key district_of_columbia = "District of Columbia" /\
  stateRecordData district_of_columbia !! "Abbreviation" = None /\
  fst (syncState (calm_env []) district_of_columbia empty_world) = Ok (Some 0) /\
  fst (syncState (calm_env []) district_of_columbia
         (snd (syncState (calm_env []) district_of_columbia empty_world))) = Ok (Some 1) /\
  List.length
    (table (store (snd (syncState (calm_env []) district_of_columbia
                          (snd (syncState (calm_env []) district_of_columbia
                                  empty_world))))) "States") = 2.
Proof. vm_compute. repeat split; reflexivity. Qed.

(* ===================================================================== *)
(** ** The handler                                                       *)
(* ===================================================================== *)

Section Handler.

Context (env : Env).

(** The loop over the requested states never throws, and files one result
    per state, in order. *)
Lemma handler_loop_results statesToSync : forall limit acc w,
  exists totals,
    fst (handler_loop env statesToSync limit acc w) = Ok totals /\
    List.map result_state (t_results totals) =
    List.map result_state (t_results acc) ++ statesToSync.
Proof.
  induction statesToSync as [|currentState rest IH]; intros limit acc w.
  - exists acc. split; [reflexivity|]. rewrite app_nil_r. reflexivity.
  - cbn [handler_loop]. unfold bind at 1, try_catch at 1, bind at 1.
    destruct (syncOneState env currentState limit w) as [[result|stateError] w1].
    + cbn [ret].
      destruct (IH limit
                  {| t_results := t_results acc ++
                       [StateSynced currentState (sr_synced result) (sr_total result)];
                     t_totalSynced := t_totalSynced acc + sr_synced result;
                     t_totalBills := t_totalBills acc + sr_total result |} w1)
        as (totals & Hok & Hres).
      exists totals. split; [exact Hok|]. rewrite Hres. cbn [t_results].
      rewrite List.map_app, <- app_assoc. reflexivity.
    + cbn [ret].
      destruct (IH limit
                  {| t_results := t_results acc ++
                       [StateFailed currentState (err_message stateError)];
                     t_totalSynced := t_totalSynced acc;
                     t_totalBills := t_totalBills acc |} w1)
        as (totals & Hok & Hres).
      exists totals. split; [exact Hok|]. rewrite Hres. cbn [t_results].
      rewrite List.map_app, <- app_assoc. reflexivity.
Qed.

Lemma handler_ok req w statesToSync body :
  String.eqb (req_method req) "POST" = true ->
  authorized env req = true ->
  req_body req = Some body ->
  states_to_sync body = Some statesToSync ->
  exists message totalSynced totalBills results,
    fst (handler env req w) =
      {| resp_status := 200;
         resp_json := JSummary true message (List.length statesToSync)
                        totalSynced totalBills results |} /\
    List.map result_state results = statesToSync.
Proof.
  intros Hm Ha Hb Hs. unfold handler, handler_try. rewrite Hm, Ha, Hb, Hs. cbn [negb].
  unfold bind.
  destruct (handler_loop_results statesToSync (body_limit body)
              {| t_results := []; t_totalSynced := 0; t_totalBills := 0 |} w)
    as (totals & Hok & Hres).
  destruct (handler_loop env statesToSync (body_limit body) _ w) as [r w'].
  cbn [fst] in Hok. subst r. cbn [ret fst].
  eexists _, _, _, _. split; [reflexivity|exact Hres].
Qed.

End Handler.

(** C8, amended.  A POST that carries the configured bearer secret and a
    body with a states array or a non-empty state is answered 200, with the
    success flag and one result per requested state in order, whatever
    failed while syncing.  Any other answer is 405 for another method, 401
    for a wrong or missing bearer secret, 400 for a body with neither
    parameter, or 500 for an authenticated POST that has no body at all. *)
Theorem handler_status env req w :
  (req_method req = "POST" -> authorized env req = true ->
   forall body, req_body req = Some body ->
     (body_states body <> None \/ Js.truthy (body_state body) = true) ->
     exists statesToSync message totalSynced totalBills results,
       states_to_sync body = Some statesToSync /\
       fst (handler env req w) =
         {| resp_status := 200;
            resp_json := JSummary true message (List.length statesToSync)
                           totalSynced totalBills results |} /\
       List.map result_state results = statesToSync) /\
  (resp_status (fst (handler env req w)) <> 200 ->
   (req_method req <> "POST" /\ resp_status (fst (handler env req w)) = 405) \/
   (req_method req = "POST" /\ authorized env req = false /\
    resp_status (fst (handler env req w)) = 401) \/
   (req_method req = "POST" /\ authorized env req = true /\
    (exists body, req_body req = Some body /\ states_to_sync body = None) /\
    resp_status (fst (handler env req w)) = 400) \/
   (req_method req = "POST" /\ authorized env req = true /\ req_body req = None /\
    resp_status (fst (handler env req w)) = 500)).
Proof.
  split.
  - intros Hm Ha body Hb Hparam.
    assert (Hs : exists statesToSync, states_to_sync body = Some statesToSync).
    { unfold states_to_sync. destruct (body_states body) as [states|]; [eauto|].
      destruct Hparam as [H|H]; [congruence|]. rewrite H. eauto. }
    destruct Hs as [statesToSync Hs].
    apply String.eqb_eq in Hm.
    destruct (handler_ok env req w statesToSync body Hm Ha Hb Hs)
      as (message & totalSynced & totalBills & results & H1 & H2).
    exists statesToSync, message, totalSynced, totalBills, results. auto.
  - intros Hne.
    destruct (String.eqb_spec (req_method req) "POST") as [Hm|Hm].
    2:{ left. split; [exact Hm|]. unfold handler.
        apply String.eqb_neq in Hm. rewrite Hm. reflexivity. }
    right. destruct (authorized env req) eqn:Ha.
    2:{ left. split; [exact Hm|]. split; [reflexivity|]. unfold handler.
        apply String.eqb_eq in Hm. rewrite Hm, Ha. reflexivity. }
    right. destruct (req_body req) as [body|] eqn:Hb.
    + left. split; [exact Hm|]. split; [reflexivity|].
      destruct (states_to_sync body) as [statesToSync|] eqn:Hs.
      * exfalso. apply Hne. apply String.eqb_eq in Hm.
        destruct (handler_ok env req w statesToSync body Hm Ha Hb Hs)
          as (message & totalSynced & totalBills & results & H1 & _).
        rewrite H1. reflexivity.
      * split; [eauto|]. unfold handler, handler_try.
        apply String.eqb_eq in Hm. rewrite Hm, Ha, Hb, Hs. reflexivity.
    + right. split; [exact Hm|]. split; [reflexivity|]. split; [reflexivity|].
      unfold handler, handler_try. apply String.eqb_eq in Hm. rewrite Hm, Ha, Hb.
      reflexivity.
Qed.

Lemma handler_status_witness :
  exists message totalSynced totalBills results,
    fst (handler (states_down_env sample_bills) (post (Some (state_body "ca")))
           empty_world) =
      {| resp_status := 200;
         resp_json := JSummary true message 1 totalSynced totalBills results |} /\
    List.map result_state results = ["ca"].
Proof.
  destruct (proj1 (handler_status (states_down_env sample_bills)
                     (post (Some (state_body "ca"))) empty_world)
              eq_refl eq_refl (state_body "ca") eq_refl (or_intror eq_refl))
    as (statesToSync & message & totalSynced & totalBills & results & Hs & Hr & Hm).
  injection Hs as <-.
  exists message, totalSynced, totalBills, results. split; [exact Hr|exact Hm].
Defined.

(** C8 as first stated fails on an authenticated POST without a body: the
    answer is 500, which is none of 200, 401, 400 and 405. *)
Lemma handler_missing_body_is_500 :
  resp_status (fst (handler (calm_env []) (post None) empty_world)) = 500 /\
  ~ (forall env req w,
       In (resp_status (fst (handler env req w))) [200; 401; 400; 405]).
Proof.
  split; [reflexivity|].
  intros H. specialize (H (calm_env []) (post None) empty_world).
  vm_compute in H. intuition discriminate.
Qed.

(* ===================================================================== *)
(** ** A failed jurisdiction write goes unreported                       *)
(* ===================================================================== *)

Section SilentStateFailure.

Context (env : Env).

Lemma syncState_swallows j w e w' :
  findOrCreateRecord env "States" "Abbreviation" (state_key j) (stateRecordData j) w
    = (Throw e, w') ->
  syncState env j w = (Ok None, w').
Proof. intros E. unfold syncState. run. rewrite E. reflexivity. Qed.

(** The per-state body drops whatever the state sync returned. *)
Lemma syncOneState_ignores_syncState currentState limit w j :
  jurisdiction_api env (clock w) currentState = Ok j ->
  syncOneState env currentState limit w =
  syncBills env currentState (limit_or_50 limit)
    (snd (syncState env j (log (EvJurisdiction currentState) w))).
Proof.
  intros Hj. unfold syncOneState, fetchJurisdiction. unfold bind at 1. rewrite Hj.
  unfold bind at 1.
  destruct (total_syncState env j (log (EvJurisdiction currentState) w)) as [r Hr].
  destruct (syncState env j (log (EvJurisdiction currentState) w)) as [r' w1].
  cbn [fst snd] in *. subst r'. reflexivity.
Qed.

End SilentStateFailure.

(** C10.  When the reconciliation of the States record throws, the state
    sync returns null and throws nothing; the state sync never throws at
    all.  The handler does not look at what it returned: once the
    jurisdiction has been fetched, the result filed for the state is that of
    the bill sync alone, so it reports success whenever the bill sync
    returns, also when the States record could not be written. *)
Theorem syncState_failure_is_silent env :
  (forall j w e w',
     findOrCreateRecord env "States" "Abbreviation" (state_key j) (stateRecordData j) w
       = (Throw e, w') ->
     syncState env j w = (Ok None, w')) /\
  (forall j w, exists r, fst (syncState env j w) = Ok r) /\
  (forall currentState rest limit acc w j result w2,
     jurisdiction_api env (clock w) currentState = Ok j ->
     syncBills env currentState (limit_or_50 limit)
       (snd (syncState env j (log (EvJurisdiction currentState) w))) = (Ok result, w2) ->
     handler_loop env (currentState :: rest) limit acc w =
     handler_loop env rest limit
       {| t_results := t_results acc ++
            [StateSynced currentState (sr_synced result) (sr_total result)];
          t_totalSynced := t_totalSynced acc + sr_synced result;
          t_totalBills := t_totalBills acc + sr_total result |} w2).
Proof.
  split; [exact (syncState_swallows env)|].
  split; [intros j w; apply total_syncState|].
  intros currentState rest limit acc w j result w2 Hj Hb.
  cbn [handler_loop]. unfold bind at 1, try_catch at 1, bind at 1.
  rewrite (syncOneState_ignores_syncState env currentState limit w j Hj), Hb.
  reflexivity.
Qed.

Lemma syncState_failure_is_silent_witness :
  syncState (states_down_env sample_bills) (state_jurisdiction "ca")
    (log (EvJurisdiction "ca") empty_world)
  = (Ok None, log (EvSelect "States" "Abbreviation" "CA")
                (log (EvJurisdiction "ca") empty_world)) /\
  fst (handler_loop (states_down_env sample_bills) ["ca"] None
         {| t_results := []; t_totalSynced := 0; t_totalBills := 0 |} empty_world)
  = Ok {| t_results := [StateSynced "ca" 2 2]; t_totalSynced := 2; t_totalBills := 2 |}.
Proof.
  destruct (syncState_failure_is_silent (states_down_env sample_bills))
    as (Hswallow & _ & Hloop).
  split.
  - apply (Hswallow (state_jurisdiction "ca") (log (EvJurisdiction "ca") empty_world)
             (Error "NOT_AUTHORIZED")).
    vm_compute. reflexivity.
  - rewrite (Hloop "ca" [] None _ empty_world (state_jurisdiction "ca")
               {| sr_success := true; sr_synced := 2; sr_total := 2 |}
               (snd (syncBills (states_down_env sample_bills) "ca" 50
                       (snd (syncState (states_down_env sample_bills)
                               (state_jurisdiction "ca")
                               (log (EvJurisdiction "ca") empty_world)))))).
    + reflexivity.
    + reflexivity.
    + vm_compute. reflexivity.
Defined.

(* ===================================================================== *)
(** ** Canonical subject names are fixed points                          *)
(* ===================================================================== *)

Section FixedPoint.

Lemma space_transitions_fixed s : no_gap s = true -> space_transitions s = s.
Proof.
  induction s as [|a rest IH]; [reflexivity|].
  cbn [no_gap space_transitions]. intros H. apply andb_prop in H as [Hg Hrest].
  apply negb_true_iff in Hg. rewrite Hg, (IH Hrest). reflexivity.
Qed.

Lemma space_transitions_head a rest :
  exists tail, space_transitions (String a rest) = String a tail /\
               (gap_after a rest = true -> exists t, tail = String " " t) /\
               (gap_after a rest = false -> tail = space_transitions rest).
Proof.
  cbn [space_transitions]. destruct (gap_after a rest).
  - eexists. split; [reflexivity|]. split; [eauto|discriminate].
  - eexists. split; [reflexivity|]. split; [discriminate|reflexivity].
Qed.

Lemma gap_after_space_left rest : gap_after " " rest = false.
Proof. destruct rest as [|b [|c r]]; reflexivity. Qed.

Lemma gap_after_space_right a t : gap_after a (String " " t) = false.
Proof.
  unfold gap_after, lower_to_upper, capital_before_word.
  destruct t; cbn; rewrite ?andb_false_r; reflexivity.
Qed.

(** A neighbour pair that asked for no space asks for none after the
    spaces have been put in. *)
Lemma gap_after_transitions a rest :
  gap_after a rest = false -> gap_after a (space_transitions rest) = false.
Proof.
  intros H. destruct rest as [|b rest']; [reflexivity|].
  cbn [space_transitions]. unfold gap_after in *.
  apply orb_false_iff in H as [H1 H2].
  destruct (lower_to_upper b rest' || capital_before_word b rest') eqn:Egap.
  - cbn [lower_to_upper capital_before_word] in *. rewrite H1.
    cbn. rewrite andb_false_r. reflexivity.
  - cbn [lower_to_upper] in *. rewrite H1. cbn [orb].
    destruct rest' as [|c rest'']; [reflexivity|].
    cbn [space_transitions capital_before_word] in *.
    destruct (gap_after c rest''); exact H2.
Qed.

Lemma no_gap_space_transitions s : no_gap (space_transitions s) = true.
Proof.
  induction s as [|a rest IH]; [reflexivity|].
  cbn [space_transitions]. destruct (gap_after a rest) eqn:E.
  - cbn [no_gap]. rewrite gap_after_space_right, gap_after_space_left, IH. reflexivity.
  - cbn [no_gap]. rewrite (gap_after_transitions a rest E), IH. reflexivity.
Qed.

Lemma capitalize_first_cons c s :
  capitalize_first (String c s) = String (Js.upper_char c) s.
Proof. reflexivity. Qed.

Lemma capitalize_first_idem s : capitalize_first (capitalize_first s) = capitalize_first s.
Proof.
  destruct s as [|c s]; [reflexivity|].
  rewrite !capitalize_first_cons, upper_char_idem. reflexivity.
Qed.

Lemma upper_char_cases c :
  (Js.is_lower c = true /\ Js.is_upper (Js.upper_char c) = true) \/
  (Js.is_lower c = false /\ Js.upper_char c = c).
Proof. destruct c as [[] [] [] [] [] [] [] []]; auto. Qed.

Lemma no_gap_capitalize_first s : no_gap s = true -> no_gap (capitalize_first s) = true.
Proof.
  destruct s as [|a rest]; [reflexivity|].
  rewrite capitalize_first_cons. cbn [no_gap]. intros H.
  apply andb_prop in H as [Hg Hrest]. rewrite Hrest, andb_true_r.
  destruct (upper_char_cases a) as [[Hl Hu]|[Hl ->]]; [|exact Hg].
  apply negb_true_iff in Hg. apply negb_true_iff.
  unfold gap_after in *. apply orb_false_iff in Hg as [Hg1 Hg2].
  destruct rest as [|b rest']; [reflexivity|].
  cbn [lower_to_upper capital_before_word] in *.
  rewrite Hl in Hg1. cbn [andb] in Hg1.
  rewrite is_lower_upper_char, Hg1, andb_false_r.
  destruct rest'; cbn; rewrite ?andb_false_r; reflexivity.
Qed.

Lemma has_char_space_transitions s :
  has_char "_" (space_transitions s) = has_char "_" s.
Proof.
  induction s as [|a rest IH]; [reflexivity|].
  cbn [space_transitions]. destruct (gap_after a rest); cbn; rewrite IH; reflexivity.
Qed.

Lemma has_char_capitalize_first s :
  has_char "_" (capitalize_first s) = has_char "_" s.
Proof.
  destruct s as [|c s]; [reflexivity|].
  rewrite capitalize_first_cons. cbn. rewrite upper_char_underscore. reflexivity.
Qed.

Lemma calm_no_gap s : forall prev, calm_after prev s = true -> no_gap s = true.
Proof.
  induction s as [|a rest IH]; intros prev H; [reflexivity|].
  cbn [calm_after no_gap] in *. apply andb_prop in H as [_ Hrest].
  rewrite (IH _ Hrest), andb_true_r. apply negb_true_iff.
  destruct rest as [|b rest']; [reflexivity|].
  cbn [calm_after] in Hrest. apply andb_prop in Hrest as [Hb _].
  apply negb_true_iff, andb_false_iff in Hb.
  unfold gap_after, lower_to_upper, capital_before_word, is_letter in *.
  destruct Hb as [Hb|Hb].
  - apply orb_false_iff in Hb as [-> ->]. destruct rest'; reflexivity.
  - rewrite Hb, !andb_false_r. destruct rest'; reflexivity.
Qed.

Lemma calm_lower_then_space r : forall prev tail,
  calm_after prev (Js.toLowerCase r ++ String " " tail)%string = calm_after false tail.
Proof.
  induction r as [|c r IH]; intros prev tail.
  - destruct prev; reflexivity.
  - unfold Js.toLowerCase in *. simpl.
    rewrite is_upper_lower_char, andb_false_r. cbn [negb andb]. apply IH.
Qed.

Lemma calm_lower r : forall prev, calm_after prev (Js.toLowerCase r) = true.
Proof.
  induction r as [|c r IH]; intros prev; [reflexivity|].
  unfold Js.toLowerCase in *. simpl.
  rewrite is_upper_lower_char, andb_false_r. cbn [negb andb]. apply IH.
Qed.

Lemma title_case_cons c r :
  title_case (String c r) = String (Js.upper_char c) (Js.toLowerCase r).
Proof. reflexivity. Qed.

Lemma calm_joined ws : calm_after false (Js.join " " (List.map title_case ws)) = true.
Proof.
  induction ws as [|w ws IH]; [reflexivity|].
  cbn [List.map Js.join]. destruct (List.map title_case ws) as [|t ts] eqn:E.
  - destruct w as [|c r]; [reflexivity|].
    rewrite title_case_cons. cbn [calm_after andb negb]. apply calm_lower.
  - destruct w as [|c r].
    + exact IH.
    + rewrite title_case_cons.
      change (calm_after (is_letter (Js.upper_char c))
                (Js.toLowerCase r ++ String " " (Js.join " " (t :: ts)))%string = true).
      rewrite calm_lower_then_space. exact IH.
Qed.

Lemma capitalize_first_joined ws :
  capitalize_first (Js.join " " (List.map title_case ws)) =
  Js.join " " (List.map title_case ws).
Proof.
  destruct ws as [|w ws]; [reflexivity|].
  cbn [List.map Js.join]. destruct (List.map title_case ws) as [|t ts].
  - destruct w as [|c r]; [reflexivity|].
    rewrite title_case_cons, capitalize_first_cons, upper_char_idem. reflexivity.
  - destruct w as [|c r]; [reflexivity|].
    rewrite title_case_cons.
    change (capitalize_first
              (String (Js.upper_char c) (Js.toLowerCase r ++ " " ++ Js.join " " (t :: ts))%string)
            = String (Js.upper_char c) (Js.toLowerCase r ++ " " ++ Js.join " " (t :: ts))%string).
    rewrite capitalize_first_cons, upper_char_idem. reflexivity.
Qed.

Lemma has_char_title_case w : has_char "_" (title_case w) = has_char "_" w.
Proof.
  destruct w as [|c r]; [reflexivity|].
  rewrite title_case_cons. cbn [has_char]. rewrite upper_char_underscore.
  f_equal. apply has_char_map, lower_char_underscore.
Qed.

Lemma has_char_joined ws :
  Forall (fun w => has_char "_" w = false) ws ->
  has_char "_" (Js.join " " (List.map title_case ws)) = false.
Proof.
  induction 1 as [|w ws Hw Hws IH]; [reflexivity|].
  cbn [List.map Js.join]. destruct (List.map title_case ws) as [|t ts].
  - rewrite has_char_title_case. exact Hw.
  - rewrite !has_char_app, has_char_title_case, Hw, IH. reflexivity.
Qed.

(** Formatting a formatted label changes nothing. *)
Lemma format_step_idem s : format_step (format_step s) = format_step s.
Proof.
  unfold format_step at 2 3. destruct (Js.includes s "_") eqn:Hus.
  - set (r := Js.join " " (List.map title_case (Js.split "_" s))).
    assert (Hr : Js.includes r "_" = false)
      by (rewrite includes_char; apply has_char_joined, split_no_sep).
    unfold format_step. rewrite Hr, regex_pair_is_space_transitions.
    rewrite space_transitions_fixed by (apply (calm_no_gap _ false), calm_joined).
    apply capitalize_first_joined.
  - rewrite regex_pair_is_space_transitions.
    set (r := capitalize_first (space_transitions s)).
    assert (Hr : Js.includes r "_" = false).
    { rewrite includes_char in *. subst r.
      rewrite has_char_capitalize_first, has_char_space_transitions. exact Hus. }
    unfold format_step. rewrite Hr, regex_pair_is_space_transitions.
    rewrite space_transitions_fixed
      by (apply no_gap_capitalize_first, no_gap_space_transitions).
    apply capitalize_first_idem.
Qed.

Lemma commonWords_values_fixed k v :
  assoc k commonWords = Some v -> formatSubjectName v = FStr v.
Proof.
  unfold commonWords. cbn [assoc]. intros H.
  repeat match type of H with
         | (if ?b then _ else _) = _ =>
             destruct b; [injection H as <-; vm_compute; reflexivity|]
         end.
  discriminate H.
Qed.

End FixedPoint.

Section AsciiLabels.

Lemma ascii_upper_char c : ascii_char c = true -> ascii_char (Js.upper_char c) = true.
Proof. destruct c as [[] [] [] [] [] [] [] []]; intros H; vm_compute in *; congruence. Qed.

Lemma ascii_lower_char c : ascii_char c = true -> ascii_char (Js.lower_char c) = true.
Proof. destruct c as [[] [] [] [] [] [] [] []]; intros H; vm_compute in *; congruence. Qed.

Lemma ascii_only_app (s t : string) :
  ascii_only (s ++ t)%string = ascii_only s && ascii_only t.
Proof.
  unfold ascii_only. induction s as [|c s IH]; [reflexivity|].
  rewrite append_cons. cbn [string_forall]. rewrite IH. apply andb_assoc.
Qed.

Lemma ascii_only_map f s :
  (forall c, ascii_char c = true -> ascii_char (f c) = true) ->
  ascii_only s = true -> ascii_only (Js.map_string f s) = true.
Proof.
  intros Hf. unfold ascii_only. induction s as [|c s IH]; [reflexivity|].
  cbn [string_forall Js.map_string]. intros H. apply andb_prop in H as [Hc Hs].
  rewrite (Hf c Hc), (IH Hs). reflexivity.
Qed.

Lemma ascii_only_title_case w : ascii_only w = true -> ascii_only (title_case w) = true.
Proof.
  intros H. unfold title_case. rewrite ascii_only_app.
  destruct w as [|c w]; [reflexivity|].
  unfold ascii_only in H. cbn [string_forall] in H. apply andb_prop in H as [Hc Hw].
  cbn [Js.charAt0 Js.slice1]. apply andb_true_intro. split.
  - apply ascii_only_map; [apply ascii_upper_char|].
    unfold ascii_only. cbn [string_forall]. rewrite Hc. reflexivity.
  - apply ascii_only_map; [apply ascii_lower_char|exact Hw].
Qed.

Lemma ascii_only_capitalize_first s :
  ascii_only s = true -> ascii_only (capitalize_first s) = true.
Proof.
  intros H. unfold capitalize_first. rewrite ascii_only_app.
  destruct s as [|c s]; [reflexivity|].
  unfold ascii_only in H. cbn [string_forall] in H. apply andb_prop in H as [Hc Hs].
  cbn [Js.charAt0 Js.slice1]. apply andb_true_intro. split; [|exact Hs].
  apply ascii_only_map; [apply ascii_upper_char|].
  unfold ascii_only. cbn [string_forall]. rewrite Hc. reflexivity.
Qed.

Lemma ascii_only_split sep s :
  ascii_only s = true -> Forall (fun w => ascii_only w = true) (Js.split sep s).
Proof.
  unfold ascii_only. induction s as [|c s IH]; cbn [Js.split string_forall].
  - intros _. constructor; [reflexivity|constructor].
  - intros H. apply andb_prop in H as [Hc Hs]. specialize (IH Hs).
    destruct (Ascii.eqb c sep).
    + constructor; [reflexivity|exact IH].
    + destruct (Js.split sep s) as [|w ws].
      * constructor; [cbn [string_forall]; rewrite Hc; reflexivity|constructor].
      * apply Forall_cons in IH as [Hw Hws].
        constructor; [cbn [string_forall]; rewrite Hc, Hw; reflexivity|exact Hws].
Qed.

Lemma ascii_only_join ws :
  Forall (fun w => ascii_only w = true) ws -> ascii_only (Js.join " " ws) = true.
Proof.
  induction 1 as [|w ws Hw Hws IH]; [reflexivity|].
  cbn [Js.join]. destruct ws as [|w' ws']; [exact Hw|].
  rewrite !ascii_only_app, Hw, IH. reflexivity.
Qed.

Lemma ascii_only_space_transitions s :
  ascii_only s = true -> ascii_only (space_transitions s) = true.
Proof.
  unfold ascii_only. induction s as [|a rest IH]; [reflexivity|].
  cbn [space_transitions string_forall]. intros H. apply andb_prop in H as [Ha Hrest].
  destruct (gap_after a rest); cbn [string_forall]; rewrite Ha, (IH Hrest); reflexivity.
Qed.

Lemma ascii_only_format_step s : ascii_only s = true -> ascii_only (format_step s) = true.
Proof.
  intros H. unfold format_step. destruct (Js.includes s "_").
  - apply ascii_only_join, List.Forall_map.
    eapply List.Forall_impl; [|apply (ascii_only_split "_" s H)].
    intros w. apply ascii_only_title_case.
  - rewrite regex_pair_is_space_transitions.
    apply ascii_only_capitalize_first, ascii_only_space_transitions, H.
Qed.

Lemma commonWords_values_ascii k v : assoc k commonWords = Some v -> ascii_only v = true.
Proof.
  unfold commonWords. cbn [assoc]. intros H.
  repeat match type of H with
         | (if ?b then _ else _) = _ =>
             destruct b; [injection H as <-; vm_compute; reflexivity|]
         end.
  discriminate H.
Qed.

End AsciiLabels.

(** X1.  On labels of ASCII characters, where the case mapping of the
    embedding is the engine's, a formatted subject name is its own formatted
    form: whenever [formatSubjectName] returns a text for such a label, the
    text is ASCII again and formatting it returns the same text, so a name
    read back from the store reconciles under the same key. *)
Theorem formatSubjectName_fixed_point s name :
  ascii_only s = true ->
  formatSubjectName s = FStr name ->
  ascii_only name = true /\ formatSubjectName name = FStr name.
Proof.
  intros Hascii. unfold formatSubjectName at 1.
  destruct (commonWords_get (Js.toLowerCase (format_step s))) as [v|] eqn:E.
  - intros ->. unfold commonWords_get in E.
    destruct (assoc (Js.toLowerCase (format_step s)) commonWords) as [v|] eqn:Ea.
    + injection E as ->. split.
      * eapply commonWords_values_ascii, Ea.
      * eapply commonWords_values_fixed, Ea.
    + destruct (existsb _ _); discriminate E.
  - intros H. injection H as <-. split; [apply ascii_only_format_step, Hascii|].
    unfold formatSubjectName. rewrite format_step_idem, E. reflexivity.
Qed.

Lemma formatSubjectName_fixed_point_witness :
  formatSubjectName "Public Safety" = FStr "Public Safety" /\
  formatSubjectName "Water Rights" = FStr "Water Rights".
Proof.
  split.
  - apply (formatSubjectName_fixed_point "PUBLIC_SAFETY"); vm_compute; reflexivity.
  - apply (formatSubjectName_fixed_point "waterRights"); vm_compute; reflexivity.
Defined.

(* ===================================================================== *)
(** ** Subject categories                                                *)
(* ===================================================================== *)

Lemma first_category_other l cats :
  Forall (fun c => String.eqb (fst c) "Other" = false) cats ->
  String.eqb (first_category l cats) "Other" =
  negb (existsb (Js.includes l) (flat_map snd cats)).
Proof.
  induction 1 as [|[category keywords] cats Hc Hcats IH]; [reflexivity|].
  cbn [first_category flat_map snd]. rewrite existsb_app.
  destruct (existsb (Js.includes l) keywords); cbn [orb negb]; [exact Hc|exact IH].
Qed.

Lemma first_category_in l cats :
  In (first_category l cats) (List.map fst cats ++ ["Other"]).
Proof.
  induction cats as [|[category keywords] cats IH]; [left; reflexivity|].
  cbn [first_category List.map fst app].
  destruct (existsb (Js.includes l) keywords); [left; reflexivity|right; exact IH].
Qed.

(** X2.  The category of a subject is one of the six named categories or
    Other; it is Other exactly when the lower-cased label contains none of
    the keywords of any category; and for a label of ASCII characters, where
    the case mapping of the embedding is the engine's, it does not depend on
    the case the label is written in. *)
Theorem categorizeSubject_keywords s :
  In (categorizeSubject s) category_names /\
  String.eqb (categorizeSubject s) "Other" =
    negb (existsb (Js.includes (Js.toLowerCase s)) all_keywords) /\
  (ascii_only s = true ->
   categorizeSubject (Js.toUpperCase s) = categorizeSubject s).
Proof.
  split; [apply first_category_in|]. split.
  - apply first_category_other. repeat constructor.
  - intros _. unfold categorizeSubject. rewrite toLowerCase_toUpperCase. reflexivity.
Qed.

Lemma categorizeSubject_keywords_witness :
  categorizeSubject "BUSINESS TAXES" = categorizeSubject "Business taxes" /\
  categorizeSubject "Business taxes" = "Economy".
Proof.
  destruct (categorizeSubject_keywords "Business taxes") as (_ & _ & Hcase).
  split; [apply Hcase; reflexivity|reflexivity].
Defined.

(* ===================================================================== *)
(** ** Subjects that share a canonical name                              *)
(* ===================================================================== *)

Lemma syncSubject_keyed env subject name :
  formatSubjectName subject = FStr name ->
  syncSubject env subject =
  findOrCreateRecord env "Subjects" "Subject Name" name
    (<["Category" := FStr (categorizeSubject subject)]>
       (<["Subject Name" := FStr name]> ∅)).
Proof. intros H. unfold syncSubject. rewrite H. reflexivity. Qed.

(** X3.  Two raw labels of ASCII characters with the same formatted name,
    a plain one (the name is pasted between the quotes of the filter
    formula, so it must hold no apostrophe and no backslash), reconcile to
    one Subjects record: once the first has been synced, syncing the second
    adds no record, and the identifier it returns is that of a record named
    by the formatted name. *)
Theorem syncSubject_same_name env s1 s2 name w id1 w1 :
  ascii_only s1 = true -> ascii_only s2 = true ->
  formatSubjectName s1 = FStr name ->
  formatSubjectName s2 = FStr name ->
  plain_value name = true ->
  table_wf (store w) "Subjects" ->
  syncSubject env s1 w = (Ok id1, w1) ->
  List.length (table (store (snd (syncSubject env s2 w1))) "Subjects") =
    List.length (table (store w1) "Subjects") /\
  (forall id2, fst (syncSubject env s2 w1) = Ok id2 ->
     exists r, In r (table (store (snd (syncSubject env s2 w1))) "Subjects") /\
               rec_id r = id2 /\
               rec_fields r !! "Subject Name" = Some (FStr name)).
Proof.
  intros _ _ H1 H2 Hplain Hwf E1.
  rewrite (syncSubject_keyed env s1 name H1) in E1.
  rewrite (syncSubject_keyed env s2 name H2).
  set (data1 := <["Category" := FStr (categorizeSubject s1)]>
                  (<["Subject Name" := FStr name]> (∅ : gmap string fieldval))) in *.
  set (data2 := <["Category" := FStr (categorizeSubject s2)]>
                  (<["Subject Name" := FStr name]> (∅ : gmap string fieldval))).
  assert (Hd1 : data1 !! "Subject Name" = Some (FStr name)) by reflexivity.
  assert (Hd2 : data2 !! "Subject Name" = Some (FStr name)) by reflexivity.
  destruct (findOrCreateRecord_keyed env _ _ _ _ _ _ _ Hplain Hd1 Hwf E1)
    as (Hwf1 & _ & _ & Hnew).
  destruct (findOrCreateRecord env "Subjects" "Subject Name" name data2 w1)
    as [res w2] eqn:E2. cbn [fst snd].
  destruct (findOrCreateRecord_keyed env _ _ _ _ _ _ _ Hplain Hd2 Hwf1 E2)
    as (_ & _ & Hlen & _).
  split; [apply Hlen; eauto|].
  intros id2 ->.
  destruct (findOrCreateRecord_writes env _ _ _ _ _ _ _ E2) as (r & Hin & Hid & Hcells).
  exists r. split; [exact Hin|]. split; [exact Hid|].
  apply Hcells. unfold serialise. rewrite lookup_omap, Hd2. reflexivity.
Qed.

Lemma syncSubject_same_name_witness :
  List.length
    (table (store (snd (syncSubject (calm_env []) "Publicsafety"
                          (snd (syncSubject (calm_env []) "PUBLIC_SAFETY" empty_world)))))
       "Subjects") = 1.
Proof.
  destruct (syncSubject_same_name (calm_env []) "PUBLIC_SAFETY" "Publicsafety"
              "Public Safety" empty_world 0
              (snd (syncSubject (calm_env []) "PUBLIC_SAFETY" empty_world)))
    as [Hlen _].
  - reflexivity.
  - reflexivity.
  - vm_compute. reflexivity.
  - vm_compute. reflexivity.
  - reflexivity.
  - split; constructor.
  - vm_compute. reflexivity.
  - rewrite Hlen. vm_compute. reflexivity.
Defined.

(* ===================================================================== *)
(** ** Normalised dates are fixed points                                 *)
(* ===================================================================== *)

Lemma match_classes_calendar s m :
  Js.match_classes date_pattern s = Some m -> is_calendar_date m = true.
Proof.
  rewrite match_classes_shape.
  destruct (has_shape date_pattern (substring 0 (List.length date_pattern) s)) eqn:E;
    [|discriminate].
  intros H. injection H as <-. rewrite <- date_pattern_shape. exact E.
Qed.



Lemma normalizeDate_calendar parse d :
  is_calendar_date d = true -> normalizeDate parse (Some d) = Some d.
Proof.
  intros H. rewrite <- (append_empty d) at 1. apply normalizeDate_prefix, H.
Qed.

(** X4.  Normalising a normalised date changes nothing, as long as the
    engine prints the dates it accepts as YYYY-MM-DD (which it does for the
    years 0000 to 9999). *)
Theorem normalizeDate_idempotent parse d :
  (forall s iso, parse s = Ok (Some iso) -> is_calendar_date iso = true) ->
  normalizeDate parse (normalizeDate parse d) = normalizeDate parse d.
Proof.
  intros Hparse. destruct d as [[|c s]|]; try reflexivity.
  unfold normalizeDate at 2 3. cbn [Js.truthy negb Js.or_empty].
  unfold normalizeDate_try.
  destruct (Js.match_classes date_pattern (String c s)) as [m|] eqn:Em.
  - apply normalizeDate_calendar, (match_classes_calendar _ _ Em).
  - destruct (parse (String c s)) as [[iso|]|e] eqn:Ep.
    + apply normalizeDate_calendar, (Hparse _ _ Ep).
    + unfold normalizeDate, normalizeDate_try. cbn [Js.truthy negb Js.or_empty].
      rewrite Em, Ep. reflexivity.
    + unfold normalizeDate, normalizeDate_try. cbn [Js.truthy negb Js.or_empty].
      rewrite Em, Ep. reflexivity.
Qed.

Lemma normalizeDate_idempotent_witness :
  normalizeDate (fun _ => Ok (Some "2024-03-01"))
    (normalizeDate (fun _ => Ok (Some "2024-03-01")) (Some "March 1, 2024")) =
  Some "2024-03-01".
Proof.
  rewrite (normalizeDate_idempotent (fun _ => Ok (Some "2024-03-01"))).
  - reflexivity.
  - intros s iso H. injection H as <-. reflexivity.
Defined.

(* ===================================================================== *)
(** ** The shape of an extracted abbreviation                            *)
(* ===================================================================== *)




(** X5.  An abbreviation, when one is extracted, is two capital letters,
    and the identifier contains them, in either case, between [/state:]
    (in any case) and a slash. *)
Theorem state_abbr_shape j a :
  state_abbr j = Some a ->
  String.length a = 2 /\
  string_forall Js.is_upper a = true /\
  exists pre m post,
    jur_id j = Some (pre ++ m ++ post)%string /\
    Js.toLowerCase m = ("/state:" ++ Js.toLowerCase a ++ "/")%string.
Proof. apply state_abbr_capitals. Qed.

Lemma state_abbr_shape_witness :
  String.length "CA" = 2 /\ string_forall Js.is_upper "CA" = true.
Proof.
  destruct (state_abbr_shape (state_jurisdiction "ca") "CA") as (H1 & H2 & _).
  - reflexivity.
  - split; [exact H1|exact H2].
Defined.

(* ===================================================================== *)
(** ** The requests of one reconciliation                                *)
(* ===================================================================== *)

(** X6.  A reconciliation sends one select and then at most one write, an
    update or a create, never both; and when it throws, the store is as it
    was before. *)
Theorem findOrCreateRecord_requests env t field value recordData w :
  exists writes,
    trace (snd (findOrCreateRecord env t field value recordData w)) =
      writes ++ EvSelect t field value :: trace w /\
    (writes = [] \/ (exists id, writes = [EvUpdate t id]) \/ writes = [EvCreate t]) /\
    (forall e, fst (findOrCreateRecord env t field value recordData w) = Throw e ->
       store (snd (findOrCreateRecord env t field value recordData w)) = store w).
Proof.
  unfold findOrCreateRecord, select, update, create. run.
  destruct (store_fault env (clock w) (EvSelect t field value)) as [e|].
  { exists []. cbn. split; [reflexivity|]. split; [left; reflexivity|reflexivity]. }
  destruct (List.filter (formula_filter env field value) (table (store w) t))
    as [|r rest]; cbn [firstn store log].
  - exists [EvCreate t].
    destruct (store_fault env _ (EvCreate t)) as [e|]; cbn;
      (split; [reflexivity|]; split; [right; right; reflexivity|]);
      intros; try discriminate; reflexivity.
  - exists [EvUpdate t (rec_id r)].
    destruct (store_fault env _ (EvUpdate t (rec_id r))) as [e|];
      [|destruct (existsb _ _)]; cbn;
      (split; [reflexivity|]; split; [right; left; eexists; reflexivity|]);
      intros; try discriminate; reflexivity.
Qed.

Lemma findOrCreateRecord_requests_witness :
  trace (snd (findOrCreateRecord (states_down_env []) "States" "Abbreviation" "CA"
                ∅ empty_world)) = [EvSelect "States" "Abbreviation" "CA"] /\
  store (snd (findOrCreateRecord (states_down_env []) "States" "Abbreviation" "CA"
                ∅ empty_world)) = store empty_world.
Proof.
  destruct (findOrCreateRecord_requests (states_down_env []) "States" "Abbreviation" "CA"
              ∅ empty_world) as (writes & Htrace & _ & Hthrow).
  split.
  - reflexivity.
  - apply (Hthrow (Error "NOT_AUTHORIZED")). reflexivity.
Defined.

(* ===================================================================== *)
(** ** The identifiers asked of the people endpoint                      *)
(* ===================================================================== *)

Lemma existsb_eqb_In x (l : list string) : existsb (String.eqb x) l = true <-> In x l.
Proof.
  rewrite existsb_exists. split.
  - intros (y & Hy & E). apply String.eqb_eq in E. subst. exact Hy.
  - intros H. exists x. split; [exact H|apply String.eqb_refl].
Qed.

Lemma dedupe_from_spec xs : forall seen,
  NoDup (dedupe_from seen xs) /\
  (forall x, In x (dedupe_from seen xs) <-> In x xs /\ ~ In x seen).
Proof.
  induction xs as [|x xs IH]; intros seen; cbn [dedupe_from].
  - split; [constructor|]. intros y. cbn. tauto.
  - destruct (existsb (String.eqb x) seen) eqn:E.
    + apply existsb_eqb_In in E. destruct (IH seen) as [Hnd Hin].
      split; [exact Hnd|]. intros y. rewrite Hin. cbn. split; [tauto|].
      intros [[<-|Hy] Hn]; tauto.
    + assert (Hx : ~ In x seen).
      { intros H. apply existsb_eqb_In in H. congruence. }
      destruct (IH (x :: seen)) as [Hnd Hin]. split.
      * apply NoDup_cons. split; [|exact Hnd].
        intros H. apply list_elem_of_In, Hin in H. cbn in H. tauto.
      * intros y. cbn [In]. rewrite Hin. cbn [In].
        destruct (String.eqb_spec x y) as [->|Hne]; tauto.
Qed.

(** X7.  The identifiers sent to the people endpoint are the non-empty
    identifiers of the stubs, each exactly once. *)
Theorem personIds_unique people :
  NoDup (personIds people) /\
  (forall id, In id (personIds people) <->
              id <> "" /\ exists p, In p people /\ person_id p = Some id).
Proof.
  unfold personIds.
  destruct (dedupe_from_spec
              (List.map Js.or_empty (List.filter Js.truthy (List.map person_id people))) [])
    as [Hnd Hin].
  split; [exact Hnd|]. intros id. rewrite Hin. split.
  - intros [H _]. apply in_map_iff in H as (v & <- & Hv).
    apply filter_In in Hv as [Hv Ht]. apply in_map_iff in Hv as (p & <- & Hp).
    destruct (person_id p) as [[|c s]|] eqn:E; try discriminate.
    split; [discriminate|]. exists p. auto.
  - intros [Hne (p & Hp & E)]. split; [|intros []].
    apply in_map_iff. exists (Some id). split; [reflexivity|].
    apply filter_In. split; [rewrite <- E; apply in_map, Hp|].
    destruct id; [congruence|reflexivity].
Qed.

Lemma personIds_unique_witness :
  In "ocd-person/1" (personIds [numbered_stub 1; stub None None; numbered_stub 1]) /\
  List.length (personIds [numbered_stub 1; stub None None; numbered_stub 1]) = 1.
Proof.
  destruct (personIds_unique [numbered_stub 1; stub None None; numbered_stub 1])
    as [_ Hin].
  split.
  - apply Hin. split; [discriminate|]. exists (numbered_stub 1).
    split; [left; reflexivity|reflexivity].
  - reflexivity.
Defined.

(* ===================================================================== *)
(** ** Any number of sponsors                                            *)
(* ===================================================================== *)

Section AnyNumber.

Context (env : Env).

Lemma fetchChunks_chunks fuel ids : forall i peopleMap w,
  List.length ids - i <= fuel ->
  exists chunks,
    people_calls (snd (fetchChunks env fuel ids i peopleMap w)) =
      people_calls w ++ chunks /\
    concat chunks = skipn i ids /\
    Forall (fun chunk => 0 < List.length chunk <= 10) chunks /\
    store (snd (fetchChunks env fuel ids i peopleMap w)) = store w.
Proof.
  induction fuel as [|fuel IH]; intros i peopleMap w Hfuel.
  - rewrite fetchChunks_done by lia. exists []. cbn [snd concat].
    rewrite app_nil_r, skipn_all2 by lia. auto.
  - destruct (Nat.ltb_spec i (List.length ids)) as [Hi|Hi].
    + rewrite fetchChunks_step by exact Hi.
      destruct (IH (i + chunkSize)
                  (absorb (people_api env (clock w) (firstn chunkSize (skipn i ids)))
                     peopleMap)
                  (log (EvPeople (firstn chunkSize (skipn i ids))) w))
        as (chunks & Hcalls & Hcat & Hall & Hstore); [unfold chunkSize; lia|].
      exists (firstn chunkSize (skipn i ids) :: chunks).
      split; [|split; [|split]].
      * rewrite Hcalls, people_calls_log, <- app_assoc. reflexivity.
      * cbn [concat]. rewrite Hcat, <- drop_drop.
        apply firstn_skipn.
      * constructor; [|exact Hall]. unfold chunkSize.
        rewrite length_take, length_drop. lia.
      * rewrite Hstore. reflexivity.
    + rewrite fetchChunks_done by lia. exists []. cbn [snd concat].
      rewrite app_nil_r, skipn_all2 by lia. auto.
Qed.

End AnyNumber.

(** X8.  For any list of stubs, the people requests of one legislator sync
    carry between one and ten identifiers each, together they carry the
    distinct non-empty identifiers of the stubs in order, and there are as
    many requests as chunks of ten: none when no stub has an identifier. *)
Theorem syncLegislators_chunks env people w :
  exists chunks,
    people_calls (snd (syncLegislators env people w)) = people_calls w ++ chunks /\
    concat chunks = personIds people /\
    Forall (fun chunk => 0 < List.length chunk <= 10) chunks /\
    List.length chunks = (List.length (personIds people) + 9) / 10.
Proof.
  unfold syncLegislators. destruct people as [|p people'].
  { exists []. cbn. rewrite app_nil_r. auto. }
  set (ppl := p :: people').
  rewrite try_catch_total.
  2:{ destruct (personIds ppl); [apply total_ret|].
      apply total_bind; [apply total_fetchChunks|intros m; apply total_forEach_collect]. }
  destruct (personIds ppl) as [|i0 ids0] eqn:Hids.
  { exists []. cbn. rewrite app_nil_r. auto. }
  rewrite <- Hids. unfold bind.
  destruct (fetchChunks_chunks env (List.length (personIds ppl)) (personIds ppl) 0 ∅ w)
    as (chunks & Hcalls & Hcat & Hall & _); [lia|].
  pose proof (fetchChunks_calls env (List.length (personIds ppl)) (personIds ppl) 0 ∅ w)
    as Hcount.
  destruct (total_fetchChunks env (List.length (personIds ppl)) (personIds ppl) 0 ∅ w)
    as [m Hm].
  destruct (fetchChunks env (List.length (personIds ppl)) (personIds ppl) 0 ∅ w)
    as [r w1]. cbn [fst snd] in *. subst r.
  exists chunks.
  pose proof (forEach_collect_quiet (syncPerson env m) ppl []
                (fun x => findOrCreateRecord_quiet env _ _ _ _) w1) as Hq.
  cbn beta in Hq. rewrite Hq. split; [exact Hcalls|]. split; [exact Hcat|].
  split; [exact Hall|].
  rewrite Hcalls, List.length_app, Nat.sub_0_r in Hcount. lia.
Qed.

(* ===================================================================== *)
(** ** One identifier per item                                           *)
(* ===================================================================== *)

Section Collect.

Lemma forEach_collect_length {A} (f : A -> M nat) xs : forall ids w,
  exists out,
    fst (forEach_collect f xs ids w) = Ok out /\
    List.length out <= List.length ids + List.length xs /\
    ((forall x w0, exists id, fst (f x w0) = Ok id) ->
     List.length out = List.length ids + List.length xs).
Proof.
  induction xs as [|x xs IH]; intros ids w; cbn [forEach_collect].
  - exists ids. cbn. split; [reflexivity|]. split; lia.
  - unfold bind at 1, try_catch at 1, bind at 1.
    destruct (f x w) as [[id|e] w1] eqn:E; cbn [ret].
    + destruct (IH (ids ++ [id]) w1) as (out & Hout & Hle & Heq).
      exists out. split; [exact Hout|]. rewrite List.length_app in *. cbn in *.
      split; [lia|]. intros Hf. rewrite (Heq Hf). lia.
    + destruct (IH ids w1) as (out & Hout & Hle & Heq).
      exists out. split; [exact Hout|]. cbn. split; [lia|].
      intros Hf. destruct (Hf x w) as [id Hid]. rewrite E in Hid. discriminate.
Qed.

End Collect.

(** X9.  The subject sync returns at most one record identifier per label
    and never throws; when the store does not fail it returns exactly one
    per label. *)
Theorem syncSubjects_one_id_each env subjects w :
  exists subjectIds,
    fst (syncSubjects env subjects w) = Ok subjectIds /\
    List.length subjectIds <= List.length subjects /\
    (no_store_fault env -> List.length subjectIds = List.length subjects).
Proof.
  unfold syncSubjects.
  destruct (forEach_collect_length (syncSubject env) subjects [] w)
    as (out & Hout & Hle & Heq).
  exists out. split; [exact Hout|]. split; [exact Hle|].
  intros Hnf. apply Heq. intros x w0. apply findOrCreateRecord_no_fault, Hnf.
Qed.

Lemma syncSubjects_one_id_each_witness :
  exists subjectIds,
    fst (syncSubjects (calm_env []) ["PUBLIC_SAFETY"; "Education"] empty_world)
      = Ok subjectIds /\
    List.length subjectIds = 2.
Proof.
  destruct (syncSubjects_one_id_each (calm_env []) ["PUBLIC_SAFETY"; "Education"]
              empty_world) as (ids & Hok & _ & Heq).
  exists ids. split; [exact Hok|]. apply Heq. intros n ev. reflexivity.
Defined.

(** X10.  The legislator sync never throws and returns at most one record
    identifier per stub.  When no stub carries an identifier it returns the
    empty list without a single request, so nobody is reconciled; otherwise,
    when the store does not fail, it returns exactly one identifier per
    stub, duplicates included. *)
Theorem syncLegislators_one_id_each env people w :
  exists legislatorIds,
    fst (syncLegislators env people w) = Ok legislatorIds /\
    List.length legislatorIds <= List.length people /\
    (personIds people = [] ->
       legislatorIds = [] /\ snd (syncLegislators env people w) = w) /\
    (no_store_fault env -> personIds people <> [] ->
       List.length legislatorIds = List.length people).
Proof.
  unfold syncLegislators. destruct people as [|p people'].
  { exists []. cbn. repeat split; auto; intros; congruence. }
  set (ppl := p :: people').
  rewrite try_catch_total.
  2:{ destruct (personIds ppl); [apply total_ret|].
      apply total_bind; [apply total_fetchChunks|intros m; apply total_forEach_collect]. }
  destruct (personIds ppl) as [|i0 ids0] eqn:Hids.
  { exists []. cbn. repeat split; auto; try lia; intros; congruence. }
  unfold bind.
  destruct (total_fetchChunks env (List.length (i0 :: ids0)) (i0 :: ids0) 0 ∅ w)
    as [m Hm].
  destruct (fetchChunks env (List.length (i0 :: ids0)) (i0 :: ids0) 0 ∅ w) as [r w1].
  cbn [fst] in Hm. subst r.
  destruct (forEach_collect_length (syncPerson env m) ppl [] w1)
    as (out & Hout & Hle & Heq).
  exists out. split; [exact Hout|]. split; [exact Hle|]. split; [discriminate|].
  intros Hnf _. apply Heq. intros x w0. apply findOrCreateRecord_no_fault, Hnf.
Qed.

Lemma syncLegislators_one_id_each_witness :
  fst (syncLegislators (calm_env []) [stub None (Some "Committee on Rules")] empty_world)
    = Ok [] /\
  fst (syncLegislators (calm_env []) [numbered_stub 4; numbered_stub 4] empty_world)
    = Ok [0; 0].
Proof.
  split.
  - destruct (syncLegislators_one_id_each (calm_env [])
                [stub None (Some "Committee on Rules")] empty_world)
      as (ids & Hok & _ & Hnone & _).
    destruct (Hnone eq_refl) as [-> _]. exact Hok.
  - destruct (syncLegislators_one_id_each (calm_env [])
                [numbered_stub 4; numbered_stub 4] empty_world)
      as (ids & Hok & _ & _ & Hall).
    assert (Hlen : List.length ids = 2).
    { apply Hall; [intros n ev; reflexivity|discriminate]. }
    vm_compute. reflexivity.
Defined.

(* ===================================================================== *)
(** ** Office information                                                *)
(* ===================================================================== *)

Lemma truthy_nonempty v : Js.truthy v = true -> Js.or_empty v <> "".
Proof. destruct v as [[|c s]|]; discriminate. Qed.

Lemma truthy_Some s : Js.truthy (Some s) = true <-> s <> "".
Proof. destruct s; cbn; intuition congruence. Qed.

Lemma info_links_spec p u :
  In u (info_links (extractOfficeInfo p)) <->
  u <> "" /\ exists links, person_links p = Some links /\
                           In {| link_url := Some u |} links.
Proof.
  unfold extractOfficeInfo. cbn [info_links].
  destruct (person_links p) as [links|]; [|cbn; split; [tauto|intros [_ (l & H & _)]; discriminate]].
  rewrite in_map_iff. split.
  - intros (v & <- & Hv). apply filter_In in Hv as [Hv Ht].
    apply in_map_iff in Hv as ([url] & E & Hl). cbn in E. subst v.
    split; [apply truthy_nonempty, Ht|].
    exists links. split; [reflexivity|].
    destruct url as [s|]; [exact Hl|discriminate Ht].
  - intros [Hne (l & E & Hin)]. injection E as <-.
    exists (Some u). split; [reflexivity|]. apply filter_In. split.
    + apply in_map_iff. exists {| link_url := Some u |}. auto.
    + apply truthy_Some, Hne.
Qed.

(** X11.  The office information of a person takes phone and address from
    the first office only, and only when they are non-empty; the links are
    exactly the non-empty URLs of the person's links, so there are never
    more links than entries. *)
Theorem extractOfficeInfo_first_office p :
  (forall phone, info_phone (extractOfficeInfo p) = Some phone ->
     phone <> "" /\ exists office others,
       person_offices p = Some (office :: others) /\ office_voice office = Some phone) /\
  (forall address, info_address (extractOfficeInfo p) = Some address ->
     address <> "" /\ exists office others,
       person_offices p = Some (office :: others) /\
       office_address office = Some address) /\
  (forall u, In u (info_links (extractOfficeInfo p)) <->
     u <> "" /\ exists links, person_links p = Some links /\
                              In {| link_url := Some u |} links) /\
  List.length (info_links (extractOfficeInfo p)) <=
    List.length (default [] (person_links p)).
Proof.
  split; [|split; [|split]].
  - intros phone. unfold extractOfficeInfo, first_office. cbn [info_phone].
    destruct (person_offices p) as [[|office others]|]; try discriminate.
    destruct (Js.truthy (office_voice office)) eqn:Ht; [|discriminate].
    intros E. split; [|eauto].
    rewrite E in Ht. apply truthy_Some, Ht.
  - intros address. unfold extractOfficeInfo, first_office. cbn [info_address].
    destruct (person_offices p) as [[|office others]|]; try discriminate.
    destruct (Js.truthy (office_address office)) eqn:Ht; [|discriminate].
    intros E. split; [|eauto].
    rewrite E in Ht. apply truthy_Some, Ht.
  - apply info_links_spec.
  - unfold extractOfficeInfo. cbn [info_links].
    destruct (person_links p) as [links|]; [|cbn; lia].
    change (default [] (Some links)) with links. rewrite List.length_map.
    etransitivity; [apply List.filter_length_le|]. rewrite List.length_map. lia.
Qed.

Lemma extractOfficeInfo_first_office_witness :
  info_phone (extractOfficeInfo officed_person) = Some "555-0100" /\
  info_address (extractOfficeInfo officed_person) = None /\
  In "https://example.org/b" (info_links (extractOfficeInfo officed_person)).
Proof.
  destruct (extractOfficeInfo_first_office officed_person) as (_ & _ & Hlinks & _).
  split; [reflexivity|]. split; [reflexivity|].
  apply Hlinks. split; [discriminate|]. eexists. split; [reflexivity|].
  right. right. left. reflexivity.
Defined.

(* ===================================================================== *)
(** ** What the field sets never hold                                    *)
(* ===================================================================== *)

Lemma join_nonempty sep w ws : w <> "" -> Js.join sep (w :: ws) <> "".
Proof.
  intros Hw. cbn [Js.join]. destruct ws; [exact Hw|].
  destruct w; [congruence|discriminate].
Qed.


Ltac in_cells := cbn; repeat first [left; reflexivity | right].

Ltac rewrite_cells H :=
  repeat first
    [ rewrite lookup_set_links in H
    | rewrite lookup_set_if_truthy in H
    | rewrite lookup_insert_eqb in H
    | rewrite lookup_empty in H ].

(** X12.  A legislator's field set holds only cells of the fifteen known
    names, every cell is a text, and apart from Full Name and OpenStates ID
    no cell is ever the empty text. *)
Theorem legislatorRecordData_cells p k v :
  legislatorRecordData p !! k = Some v ->
  In k legislator_cells /\
  exists s, v = FStr s /\ (k <> "Full Name" -> k <> "OpenStates ID" -> s <> "").
Proof.
  unfold legislatorRecordData. intros H. cbv zeta in H.
  assert (Hjoin : forall l ls, info_links (extractOfficeInfo p) = l :: ls ->
                    Js.join (String "010" EmptyString) (l :: ls) <> "").
  { intros l ls E. apply join_nonempty.
    assert (Hin : In l (info_links (extractOfficeInfo p))) by (rewrite E; left; reflexivity).
    apply info_links_spec in Hin. tauto. }
  destruct (info_links (extractOfficeInfo p)) as [|l ls] eqn:El;
    rewrite_cells H;
    repeat match type of H with
           | (if ?b then _ else _) = _ =>
               let E := fresh "E" in
               destruct b eqn:E;
               [ try (apply andb_prop in E as [? E]);
                 apply String.eqb_eq in E; subst k; injection H as <-;
                 (split; [in_cells|]); eexists; (split; [reflexivity|]);
                 intros; first [ congruence
                               | apply truthy_nonempty; assumption
                               | apply truthy_Some; assumption
                               | eapply Hjoin; reflexivity ]
               | ]
           end.
  all: discriminate H.
Qed.

Lemma legislatorRecordData_cells_witness :
  exists s, FStr "Independent" = FStr s /\ s <> "".
Proof.
  destruct (legislatorRecordData_cells (full_person "ocd-person/1") "Party"
              (FStr "Independent")) as (_ & s & Hs & Hne).
  - reflexivity.
  - exists s. split; [exact Hs|]. apply Hne; discriminate.
Defined.

(* ===================================================================== *)
(** ** The field set of a bill                                           *)
(* ===================================================================== *)

Lemma strip_spaces_clean s : string_forall not_space (Js.strip_spaces s) = true.
Proof.
  induction s as [|c s IH]; [reflexivity|].
  cbn [Js.strip_spaces]. destruct (Js.is_space c) eqn:E; [exact IH|].
  cbn [string_forall]. unfold not_space at 1. rewrite E, IH. reflexivity.
Qed.

Lemma determineStatus_truthy d : Js.truthy (Some (determineStatus d)) = true.
Proof.
  pose proof (determineStatus_in_enum d) as H. unfold status_enum in H. cbn in H.
  repeat destruct H as [<-|H]; try reflexivity. destruct H.
Qed.

Lemma normalizeDate_truthy parse d :
  Js.truthy d = true -> exists r, normalizeDate parse d = Some r.
Proof.
  intros H. unfold normalizeDate. rewrite H. cbn [negb].
  destruct (normalizeDate_try parse (Js.or_empty d)); eauto.
Qed.

(** X13.  Whatever the bill, its field set carries the jurisdiction code in
    upper case and a status of the enumeration; a Slug, when present, has no
    white space; and a date cell, when present, is a text, never null. *)
Theorem billRecordData_cells env state bill sponsorIds subjectIds :
  let recordData := billRecordData env state bill sponsorIds subjectIds in
  recordData !! "State" = Some (FStr (Js.toUpperCase state)) /\
  recordData !! "Current Status" =
    Some (FStr (determineStatus (bill_latest_action_description bill))) /\
  In (determineStatus (bill_latest_action_description bill)) status_enum /\
  (forall v, recordData !! "Slug" = Some v ->
     exists slug, v = FStr slug /\ string_forall not_space slug = true) /\
  (forall v, recordData !! "Latest Action Date" = Some v -> exists d, v = FStr d) /\
  (forall v, recordData !! "Introduction Date" = Some v -> exists d, v = FStr d).
Proof.
  cbn zeta. unfold billRecordData.
  split; [read_cell; reflexivity|].
  split; [read_cell; rewrite ?determineStatus_truthy; reflexivity|].
  split; [apply determineStatus_in_enum|].
  split; [|split].
  - intros v H. destruct (Js.truthy (bill_identifier bill));
      destruct (Js.truthy (bill_latest_action_date bill));
      destruct (Js.truthy (bill_first_action_date bill));
      rewrite_cells H; cbn [String.eqb Ascii.eqb Bool.eqb andb] in H;
      rewrite ?andb_false_r in H; cbn beta iota in H;
      try discriminate H; injection H as <-;
      eexists; (split; [reflexivity|apply strip_spaces_clean]).
  - intros v H.
    destruct (Js.truthy (bill_latest_action_date bill)) eqn:Ed;
      destruct (Js.truthy (bill_identifier bill));
      destruct (Js.truthy (bill_first_action_date bill));
      rewrite_cells H; cbn [String.eqb Ascii.eqb Bool.eqb andb] in H;
      rewrite ?andb_false_r in H; cbn beta iota in H;
      try discriminate H; injection H as <-;
      destruct (normalizeDate_truthy (date_parse env) _ Ed) as [r ->]; eauto.
  - intros v H.
    destruct (Js.truthy (bill_first_action_date bill)) eqn:Ed;
      destruct (Js.truthy (bill_identifier bill));
      destruct (Js.truthy (bill_latest_action_date bill));
      rewrite_cells H; cbn [String.eqb Ascii.eqb Bool.eqb andb] in H;
      rewrite ?andb_false_r in H; cbn beta iota in H;
      try discriminate H; injection H as <-;
      destruct (normalizeDate_truthy (date_parse env) _ Ed) as [r ->]; eauto.
Qed.

Lemma billRecordData_cells_witness :
  exists slug,
    FStr "AB1" = FStr slug /\ string_forall not_space slug = true.
Proof.
  destruct (billRecordData_cells (calm_env []) "ca"
              (sample_bill "ocd-bill/1" "AB 1" [] []) [] [])
    as (_ & _ & _ & Hslug & _).
  apply Hslug. vm_compute. reflexivity.
Defined.

(* ===================================================================== *)
(** ** The outcome of a bill sync                                        *)
(* ===================================================================== *)

Section BillSyncOutcome.

Context (env : Env) (state : string).

Lemma total_findOrCreateRecord t field value recordData :
  no_store_fault env -> total (findOrCreateRecord env t field value recordData).
Proof. intros Hnf w. apply findOrCreateRecord_no_fault, Hnf. Qed.

Lemma syncBill_no_fault bill : no_store_fault env -> total (syncBill env state bill).
Proof.
  intros Hnf. unfold syncBill.
  apply total_bind.
  { destruct (bill_sponsorships bill); [apply total_ret|apply total_syncLegislators]. }
  intros sponsorIds. apply total_bind.
  { destruct (bill_subject bill); [apply total_ret|apply total_syncSubjects]. }
  intros subjectIds. apply total_bind; [apply total_findOrCreateRecord, Hnf|].
  intros id. apply total_ret.
Qed.

(** The loop counts one bill at most per pass, and never throws. *)
Lemma syncBills_loop_count bills : forall syncedCount w,
  exists n w',
    syncBills_loop env state bills syncedCount w = (Ok n, w') /\
    syncedCount <= n <= syncedCount + List.length bills /\
    (no_store_fault env -> n = syncedCount + List.length bills).
Proof.
  induction bills as [|bill bills IH]; intros syncedCount w.
  - exists syncedCount, w. cbn. split; [reflexivity|]. split; lia.
  - cbn [syncBills_loop]. unfold bind at 1, try_catch at 1, bind at 1.
    destruct (syncBill env state bill w) as [[[]|e] w1] eqn:E; cbn [ret].
    + destruct (IH (S syncedCount) w1) as (n & w' & Hrun & Hle & Heq).
      exists n, w'. split; [exact Hrun|]. cbn [List.length]. split; [lia|].
      intros Hnf. rewrite (Heq Hnf). lia.
    + destruct (IH syncedCount w1) as (n & w' & Hrun & Hle & Heq).
      exists n, w'. split; [exact Hrun|]. cbn [List.length]. split; [lia|].
      intros Hnf. destruct (syncBill_no_fault bill Hnf w) as [a Ha].
      rewrite E in Ha. discriminate.
Qed.

(** The loop counts exactly the bills that go through. *)
Lemma syncBills_loop_through bills : forall syncedCount w,
  fst (syncBills_loop env state bills syncedCount w) =
  Ok (syncedCount + bills_through env state bills w).
Proof.
  induction bills as [|bill bills IH]; intros syncedCount w.
  - cbn. rewrite Nat.add_0_r. reflexivity.
  - cbn [syncBills_loop bills_through]. unfold bind at 1, try_catch at 1, bind at 1.
    destruct (syncBill env state bill w) as [[[]|e] w1]; cbn [ret fst snd];
      rewrite IH; f_equal; lia.
Qed.

Lemma syncBills_run limit w :
  match bills_api env (clock w) (Js.toLowerCase state) limit with
  | Throw e =>
      syncBills env state limit w =
        (Throw e, log (EvBills (Js.toLowerCase state) limit) w)
  | Ok response =>
      exists synced w',
        syncBills env state limit w =
          (Ok {| sr_success := true; sr_synced := synced;
                 sr_total := List.length (default [] response) |}, w') /\
        synced <= List.length (default [] response) /\
        (no_store_fault env -> synced = List.length (default [] response))
  end.
Proof.
  unfold syncBills, fetchBills. run.
  destruct (bills_api env (clock w) (Js.toLowerCase state) limit) as [response|e];
    [|reflexivity].
  destruct (syncBills_loop_count (default [] response) 0
              (log (EvBills (Js.toLowerCase state) limit) w))
    as (n & w' & Hrun & Hle & Heq).
  rewrite Hrun. exists n, w'. split; [reflexivity|]. split; [lia|].
  intros Hnf. rewrite (Heq Hnf). reflexivity.
Qed.

Lemma syncBills_synced_le limit w r w' :
  syncBills env state limit w = (Ok r, w') -> sr_synced r <= sr_total r.
Proof.
  intros E. pose proof (syncBills_run limit w) as H.
  destruct (bills_api env (clock w) (Js.toLowerCase state) limit) as [response|e].
  - destruct H as (synced & w0 & Hrun & Hle & _). rewrite Hrun in E.
    injection E as <- <-. exact Hle.
  - rewrite H in E. discriminate.
Qed.

End BillSyncOutcome.

(** X14.  A bill sync throws only when the bills request fails, and then
    with the error of that request, after that single request and without a
    write.  Otherwise it returns success with the number of bills the
    request returned as total and, as synced, the number of those bills
    whose own body went through: a bill that throws is not counted.  That
    number is never more than the total and is the total when the store
    does not fail. *)
Theorem syncBills_outcome env state limit w :
  match bills_api env (clock w) (Js.toLowerCase state) limit with
  | Throw e =>
      syncBills env state limit w =
        (Throw e, log (EvBills (Js.toLowerCase state) limit) w)
  | Ok response =>
      let bills := default [] response in
      let through :=
        bills_through env state bills (log (EvBills (Js.toLowerCase state) limit) w) in
      fst (syncBills env state limit w) =
        Ok {| sr_success := true; sr_synced := through;
              sr_total := List.length bills |} /\
      through <= List.length bills /\
      (no_store_fault env -> through = List.length bills)
  end.
Proof.
  pose proof (syncBills_run env state limit w) as H.
  destruct (bills_api env (clock w) (Js.toLowerCase state) limit) as [response|e] eqn:Ea;
    [|exact H].
  destruct H as (synced & w' & Hrun & Hle & Heq). cbv zeta.
  assert (Hs : synced = bills_through env state (default [] response)
                          (log (EvBills (Js.toLowerCase state) limit) w)).
  { unfold syncBills, fetchBills in Hrun. run. rewrite Ea in Hrun.
    pose proof (syncBills_loop_through env state (default [] response) 0
                  (log (EvBills (Js.toLowerCase state) limit) w)) as Hloop.
    destruct (syncBills_loop env state (default [] response) 0
                (log (EvBills (Js.toLowerCase state) limit) w)) as [[n|e] w1];
      cbn [fst] in Hloop; [|discriminate Hloop].
    injection Hloop as ->. injection Hrun as <- _. reflexivity. }
  subst synced. rewrite Hrun. split; [reflexivity|]. split; [exact Hle|exact Heq].
Qed.

Lemma syncBills_outcome_witness :
  fst (syncBills (calm_env sample_bills) "CA" 50 empty_world) =
    Ok {| sr_success := true; sr_synced := 2; sr_total := 2 |} /\
  fst (syncBills second_bill_refused_env "CA" 50 empty_world) =
    Ok {| sr_success := true; sr_synced := 1; sr_total := 2 |} /\
  syncBills api_down_env "CA" 50 empty_world =
    (Throw (Error "Plural API error: 503"), log (EvBills "ca" 50) empty_world).
Proof.
  split; [|split].
  - pose proof (syncBills_outcome (calm_env sample_bills) "CA" 50 empty_world) as H.
    cbn [bills_api calm_env] in H. destruct H as (Hrun & _ & Heq).
    rewrite Hrun, Heq; [reflexivity|]. intros n ev. reflexivity.
  - pose proof (syncBills_outcome second_bill_refused_env "CA" 50 empty_world) as H.
    cbn [bills_api second_bill_refused_env] in H. destruct H as (Hrun & _ & _).
    rewrite Hrun. vm_compute. reflexivity.
  - exact (syncBills_outcome api_down_env "CA" 50 empty_world).
Defined.

(* ===================================================================== *)
(** ** Each sync unit keeps to its tables                                *)
(* ===================================================================== *)

Section OwnTables.

Context (env : Env).

Lemma syncState_frames t jurisdiction :
  t <> "States" -> preserves (frames t) (syncState env jurisdiction).
Proof.
  intros Hne. unfold syncState.
  apply preserves_try_catch; [apply frames_trans| |intros e; apply preserves_ret, frames_refl].
  apply preserves_bind; [apply frames_trans| |intros a; apply preserves_ret, frames_refl].
  apply findOrCreateRecord_frames. congruence.
Qed.

Lemma syncBill_frames t state bill :
  t <> "Bills" -> t <> "Legislators" -> t <> "Subjects" ->
  preserves (frames t) (syncBill env state bill).
Proof.
  intros Hb Hl Hs. unfold syncBill.
  apply preserves_bind; [apply frames_trans| |].
  { destruct (bill_sponsorships bill);
      [apply preserves_ret, frames_refl|apply syncLegislators_frames, Hl]. }
  intros sponsorIds. apply preserves_bind; [apply frames_trans| |].
  { destruct (bill_subject bill);
      [apply preserves_ret, frames_refl|apply syncSubjects_frames, Hs]. }
  intros subjectIds. apply preserves_bind; [apply frames_trans| |].
  { apply findOrCreateRecord_frames. congruence. }
  intros id. apply preserves_ret, frames_refl.
Qed.

Lemma syncBills_loop_frames t state bills : forall syncedCount,
  t <> "Bills" -> t <> "Legislators" -> t <> "Subjects" ->
  preserves (frames t) (syncBills_loop env state bills syncedCount).
Proof.
  induction bills as [|bill bills IH]; intros syncedCount Hb Hl Hs; cbn [syncBills_loop].
  - apply preserves_ret, frames_refl.
  - apply preserves_bind; [apply frames_trans| |intros n; apply IH; assumption].
    apply preserves_try_catch; [apply frames_trans| |intros e; apply preserves_ret, frames_refl].
    apply preserves_bind; [apply frames_trans|apply syncBill_frames; assumption|].
    intros a. apply preserves_ret, frames_refl.
Qed.

Lemma syncBills_frames t state limit :
  t <> "Bills" -> t <> "Legislators" -> t <> "Subjects" ->
  preserves (frames t) (syncBills env state limit).
Proof.
  intros Hb Hl Hs. unfold syncBills.
  apply preserves_try_catch; [apply frames_trans| |intros e; apply preserves_throw, frames_refl].
  apply preserves_bind; [apply frames_trans| |].
  { intros w. apply frames_same_store. reflexivity. }
  intros response. apply preserves_bind; [apply frames_trans| |].
  { apply syncBills_loop_frames; assumption. }
  intros n. apply preserves_ret, frames_refl.
Qed.

End OwnTables.

(** X15.  Each sync unit writes to its own tables only: the legislator
    sync leaves every table but Legislators as it was, the subject sync
    every table but Subjects, the state sync every table but States, and the
    bill sync every table but Bills, Legislators and Subjects, whatever
    fails on the way. *)
Theorem sync_units_keep_to_their_tables env t w :
  (forall people, t <> "Legislators" ->
     table (store (snd (syncLegislators env people w))) t = table (store w) t) /\
  (forall subjects, t <> "Subjects" ->
     table (store (snd (syncSubjects env subjects w))) t = table (store w) t) /\
  (forall jurisdiction, t <> "States" ->
     table (store (snd (syncState env jurisdiction w))) t = table (store w) t) /\
  (forall state limit, t <> "Bills" -> t <> "Legislators" -> t <> "Subjects" ->
     table (store (snd (syncBills env state limit w))) t = table (store w) t).
Proof.
  split; [|split; [|split]].
  - intros people H. apply (syncLegislators_frames env t people H w).
  - intros subjects H. apply (syncSubjects_frames env t subjects H w).
  - intros jurisdiction H. apply (syncState_frames env t jurisdiction H w).
  - intros state limit Hb Hl Hs. apply (syncBills_frames env t state limit Hb Hl Hs w).
Qed.

Lemma sync_units_keep_to_their_tables_witness :
  table (store (snd (syncBills (calm_env sample_bills) "ca" 50 empty_world))) "States" = [].
Proof.
  destruct (sync_units_keep_to_their_tables (calm_env sample_bills) "States" empty_world)
    as (_ & _ & _ & Hbills).
  rewrite Hbills; [reflexivity|discriminate|discriminate|discriminate].
Defined.

(* ===================================================================== *)
(** ** The handler's summary                                             *)
(* ===================================================================== *)

Section HandlerSummary.

Context (env : Env).

(** What makes a state fail: one of its two upstream requests, nothing
    else. *)
Lemma syncOneState_run currentState limit w :
  match jurisdiction_api env (clock w) currentState with
  | Throw e =>
      syncOneState env currentState limit w =
        (Throw e, log (EvJurisdiction currentState) w)
  | Ok jurisdiction =>
      let w1 := snd (syncState env jurisdiction (log (EvJurisdiction currentState) w)) in
      match bills_api env (clock w1) (Js.toLowerCase currentState) (limit_or_50 limit) with
      | Throw e =>
          syncOneState env currentState limit w =
            (Throw e, log (EvBills (Js.toLowerCase currentState) (limit_or_50 limit)) w1)
      | Ok response =>
          exists result w',
            syncOneState env currentState limit w = (Ok result, w') /\
            sr_total result = List.length (default [] response) /\
            sr_synced result <= sr_total result
      end
  end.
Proof.
  destruct (jurisdiction_api env (clock w) currentState) as [jurisdiction|e] eqn:Ej.
  - rewrite (syncOneState_ignores_syncState env currentState limit w jurisdiction Ej).
    cbn zeta.
    pose proof (syncBills_run env currentState (limit_or_50 limit)
                  (snd (syncState env jurisdiction (log (EvJurisdiction currentState) w))))
      as H.
    destruct (bills_api env _ (Js.toLowerCase currentState) (limit_or_50 limit))
      as [response|e]; [|exact H].
    destruct H as (synced & w' & Hrun & Hle & _).
    eexists _, w'. split; [exact Hrun|]. cbn. split; [reflexivity|exact Hle].
  - unfold syncOneState, fetchJurisdiction. unfold bind at 1. rewrite Ej. reflexivity.
Qed.

Lemma syncOneState_synced_le currentState limit w result w' :
  syncOneState env currentState limit w = (Ok result, w') ->
  sr_synced result <= sr_total result.
Proof.
  intros E. pose proof (syncOneState_run currentState limit w) as H.
  destruct (jurisdiction_api env (clock w) currentState) as [jurisdiction|e].
  - cbn zeta in H.
    destruct (bills_api env _ (Js.toLowerCase currentState) (limit_or_50 limit))
      as [response|e].
    + destruct H as (r & w0 & Hrun & _ & Hle). rewrite Hrun in E.
      injection E as <- <-. exact Hle.
    + rewrite H in E. discriminate.
  - rewrite H in E. discriminate.
Qed.

Lemma sum_list_app l1 l2 : sum_list (l1 ++ l2) = sum_list l1 + sum_list l2.
Proof.
  unfold sum_list. induction l1 as [|x l1 IH]; [reflexivity|].
  cbn. rewrite IH. lia.
Qed.

Lemma handler_loop_totals statesToSync : forall limit acc w totals w',
  handler_loop env statesToSync limit acc w = (Ok totals, w') ->
  t_totalSynced acc = sum_list (List.map result_synced (t_results acc)) ->
  t_totalBills acc = sum_list (List.map result_total (t_results acc)) ->
  t_totalSynced acc <= t_totalBills acc ->
  t_totalSynced totals = sum_list (List.map result_synced (t_results totals)) /\
  t_totalBills totals = sum_list (List.map result_total (t_results totals)) /\
  t_totalSynced totals <= t_totalBills totals /\
  List.length (t_results totals) = List.length (t_results acc) + List.length statesToSync.
Proof.
  induction statesToSync as [|currentState rest IH];
    intros limit acc w totals w' E Hs Hb Hle.
  - cbn in E. injection E as <- <-. cbn [List.length]. repeat split; auto.
  - cbn [handler_loop] in E. unfold bind at 1, try_catch at 1, bind at 1 in E.
    destruct (syncOneState env currentState limit w) as [[result|stateError] w1] eqn:E1;
      cbn [ret] in E.
    + pose proof (syncOneState_synced_le _ _ _ _ _ E1) as Hr.
      apply IH in E; cbn [t_results t_totalSynced t_totalBills].
      * destruct E as (H1 & H2 & H3 & H4). repeat split; auto.
        cbn [t_results] in H4. rewrite H4, List.length_app. cbn. lia.
      * rewrite List.map_app, sum_list_app, <- Hs. cbn. lia.
      * rewrite List.map_app, sum_list_app, <- Hb. cbn. lia.
      * lia.
    + apply IH in E; cbn [t_results t_totalSynced t_totalBills].
      * destruct E as (H1 & H2 & H3 & H4). repeat split; auto.
        cbn [t_results] in H4. rewrite H4, List.length_app. cbn. lia.
      * rewrite List.map_app, sum_list_app, <- Hs. cbn. lia.
      * rewrite List.map_app, sum_list_app, <- Hb. cbn. lia.
      * lia.
Qed.

End HandlerSummary.

(** X16.  A state is reported as failed only when its jurisdiction request
    or its bills request fails, and then with the message of that request's
    error; a failure of the store never fails a state.  When the
    jurisdiction request fails nothing else is requested or written for that
    state. *)
Theorem syncOneState_failures env currentState limit w :
  match jurisdiction_api env (clock w) currentState with
  | Throw e =>
      syncOneState env currentState limit w =
        (Throw e, log (EvJurisdiction currentState) w)
  | Ok jurisdiction =>
      let w1 := snd (syncState env jurisdiction (log (EvJurisdiction currentState) w)) in
      match bills_api env (clock w1) (Js.toLowerCase currentState) (limit_or_50 limit) with
      | Throw e =>
          syncOneState env currentState limit w =
            (Throw e, log (EvBills (Js.toLowerCase currentState) (limit_or_50 limit)) w1)
      | Ok response =>
          exists result w',
            syncOneState env currentState limit w = (Ok result, w') /\
            sr_total result = List.length (default [] response) /\
            sr_synced result <= sr_total result
      end
  end.
Proof. apply syncOneState_run. Qed.

(** X17.  In a summary the handler sends, the success flag is set, the
    number of states is the number of results, the totals are the sums of
    the synced and total counts of the results, a failed state counting for
    nothing, and the synced total never exceeds the bill total. *)
Theorem handler_summary_totals env req w
    success message totalStates totalSynced totalBills results :
  resp_json (fst (handler env req w)) =
    JSummary success message totalStates totalSynced totalBills results ->
  success = true /\
  totalStates = List.length results /\
  totalSynced = sum_list (List.map result_synced results) /\
  totalBills = sum_list (List.map result_total results) /\
  totalSynced <= totalBills /\
  message = summary_message totalSynced totalBills totalStates.
Proof.
  unfold handler.
  destruct (negb (String.eqb (req_method req) "POST")); [discriminate|].
  destruct (negb (authorized env req)); [discriminate|].
  unfold handler_try.
  destruct (req_body req) as [body|]; [|discriminate].
  destruct (states_to_sync body) as [statesToSync|]; [|discriminate].
  unfold bind.
  destruct (handler_loop env statesToSync (body_limit body)
              {| t_results := []; t_totalSynced := 0; t_totalBills := 0 |} w)
    as [[totals|e] w'] eqn:E; [|discriminate].
  cbn [ret fst resp_json]. intros H. injection H as <- <- <- <- <- <-.
  destruct (handler_loop_totals env _ _ _ _ _ _ E eq_refl eq_refl (Nat.le_refl 0))
    as (H1 & H2 & H3 & H4).
  cbn [t_results List.length] in H4. repeat split; auto.
Qed.

Lemma handler_summary_totals_witness :
  exists message,
    resp_json (fst (handler (calm_env sample_bills)
                      (post (Some {| body_state := None;
                                     body_states := Some ["ca"; "ny"];
                                     body_limit := None |})) empty_world)) =
    JSummary true message 2 4 4 [StateSynced "ca" 2 2; StateSynced "ny" 2 2].
Proof.
  eexists.
  assert (H : resp_json (fst (handler (calm_env sample_bills)
                      (post (Some {| body_state := None;
                                     body_states := Some ["ca"; "ny"];
                                     body_limit := None |})) empty_world)) =
              JSummary true (summary_message 4 4 2) 2 4 4
                [StateSynced "ca" 2 2; StateSynced "ny" 2 2])
    by (vm_compute; reflexivity).
  destruct (handler_summary_totals _ _ _ _ _ _ _ _ _ H) as (_ & _ & _ & _ & _ & _).
  exact H.
Defined.

(** X18.  A request the handler does not answer with 200 leaves the world
    as it was: nothing is fetched and nothing is written for a wrong
    method, a wrong secret, a missing parameter or a missing body. *)
Theorem handler_rejection_is_inert env req w :
  resp_status (fst (handler env req w)) <> 200 -> snd (handler env req w) = w.
Proof.
  unfold handler.
  destruct (String.eqb (req_method req) "POST") eqn:Hm; cbn [negb]; [|reflexivity].
  destruct (authorized env req) eqn:Ha; cbn [negb]; [|reflexivity].
  unfold handler_try.
  destruct (req_body req) as [body|] eqn:Hb; [|reflexivity].
  destruct (states_to_sync body) as [statesToSync|] eqn:Hs; [|reflexivity].
  intros Hne. exfalso. apply Hne.
  destruct (handler_ok env req w statesToSync body Hm Ha Hb Hs)
    as (message & totalSynced & totalBills & results & H1 & _).
  unfold handler, handler_try in H1. rewrite Hm, Ha, Hb, Hs in H1. cbn [negb] in H1.
  rewrite H1. reflexivity.
Qed.

Lemma handler_rejection_is_inert_witness :
  snd (handler (calm_env sample_bills)
         {| req_method := "POST"; req_authorization := Some "Bearer guess";
            req_body := Some (state_body "ca") |} empty_world) = empty_world.
Proof.
  apply handler_rejection_is_inert. vm_compute. discriminate.
Defined.

(* ===================================================================== *)
(** ** The scheduled sync                                                *)
(* ===================================================================== *)

Section Scheduler.

Context (env : CronEnv).

Lemma cron_fetched_app tr1 tr2 :
  cron_fetched (tr1 ++ tr2) = cron_fetched tr2 ++ cron_fetched tr1.
Proof. unfold cron_fetched. rewrite rev_app_distr. apply omap_app. Qed.

Lemma cron_fetched_batch batch :
  cron_fetched (rev (List.map (fun state => CronFetch state 100) batch)) = batch.
Proof.
  unfold cron_fetched. rewrite rev_involutive.
  induction batch as [|state batch IH]; [reflexivity|].
  cbn. f_equal. exact IH.
Qed.

Lemma cron_sleeps_app tr1 tr2 :
  cron_sleeps (tr1 ++ tr2) = cron_sleeps tr1 + cron_sleeps tr2.
Proof. unfold cron_sleeps. rewrite List.filter_app, List.length_app. reflexivity. Qed.

Lemma cron_sleeps_batch batch :
  cron_sleeps (rev (List.map (fun state => CronFetch state 100) batch)) = 0.
Proof.
  unfold cron_sleeps. induction batch as [|state batch IH]; [reflexivity|].
  cbn [List.map rev]. rewrite List.filter_app, List.length_app, IH. reflexivity.
Qed.

Lemma cron_fetched_sleep ms tr : cron_fetched (CronSleep ms :: tr) = cron_fetched tr.
Proof.
  unfold cron_fetched. cbn [rev]. rewrite omap_app. cbn. apply List.app_nil_r.
Qed.

Lemma cron_sleeps_sleep ms tr : cron_sleeps (CronSleep ms :: tr) = S (cron_sleeps tr).
Proof. reflexivity. Qed.

(** A batch sends one request per state, in the order of the batch, and
    gives one result per state. *)
Lemma issue_batch_spec batch : forall tr,
  snd (issue_batch env batch tr) =
    rev (List.map (fun state => CronFetch state 100) batch) ++ tr /\
  List.map settled_state (fst (issue_batch env batch tr)) = batch.
Proof.
  induction batch as [|state rest IH]; intros tr; [split; reflexivity|].
  cbn [issue_batch]. specialize (IH (CronFetch state 100 :: tr)).
  destruct (issue_batch env rest (CronFetch state 100 :: tr)) as [settled tr'].
  cbn [fst snd] in *. destruct IH as [-> Hs]. split.
  - cbn [List.map rev]. rewrite <- List.app_assoc. reflexivity.
  - cbn [List.map]. rewrite Hs. f_equal.
    destruct (sync_endpoint env (List.length tr) state) as [|[text|e]|e]; reflexivity.
Qed.

(** The states of a set of results. *)
Lemma record_settled_states l : forall results,
  Permutation
    (cr_success (fold_left record_settled l results) ++
     List.map fst (cr_failed (fold_left record_settled l results)))
    ((cr_success results ++ List.map fst (cr_failed results)) ++
     List.map settled_state l).
Proof.
  induction l as [|s l IH]; intros results.
  - cbn. rewrite List.app_nil_r. reflexivity.
  - cbn [fold_left List.map]. rewrite IH. destruct s as [state|state error];
      cbn [record_settled cr_success cr_failed settled_state].
    + rewrite <- !List.app_assoc. apply Permutation_app_head.
      cbn [List.app]. rewrite Permutation_middle. reflexivity.
    + rewrite List.map_app, <- !List.app_assoc. reflexivity.
Qed.

Lemma record_settled_total l : forall results,
  cr_total (fold_left record_settled l results) = cr_total results.
Proof.
  induction l as [|s l IH]; intros results; [reflexivity|].
  cbn [fold_left]. rewrite IH. destruct s; reflexivity.
Qed.

Lemma skipn_batch {A} (l : list A) i :
  firstn batchSize (skipn i l) ++ skipn (i + batchSize) l = skipn i l.
Proof.
  rewrite Nat.add_comm, <- List.skipn_skipn. apply List.firstn_skipn.
Qed.

Lemma sleeps_step n i :
  i + batchSize < n -> (n - i - 1) / batchSize = S ((n - (i + batchSize) - 1) / batchSize).
Proof.
  unfold batchSize. intros H.
  replace (n - i - 1) with (1 * 5 + (n - (i + 5) - 1)) by lia.
  rewrite Nat.div_add_l by discriminate. reflexivity.
Qed.

Lemma sleeps_last n i :
  i < n -> ~ i + batchSize < n -> (n - i - 1) / batchSize = 0.
Proof. unfold batchSize. intros H1 H2. apply Nat.div_small. lia. Qed.

Lemma run_batches_spec states : forall fuel i results tr,
  List.length states - i <= fuel ->
  let out := run_batches env fuel states i results tr in
  cron_fetched (snd out) = cron_fetched tr ++ skipn i states /\
  cron_sleeps (snd out) = cron_sleeps tr + (List.length states - i - 1) / batchSize /\
  cr_total (fst out) = cr_total results /\
  (fair_order env ->
   Permutation
     (cr_success (fst out) ++ List.map fst (cr_failed (fst out)))
     ((cr_success results ++ List.map fst (cr_failed results)) ++ skipn i states)).
Proof.
  induction fuel as [|fuel IH]; intros i results tr Hfuel out; subst out.
  - assert (Hi : List.length states <= i) by lia.
    cbn [run_batches fst snd]. rewrite (List.skipn_all2 states Hi), !List.app_nil_r.
    replace (List.length states - i - 1) with 0 by lia.
    rewrite Nat.add_0_r. repeat split; reflexivity.
  - cbn [run_batches]. destruct (Nat.ltb_spec i (List.length states)) as [Hi|Hi].
    + destruct (issue_batch_spec (firstn batchSize (skipn i states)) tr) as [Htr Hst].
      destruct (issue_batch env (firstn batchSize (skipn i states)) tr)
        as [settled tr1]. cbn [fst snd] in Htr, Hst. subst tr1.
      match goal with
      | |- context [run_batches env fuel states (i + batchSize) ?r ?t] =>
          destruct (IH (i + batchSize) r t) as (H1 & H2 & H3 & H4); [unfold batchSize; lia|]
      end.
      destruct (Nat.ltb_spec (i + batchSize) (List.length states)) as [Hmore|Hlast].
      * rewrite H1, H2, H3. split; [|split; [|split]].
        -- rewrite cron_fetched_sleep, !cron_fetched_app, cron_fetched_batch.
           rewrite <- List.app_assoc, skipn_batch. reflexivity.
        -- rewrite cron_sleeps_sleep, !cron_sleeps_app, cron_sleeps_batch.
           rewrite (sleeps_step _ _ Hmore). lia.
        -- apply record_settled_total.
        -- intros Hfair. rewrite (H4 Hfair), record_settled_states, (Hfair _ settled), Hst.
           rewrite <- (skipn_batch states i) at 2. rewrite <- !List.app_assoc. reflexivity.
      * rewrite H1, H2, H3. split; [|split; [|split]].
        -- rewrite !cron_fetched_app, cron_fetched_batch.
           rewrite <- List.app_assoc, skipn_batch. reflexivity.
        -- rewrite !cron_sleeps_app, cron_sleeps_batch.
           rewrite (sleeps_last _ _ Hi) by lia.
           replace (List.length states - (i + batchSize) - 1) with 0 by lia.
           rewrite Nat.Div0.div_0_l. lia.
        -- apply record_settled_total.
        -- intros Hfair. rewrite (H4 Hfair), record_settled_states, (Hfair _ settled), Hst.
           rewrite <- (skipn_batch states i) at 2. rewrite <- !List.app_assoc. reflexivity.
    + cbn [fst snd]. rewrite (List.skipn_all2 states Hi), !List.app_nil_r.
      replace (List.length states - i - 1) with 0 by lia.
      rewrite Nat.add_0_r. repeat split; reflexivity.
Qed.

(** Every event is a request with limit 100 or a sleep of two seconds. *)
Lemma run_batches_events states : forall fuel i results tr,
  Forall (fun ev => ev = CronSleep 2000 \/ exists state, ev = CronFetch state 100) tr ->
  Forall (fun ev => ev = CronSleep 2000 \/ exists state, ev = CronFetch state 100)
    (snd (run_batches env fuel states i results tr)).
Proof.
  induction fuel as [|fuel IH]; intros i results tr Htr; [exact Htr|].
  cbn [run_batches]. destruct (i <? List.length states)%nat; [|exact Htr].
  destruct (issue_batch_spec (firstn batchSize (skipn i states)) tr) as [Hev _].
  destruct (issue_batch env (firstn batchSize (skipn i states)) tr) as [settled tr1].
  cbn [snd] in Hev. subst tr1. apply IH.
  assert (Hbatch : Forall (fun ev => ev = CronSleep 2000 \/
                                     exists state, ev = CronFetch state 100)
                     (rev (List.map (fun state => CronFetch state 100)
                             (firstn batchSize (skipn i states))) ++ tr)).
  { apply List.Forall_app. split; [|exact Htr].
    apply List.Forall_rev, List.Forall_map, List.Forall_forall.
    intros state _. right. exists state. reflexivity. }
  destruct (i + batchSize <? List.length states)%nat; [|exact Hbatch].
  constructor; [left; reflexivity|exact Hbatch].
Qed.

Lemma scheduled_sync_authorized states authorization :
  authorization = Some ("Bearer " ++ Js.template (cron_secret env))%string ->
  scheduled_sync env states authorization =
    (let '(results, tr) :=
       run_batches env (List.length states) states 0
         {| cr_success := []; cr_failed := []; cr_total := List.length states |} [] in
     ((200, CronSummary "Scheduled sync completed"
              (List.length (cr_success results)) (List.length (cr_failed results)) results),
      tr)).
Proof.
  intros ->. unfold scheduled_sync. rewrite String.eqb_refl. reflexivity.
Qed.

End Scheduler.

(** X19.  With the cron secret the scheduled sync answers 200 after it has
    requested every state exactly once, in the order of the list and with
    limit 100, and slept two seconds once per batch of five but the last.
    Without the secret it answers 401 and requests nothing. *)
Theorem scheduled_sync_requests env states authorization :
  let out := scheduled_sync env states authorization in
  (authorization = Some ("Bearer " ++ Js.template (cron_secret env))%string ->
   fst (fst out) = 200 /\
   cron_fetched (snd out) = states /\
   cron_sleeps (snd out) = (List.length states - 1) / batchSize /\
   Forall (fun ev => ev = CronSleep 2000 \/ exists state, ev = CronFetch state 100)
     (snd out)) /\
  (authorization <> Some ("Bearer " ++ Js.template (cron_secret env))%string ->
   out = ((401, CronError "Unauthorized"), [])).
Proof.
  cbv zeta. split.
  - intros Ha. rewrite (scheduled_sync_authorized env states authorization Ha).
    destruct (run_batches_spec env states (List.length states) 0
                {| cr_success := []; cr_failed := []; cr_total := List.length states |} [])
      as (H1 & H2 & _); [lia|].
    pose proof (run_batches_events env states (List.length states) 0
                  {| cr_success := []; cr_failed := []; cr_total := List.length states |} []
                  (List.Forall_nil _)) as H3.
    destruct (run_batches env (List.length states) states 0 _ []) as [results tr].
    cbn [fst snd] in *. split; [reflexivity|]. split; [|split].
    + rewrite H1. reflexivity.
    + rewrite H2, Nat.sub_0_r. reflexivity.
    + exact H3.
  - intros Hne. unfold scheduled_sync. destruct authorization as [authHeader|]; [|reflexivity].
    destruct (String.eqb_spec authHeader ("Bearer " ++ Js.template (cron_secret env)))
      as [->|Hd]; [congruence|reflexivity].
Qed.

Lemma scheduled_sync_requests_witness :
  cron_fetched (snd (scheduled_handler steady_cron (Some "Bearer cr0n"))) = cron_states /\
  cron_sleeps (snd (scheduled_handler steady_cron (Some "Bearer cr0n"))) = 10 /\
  scheduled_handler steady_cron (Some "Bearer guess") =
    ((401, CronError "Unauthorized"), []).
Proof.
  destruct (scheduled_sync_requests steady_cron cron_states (Some "Bearer cr0n"))
    as [Hyes _].
  destruct (scheduled_sync_requests steady_cron cron_states (Some "Bearer guess"))
    as [_ Hno].
  destruct (Hyes eq_refl) as (_ & H1 & H2 & _).
  split; [exact H1|]. split; [exact H2|]. apply Hno. discriminate.
Defined.

(** X20.  When every callback of a batch pushes its result once, in any
    order, the summary of the scheduled sync lists every state once, in the
    successes or with the failures: the two counts add up to the number of
    states, which is the total in the results. *)
Theorem scheduled_sync_counts env states authorization :
  fair_order env ->
  authorization = Some ("Bearer " ++ Js.template (cron_secret env))%string ->
  exists results,
    fst (scheduled_sync env states authorization) =
      (200, CronSummary "Scheduled sync completed"
              (List.length (cr_success results)) (List.length (cr_failed results))
              results) /\
    Permutation (cr_success results ++ List.map fst (cr_failed results)) states /\
    List.length (cr_success results) + List.length (cr_failed results) =
      List.length states /\
    cr_total results = List.length states.
Proof.
  intros Hfair Ha. rewrite (scheduled_sync_authorized env states authorization Ha).
  destruct (run_batches_spec env states (List.length states) 0
              {| cr_success := []; cr_failed := []; cr_total := List.length states |} [])
    as (_ & _ & H3 & H4); [lia|].
  destruct (run_batches env (List.length states) states 0 _ []) as [results tr].
  cbn [fst snd] in *. specialize (H4 Hfair). cbn in H4.
  exists results. split; [reflexivity|]. split; [exact H4|]. split; [|exact H3].
  apply Permutation_length in H4.
  rewrite List.length_app, List.length_map in H4. exact H4.
Qed.

Lemma scheduled_sync_counts_witness :
  exists results,
    fst (scheduled_handler steady_cron (Some "Bearer cr0n")) =
      (200, CronSummary "Scheduled sync completed"
              (List.length (cr_success results)) (List.length (cr_failed results))
              results) /\
    Permutation (cr_success results ++ List.map fst (cr_failed results)) cron_states /\
    List.length (cr_success results) + List.length (cr_failed results) = 52 /\
    cr_total results = 52.
Proof.
  apply (scheduled_sync_counts steady_cron cron_states (Some "Bearer cr0n")).
  - intros n l. cbn. symmetry. apply Permutation_rev.
  - reflexivity.
Defined.

(* ===================================================================== *)
(** ** The scheduler's request at the manual endpoint                    *)
(* ===================================================================== *)

Lemma cron_states_nonempty state : In state cron_states -> state <> "".
Proof.
  intros H ->. revert H. unfold cron_states. cbn [In].
  intuition discriminate.
Qed.

(** X21.  The request the scheduled sync sends for one of its states is
    answered 200 by the sync endpoint that holds the same webhook secret,
    with a summary of one result, for that state.  It is answered 200 also
    when the state failed: with a jurisdiction request that fails, the one
    result is the failure with the message of that error. *)
Theorem cron_request_accepted env state w :
  In state cron_states ->
  (exists message totalSynced totalBills r,
     fst (handler env (cron_request (webhook_secret env) state) w) =
       {| resp_status := 200;
          resp_json := JSummary true message 1 totalSynced totalBills [r] |} /\
     result_state r = state) /\
  (forall e, jurisdiction_api env (clock w) state = Throw e ->
     fst (handler env (cron_request (webhook_secret env) state) w) =
       {| resp_status := 200;
          resp_json := JSummary true (summary_message 0 0 1) 1 0 0
                         [StateFailed state (err_message e)] |}).
Proof.
  intros Hin. pose proof (cron_states_nonempty state Hin) as Hne.
  assert (Hs : states_to_sync {| body_state := Some state; body_states := None;
                                 body_limit := Some 100 |} = Some [state]).
  { unfold states_to_sync. cbn [body_states body_state Js.truthy Js.or_empty].
    destruct state; [congruence|reflexivity]. }
  assert (Ha : authorized env (cron_request (webhook_secret env) state) = true).
  { unfold authorized, cron_request. cbn [req_authorization]. apply String.eqb_refl. }
  split.
  - destruct (handler_ok env (cron_request (webhook_secret env) state) w [state] _
                eq_refl Ha eq_refl Hs)
      as (message & totalSynced & totalBills & results & Hrun & Hres).
    destruct results as [|r [|r' results]]; try discriminate Hres.
    injection Hres as Hr. eauto 10.
  - intros e He. unfold handler. rewrite Ha. unfold handler_try, cron_request.
    cbn [req_method req_body String.eqb Ascii.eqb Bool.eqb negb].
    rewrite Hs. cbn [body_limit].
    unfold bind at 1. cbn [handler_loop]. unfold bind at 1, try_catch at 1, bind at 1.
    pose proof (syncOneState_run env state (Some 100) w) as Hone.
    rewrite He in Hone. rewrite Hone. reflexivity.
Qed.

Lemma cron_request_accepted_witness :
  fst (handler api_down_env (cron_request (Some "s3cret") "dc") empty_world) =
    {| resp_status := 200;
       resp_json := JSummary true (summary_message 0 0 1) 1 0 0
                      [StateFailed "dc" "Plural API error: 503"] |}.
Proof.
  assert (Hin : In "dc" cron_states) by (vm_compute; tauto).
  destruct (cron_request_accepted api_down_env "dc" empty_world Hin) as [_ H].
  exact (H (Error "Plural API error: 503") eq_refl).
Defined.

(* ===================================================================== *)
(** ** The query string of an upstream request                           *)
(* ===================================================================== *)

Lemma split_length sep s : List.length (Js.split sep s) = S (count_char sep s).
Proof.
  induction s as [|c s IH]; [reflexivity|].
  cbn [Js.split count_char]. destruct (Ascii.eqb c sep).
  - cbn [List.length]. rewrite IH. reflexivity.
  - destruct (Js.split sep s) as [|w ws]; cbn [List.length] in *; lia.
Qed.

Lemma trim_end_idem s : trim_end (trim_end s) = trim_end s.
Proof.
  induction s as [|c s IH]; [reflexivity|].
  cbn [trim_end]. destruct (trim_end s) as [|a t] eqn:E.
  - destruct (Js.is_space c) eqn:Ec; [reflexivity|]. cbn [trim_end]. rewrite Ec. reflexivity.
  - cbn [trim_end] in *. destruct (match trim_end t with
                                    | EmptyString => _
                                    | String _ _ => _ end) eqn:E'.
    + discriminate IH.
    + rewrite <- IH. reflexivity.
Qed.

Lemma trim_end_head c s :
  Js.is_space c = false -> exists t, trim_end (String c s) = String c t.
Proof.
  intros Hc. cbn [trim_end]. destruct (trim_end s); [rewrite Hc|]; eauto.
Qed.

Lemma trim_start_cases s :
  trim_start s = "" \/
  exists c t, trim_start s = String c t /\ Js.is_space c = false.
Proof.
  induction s as [|c s IH]; [left; reflexivity|].
  cbn [trim_start]. destruct (Js.is_space c) eqn:Ec; [exact IH|].
  right. eauto.
Qed.

Lemma trim_idem s : trim (trim s) = trim s.
Proof.
  unfold trim. destruct (trim_start_cases s) as [->|(c & t & -> & Hc)]; [reflexivity|].
  destruct (trim_end_head c t Hc) as [t' Ht]. rewrite Ht.
  cbn [trim_start]. rewrite Hc, <- Ht. apply trim_end_idem.
Qed.

Lemma has_char_trim_end c s : has_char c s = false -> has_char c (trim_end s) = false.
Proof.
  induction s as [|a s IH]; [reflexivity|].
  cbn [has_char trim_end]. intros H. apply orb_false_elim in H as [Ha Hs].
  specialize (IH Hs). destruct (trim_end s).
  - destruct (Js.is_space a); [reflexivity|]. cbn. rewrite Ha. reflexivity.
  - cbn [has_char] in *. rewrite Ha, IH. reflexivity.
Qed.

Lemma has_char_trim_start c s : has_char c s = false -> has_char c (trim_start s) = false.
Proof.
  induction s as [|a s IH]; [reflexivity|].
  cbn [has_char trim_start]. intros H. destruct (Js.is_space a); [|exact H].
  apply orb_false_elim in H as [_ Hs]. exact (IH Hs).
Qed.

(** X22.  A string given as the include parameter of an upstream request
    is sent as one include parameter per comma-separated item, one more
    than the string has commas, in order; each value is trimmed and holds no
    comma.  An array is sent as one parameter per item, unchanged. *)
Theorem include_is_split key s items :
  let pairs := param_pairs "include" (PStr s) in
  List.length pairs = S (count_char "," s) /\
  Forall (fun p => fst p = "include" /\ has_char "," (snd p) = false /\
                   trim (snd p) = snd p) pairs /\
  List.map snd pairs = List.map trim (Js.split "," s) /\
  List.map snd (param_pairs key (PArr items)) = items.
Proof.
  cbv zeta. unfold param_pairs. cbn [String.eqb Ascii.eqb Bool.eqb].
  rewrite List.length_map, split_length. split; [reflexivity|]. split; [|split].
  - apply List.Forall_map. eapply List.Forall_impl; [|apply (split_no_sep "," s)].
    intros item Hitem. cbn [fst snd]. split; [reflexivity|]. split.
    + unfold trim. apply has_char_trim_end, has_char_trim_start, Hitem.
    + apply trim_idem.
  - rewrite List.map_map. reflexivity.
  - rewrite List.map_map. apply List.map_id.
Qed.
